(** * Lobbying investigator: real-time session layer and table parser

    A shallow embedding of three TypeScript components of the frontend:

    - the table parser (class [TableParser] of the module table-parser),
    - the WebSocket transport (class [WebSocketService] of
      lib/websocket-service.ts),
    - the session orchestrator (class [RealTimeService]),

    and of what surrounds them: the helpers of the module
    safe-operations ([limitArraySize], [RateLimiter], [classifyError]),
    the global error handler, the message logger and the update that
    the dashboard makes of its timeline; followed by the properties
    proved about them.

    Strings.  A JavaScript string is modelled by a Rocq [string], read as
    the UTF-8 bytes of the text.  The model is exact on ASCII text, which
    is all that the parser's keywords, digits and delimiters use: bytes
    above 127 are opaque characters, neither white space nor letters with
    a case.  Numbers that the source obtains with [parseInt] are modelled
    by their exact value in [N] (the source holds them in a double, exact
    below 2^53). *)

From Stdlib Require Import List Bool Arith NArith ZArith Lia.
From Stdlib Require Import Strings.Ascii Strings.String Numbers.DecimalString.
From Stdlib Require Import Sorting.Sorted Sorting.Permutation.
Import ListNotations.

Open Scope string_scope.
Open Scope list_scope.
Open Scope nat_scope.

(** String concatenation, the [+] of the source on strings. *)
Infix "+++" := String.append (right associativity, at level 60).

(* ================================================================== *)
(** ** JavaScript string primitives *)
(* ================================================================== *)

Module JS.

Definition code (c : ascii) : nat := nat_of_ascii c.

Definition char_eqb (a b : ascii) : bool := Ascii.eqb a b.

(** The line feed, as a one character string. *)
Definition LF : ascii := ascii_of_nat 10.
Definition nl : string := String LF EmptyString.

(** White space of [String.prototype.trim] and of the class [\s]:
    TAB, LF, VT, FF, CR and SPACE on the ASCII range. *)
Definition is_space (c : ascii) : bool :=
  let n := code c in ((9 <=? n) && (n <=? 13)) || (n =? 32).

(** The class [\d]. *)
Definition is_digit (c : ascii) : bool :=
  let n := code c in (48 <=? n) && (n <=? 57).

(** The class [[A-Z]]. *)
Definition is_upper (c : ascii) : bool :=
  let n := code c in (65 <=? n) && (n <=? 90).

(** Line terminators, which the regular expression [.] refuses. *)
Definition is_line_terminator (c : ascii) : bool :=
  let n := code c in (n =? 10) || (n =? 13).

Definition lower_char (c : ascii) : ascii :=
  if is_upper c then ascii_of_nat (code c + 32) else c.

(** [s.toLowerCase()] *)
Fixpoint toLowerCase (s : string) : string :=
  match s with
  | EmptyString => EmptyString
  | String c r => String (lower_char c) (toLowerCase r)
  end.

Fixpoint all_chars (p : ascii -> bool) (s : string) : bool :=
  match s with
  | EmptyString => true
  | String c r => p c && all_chars p r
  end.

Fixpoint exists_char (p : ascii -> bool) (s : string) : bool :=
  match s with
  | EmptyString => false
  | String c r => p c || exists_char p r
  end.

(** Removal of every character of a class: [s.replace(/[...]/g, '')]. *)
Fixpoint remove_chars (p : ascii -> bool) (s : string) : string :=
  match s with
  | EmptyString => EmptyString
  | String c r => if p c then remove_chars p r else String c (remove_chars p r)
  end.

Fixpoint trimStart (s : string) : string :=
  match s with
  | EmptyString => EmptyString
  | String c r => if is_space c then trimStart r else s
  end.

Fixpoint trimEnd (s : string) : string :=
  match s with
  | EmptyString => EmptyString
  | String c r =>
      match trimEnd r with
      | EmptyString => if is_space c then EmptyString else String c EmptyString
      | r' => String c r'
      end
  end.

(** [s.trim()] *)
Definition trim (s : string) : string := trimEnd (trimStart s).

Definition is_empty (s : string) : bool :=
  match s with EmptyString => true | _ => false end.

(** [s.startsWith(p)] *)
Fixpoint startsWith (p s : string) : bool :=
  match p, s with
  | EmptyString, _ => true
  | String a p', String b s' => char_eqb a b && startsWith p' s'
  | String _ _, EmptyString => false
  end.

(** [s.includes(p)]: the needle comes first, the haystack second. *)
Fixpoint includes (p s : string) : bool :=
  startsWith p s ||
  match s with
  | EmptyString => false
  | String _ r => includes p r
  end.

(** [s.split(c)] for a one character separator: a string without the
    separator gives the one element list of itself. *)
Fixpoint split (c : ascii) (s : string) : list string :=
  match s with
  | EmptyString => [EmptyString]
  | String a r =>
      if char_eqb a c then EmptyString :: split c r
      else match split c r with
           | [] => [String a EmptyString]
           | h :: t => String a h :: t
           end
  end.

(** [l.join(sep)] *)
Definition join (sep : string) (l : list string) : string := String.concat sep l.

Definition lines (s : string) : list string := split LF s.
Definition unlines (l : list string) : string := join nl l.

(** [s.substring(0, n)] *)
Fixpoint take (n : nat) (s : string) : string :=
  match n, s with
  | S k, String c r => String c (take k r)
  | _, _ => EmptyString
  end.

Fixpoint take_while (p : ascii -> bool) (s : string) : string :=
  match s with
  | String c r => if p c then String c (take_while p r) else EmptyString
  | EmptyString => EmptyString
  end.

Fixpoint drop_while (p : ascii -> bool) (s : string) : string :=
  match s with
  | String c r => if p c then drop_while p r else s
  | EmptyString => EmptyString
  end.

(** Value of a run of decimal digits, most significant first:
    [parseInt(ds, 10)] on a string of digits. *)
Definition digit_value (c : ascii) : N := N.of_nat (code c - 48).

Fixpoint parseInt_from (acc : N) (ds : string) : N :=
  match ds with
  | EmptyString => acc
  | String c r => parseInt_from (10 * acc + digit_value c)%N r
  end.

Definition parseInt (ds : string) : N := parseInt_from 0%N ds.

(** Decimal text of a number, as a template literal prints it. *)
Definition string_of_N (n : N) : string :=
  NilZero.string_of_uint (N.to_uint n).

Definition string_of_nat (n : nat) : string := string_of_N (N.of_nat n).

(** Truthiness of an optional string: [undefined] and [''] are falsy. *)
Definition truthy (o : option string) : bool :=
  match o with
  | Some s => negb (is_empty s)
  | None => false
  end.

(** [a || d] where [d] is a string literal. *)
Definition or_default (a : option string) (d : string) : string :=
  match a with
  | Some s => if is_empty s then d else s
  | None => d
  end.

End JS.

(* ================================================================== *)
(** ** The table parser (class TableParser) *)
(* ================================================================== *)

Module TableParser.
Import JS.

Record CongressMember := {
  name : string;
  chamber : string;
  party : option string;
  state : string;
  district : option string;
  rank : N;
  reason : string
}.

Record ParsedTable := {
  members : list CongressMember;
  totalMembers : nat;
  investigationComplete : bool;
  billId : option string;
  hasDualTables : option bool;
  alignedMembers : option (list CongressMember);
  opposedMembers : option (list CongressMember)
}.

Definition pipe : ascii := "|"%char.

(** The header test shared by [detectDualTables] and
    [extractTableByOrder]: a pipe in the line and, in its lower-cased
    trimmed text, the three column titles. *)
Definition isTableHeader (line : string) : bool :=
  let lineLower := trim (toLowerCase line) in
  includes "|" line &&
  includes "congress member" lineLower &&
  (includes "chamber" lineLower || includes "party" lineLower) &&
  includes "involvement rank" lineLower.

Definition tableHeaderCount (content : string) : nat :=
  List.length (filter isTableHeader (lines content)).

Definition detectDualTables (content : string) : bool :=
  tableHeaderCount content =? 2.

(** [/^\|[\s\-|]+\|$/]: a pipe, one or more of white space, dash and
    pipe, and a pipe at the end of the string. *)
Definition separator_class (c : ascii) : bool :=
  is_space c || char_eqb c "-"%char || char_eqb c pipe.

Fixpoint ends_with_pipe (s : string) : bool :=
  match s with
  | EmptyString => false
  | String c EmptyString => char_eqb c pipe
  | String _ r => ends_with_pipe r
  end.

Definition matchesSeparatorRow (s : string) : bool :=
  match s with
  | String c rest =>
      char_eqb c pipe && (2 <=? String.length rest) &&
      all_chars separator_class rest && ends_with_pipe rest
  | EmptyString => false
  end.

(** [line.trim().replace(/\|/g, '').replace(/[-:]/g, '').trim() === ''] *)
Definition isSeparatorLine (line : string) : bool :=
  is_empty
    (trim (remove_chars (fun c => char_eqb c "-"%char || char_eqb c ":"%char)
             (remove_chars (fun c => char_eqb c pipe) (trim line)))).

(** State of the loop of [extractTableByOrder]. *)
Record ExtractState := {
  tablesFound : list string;
  currentTableLines : list string;
  inTable : bool
}.

Definition flushTable (st : ExtractState) : ExtractState :=
  {| tablesFound := tablesFound st ++ [unlines (currentTableLines st)];
     currentTableLines := [];
     inTable := false |}.

Definition pushLine (st : ExtractState) (line : string) : ExtractState :=
  {| tablesFound := tablesFound st;
     currentTableLines := currentTableLines st ++ [line];
     inTable := inTable st |}.

(** One iteration of the loop. *)
Definition extractStep (st : ExtractState) (line : string) : ExtractState :=
  if isTableHeader line then
    let st1 :=
      if inTable st && (0 <? List.length (currentTableLines st)) then
        {| tablesFound := tablesFound st ++ [unlines (currentTableLines st)];
           currentTableLines := [];
           inTable := inTable st |}
      else st in
    {| tablesFound := tablesFound st1;
       currentTableLines := currentTableLines st1 ++ [line];
       inTable := true |}
  else if inTable st then
    if includes "|" line && isSeparatorLine line then pushLine st line
    else if includes "|" line && (5 <=? List.length (split pipe line)) then pushLine st line
    else if is_empty (trim line) && (2 <? List.length (currentTableLines st)) then flushTable st
    else if negb (includes "|" line) && (2 <? List.length (currentTableLines st)) then flushTable st
    else st
  else st.

Definition extractInit : ExtractState :=
  {| tablesFound := []; currentTableLines := []; inTable := false |}.

(** The tables found once the loop is over and the table still open,
    if any, has been added. *)
Definition extractTables (content : string) : list string :=
  let st := fold_left extractStep (lines content) extractInit in
  if inTable st && (0 <? List.length (currentTableLines st))
  then tablesFound st ++ [unlines (currentTableLines st)]
  else tablesFound st.

(** Called with table numbers 1 and 2 only. *)
Definition extractTableByOrder (content : string) (tableNumber : nat) : option string :=
  let found := extractTables content in
  if tableNumber <=? List.length found then nth_error found (tableNumber - 1)
  else None.

Definition tableIndicators : list string :=
  [ "Congress Member"; "Chamber"; "State/District"; "Involvement Rank";
    "Reason"; "|---|"; "TERMINATE"; "investigation complete"; "table delivered" ].

Definition detectTableInMessage (content : string) : bool :=
  let contentLower := toLowerCase content in
  3 <=? List.length
          (filter (fun indicator => includes (toLowerCase indicator) contentLower)
                  tableIndicators).

(** The test that ends the table in [extractTableSection]. *)
Definition endsTable (line : string) : bool :=
  is_empty line ||
  (includes "---" line && negb (includes "|" line)) ||
  includes "interpretive notes" (toLowerCase line) ||
  includes "conclusion" (toLowerCase line).

(** The loop of [extractTableSection]: [i] is the index of the first
    line of [ls], [tableStart] is [None] for the source's -1.  The
    result is the pair of [tableStart] and [tableEnd]. *)
Fixpoint scanTableBounds (ls : list string) (i : nat) (tableStart : option nat)
  : option nat * option nat :=
  match ls with
  | [] => (tableStart, None)
  | l :: rest =>
      let line := trim l in
      let tableStart :=
        if includes "Congress Member" line && includes "|" line
        then Some i else tableStart in
      match tableStart with
      | None => scanTableBounds rest (S i) tableStart
      | Some ts =>
          if matchesSeparatorRow line then scanTableBounds rest (S i) tableStart
          else if (ts + 1 <? i) && endsTable line then (tableStart, Some i)
          else scanTableBounds rest (S i) tableStart
      end
  end.

Definition extractTableSection (content : string) : option string :=
  let ls := lines content in
  match scanTableBounds ls 0 None with
  | (None, _) => None
  | (Some tableStart, tableEnd) =>
      let tableEnd := match tableEnd with Some e => e | None => List.length ls end in
      Some (unlines (skipn tableStart (firstn tableEnd ls)))
  end.

(** [/(\d+)/] then [parseInt(match[1], 10)]: the first run of digits
    of the cell.  A run of digits never parses to NaN, so the source's
    [isNaN] branch is dead. *)
Definition firstDigitRun (s : string) : string :=
  take_while is_digit (drop_while (fun c => negb (is_digit c)) s).

Definition parseRank (rankCell : string) : option N :=
  match firstDigitRun rankCell with
  | EmptyString => None
  | ds => Some (parseInt ds)
  end.

(** [^(.+?)] followed by the rest of a pattern: the shortest non-empty
    prefix free of line terminators after which [tail] matches.  The
    result is the prefix (group 1) and what [tail] captured. *)
Fixpoint lazyPrefix {A : Type} (tail : string -> option A) (s : string)
  : option (string * A) :=
  match s with
  | EmptyString => None
  | String c r =>
      if is_line_terminator c then None
      else match tail r with
           | Some a => Some (String c EmptyString, a)
           | None =>
               match lazyPrefix tail r with
               | Some (g, a) => Some (String c g, a)
               | None => None
               end
           end
  end.

Definition partyLetter (c : ascii) : bool :=
  char_eqb c "R"%char || char_eqb c "D"%char || char_eqb c "I"%char.

(** [\s*\(([RDI])\)$] *)
Definition simplePartyTail (s : string) : option string :=
  match drop_while is_space s with
  | String "("%char (String x (String ")"%char EmptyString)) =>
      if partyLetter x then Some (String x EmptyString) else None
  | _ => None
  end.

(** [\s*\(([RDI])-] *)
Definition partyStateTail (s : string) : option string :=
  match drop_while is_space s with
  | String "("%char (String x (String "-"%char _)) =>
      if partyLetter x then Some (String x EmptyString) else None
  | _ => None
  end.

Definition parseNameForParty (nameCell : string) : string * option string :=
  match lazyPrefix simplePartyTail nameCell with
  | Some (nm, p) => (trim nm, Some p)
  | None =>
      match lazyPrefix partyStateTail nameCell with
      | Some (nm, p) => (trim nm, Some p)
      | None => (trim nameCell, None)
      end
  end.

(** [/^([A-Z]{2})-(\d+)$/] *)
Definition districtMatch (s : string) : option (string * string) :=
  match s with
  | String a (String b (String "-"%char ds)) =>
      if is_upper a && is_upper b && negb (is_empty ds) && all_chars is_digit ds
      then Some (String a (String b EmptyString), ds) else None
  | _ => None
  end.

(** [/^([A-Z]{2})$/] *)
Definition stateMatch (s : string) : option string :=
  match s with
  | String a (String b EmptyString) =>
      if is_upper a && is_upper b then Some s else None
  | _ => None
  end.

Definition parseStateDistrict (stateDistrictCell : string) : string * option string :=
  match districtMatch stateDistrictCell with
  | Some (st, d) => (st, Some d)
  | None =>
      match stateMatch stateDistrictCell with
      | Some st => (st, None)
      | None => (stateDistrictCell, None)
      end
  end.

(** Called on the letters R, D and I only. *)
Definition expandParty (partyCode : string) : string :=
  if String.eqb partyCode "R" then "Republican"
  else if String.eqb partyCode "D" then "Democrat"
  else if String.eqb partyCode "I" then "Independent"
  else partyCode.

Definition rowCells (row : string) : list string :=
  filter (fun cell => negb (is_empty cell)) (map trim (split pipe row)).

Definition parseTableRow (row : string) : option CongressMember :=
  match rowCells row with
  | nameCell :: chamberCell :: stateDistrictCell :: rankCell :: reasonCell :: _ =>
      match parseRank rankCell with
      | None => None
      | Some rk =>
          let nameInfo := parseNameForParty nameCell in
          let stateInfo := parseStateDistrict (trim stateDistrictCell) in
          Some {| name := fst nameInfo;
                  chamber := trim chamberCell;
                  party := if truthy (snd nameInfo)
                           then option_map expandParty (snd nameInfo) else None;
                  state := fst stateInfo;
                  district := snd stateInfo;
                  rank := rk;
                  reason := trim reasonCell |}
      end
  | _ => None
  end.

(** The lines of a table that [parseTableRows] hands to
    [parseTableRow]: the header, the separators and the empty lines
    are skipped. *)
Definition skipsLine (trimmedLine : string) : bool :=
  is_empty trimmedLine ||
  includes "Congress Member" trimmedLine ||
  matchesSeparatorRow trimmedLine.

Definition parseTableLine (line : string) : option CongressMember :=
  let trimmedLine := trim line in
  if skipsLine trimmedLine then None else parseTableRow trimmedLine.

Fixpoint parseTableLines (ls : list string) : list CongressMember :=
  match ls with
  | [] => []
  | line :: rest =>
      match parseTableLine line with
      | Some member => member :: parseTableLines rest
      | None => parseTableLines rest
      end
  end.

Definition parseTableRows (tableSection : string) : list CongressMember :=
  parseTableLines (lines tableSection).

(** [/([SH]\.?\s*\d+[-\s]\d+)/i] tried at the start of [s].  Every
    quantifier of the pattern is followed by a character outside its
    class, so the greedy choice is the only one that can succeed. *)
Definition billMatchAt (s : string) : option string :=
  match s with
  | String c r =>
      if char_eqb (lower_char c) "s"%char || char_eqb (lower_char c) "h"%char then
        let dot := match r with String "."%char _ => "." | _ => "" end in
        let r1 := match r with String "."%char r' => r' | _ => r end in
        let ws := take_while is_space r1 in
        let r2 := drop_while is_space r1 in
        let d1 := take_while is_digit r2 in
        match d1, drop_while is_digit r2 with
        | String _ _, String x r4 =>
            let d2 := take_while is_digit r4 in
            if (char_eqb x "-"%char || is_space x) && negb (is_empty d2)
            then Some (String c (dot +++ ws +++ d1 +++ String x d2))
            else None
        | _, _ => None
        end
      else None
  | EmptyString => None
  end.

(** The leftmost match of the pattern. *)
Fixpoint extractBillId (content : string) : option string :=
  match billMatchAt content with
  | Some m => Some m
  | None =>
      match content with
      | EmptyString => None
      | String _ r => extractBillId r
      end
  end.

Definition completionIndicators : list string :=
  [ "TERMINATE"; "investigation complete"; "table delivered";
    "all findings consolidated"; "no further puzzle pieces" ].

Definition isInvestigationComplete (content : string) : bool :=
  let contentLower := toLowerCase content in
  existsb (fun indicator => includes (toLowerCase indicator) contentLower)
          completionIndicators.

(** A table section is used when it is neither [null] nor [''].*)
Definition sectionRows (section : option string) : list CongressMember :=
  match section with
  | Some s => if is_empty s then [] else parseTableRows s
  | None => []
  end.

Definition parseDualTables (messageContent : string) : option ParsedTable :=
  let alignedMembers := sectionRows (extractTableByOrder messageContent 1) in
  let opposedMembers := sectionRows (extractTableByOrder messageContent 2) in
  let allMembers := alignedMembers ++ opposedMembers in
  if List.length allMembers =? 0 then None
  else Some {| members := allMembers;
               totalMembers := List.length allMembers;
               investigationComplete := isInvestigationComplete messageContent;
               billId := extractBillId messageContent;
               hasDualTables := Some true;
               alignedMembers := Some alignedMembers;
               opposedMembers := Some opposedMembers |}.

Definition parseSingleTable (messageContent : string) : option ParsedTable :=
  if negb (detectTableInMessage messageContent) then None
  else match extractTableSection messageContent with
       | None => None
       | Some tableSection =>
           if is_empty tableSection then None
           else
             let members := parseTableRows tableSection in
             if List.length members =? 0 then None
             else Some {| members := members;
                          totalMembers := List.length members;
                          investigationComplete := isInvestigationComplete messageContent;
                          billId := extractBillId messageContent;
                          hasDualTables := Some false;
                          alignedMembers := None;
                          opposedMembers := None |}
       end.

(** The source wraps each of the three parsing functions in a
    [try]/[catch] that returns [null].  None of the string operations
    used can throw on a string argument, so the functions of the model
    are total and the handlers have nothing to catch. *)
Definition parseOrchestratorTable (messageContent : string) : option ParsedTable :=
  if detectDualTables messageContent then parseDualTables messageContent
  else parseSingleTable messageContent.

Definition parseCongressTable (messageContent : string) : option ParsedTable :=
  parseOrchestratorTable messageContent.

End TableParser.

(* ================================================================== *)
(** ** Wire messages and communications *)
(* ================================================================== *)

(** A structured value that the code only passes on or prints (tool
    arguments, a tool result, table data) is represented by the text
    [JSON.stringify] prints for it, and by [None] when it is absent. *)
Definition JSONText : Type := string.

Module ToolCall.
Record t := { id : string; name : string; arguments : JSONText }.
End ToolCall.

Module ToolResult.
Record t := { call_id : string; content : option JSONText; is_error : bool }.
End ToolResult.

(** The [details] object of a tool result. *)
Module Details.
Record t := { key_findings : option (list string); data_points : option string }.
End Details.

(** The [table_data] object of a concluded investigation: the length of
    its [members] array, when it has one, and its JSON text. *)
Module TableData.
Record t := { members_length : option nat; json : JSONText }.
End TableData.

(** The [data] object of a wire message, [any] in the source, with the
    fields that the handlers read, at the types they are used at, and
    the text that [JSON.stringify] prints for the whole object. *)
Module Payload.
Record t := {
  json : JSONText;
  id : option string;
  agent : option string;
  type : option string;
  simplified : option string;
  fullContent : option string;
  toolCalls : option (list ToolCall.t);
  results : option (list ToolResult.t);
  status : option string;
  name : option string;
  arguments : option JSONText;
  summary : option string;
  success : bool;
  details : option Details.t;
  result : option JSONText;
  table_available : bool;
  table_data : option TableData.t;
  conclusion_message : option string;
  table_status : option string
}.
End Payload.

(** A validated wire message: [type] and [timestamp] are strings. *)
Module WebSocketMessage.
Record t := {
  type : string;
  sessionId : option string;
  timestamp : string;
  data : option Payload.t;
  message : option string;
  error : option string
}.
End WebSocketMessage.

Module AgentCommunication.
Record t := {
  id : string;
  timestamp : string;
  agent : string;
  type : string;
  simplified : string;
  fullContent : option string;
  toolCalls : option (list ToolCall.t);
  results : option (list ToolResult.t);
  status : string;
  tableData : option TableParser.ParsedTable
}.
End AgentCommunication.

(* ================================================================== *)
(** ** The WebSocket transport (class WebSocketService) *)
(* ================================================================== *)

Module WebSocketService.
Import JS.

Inductive ReadyState := CONNECTING | OPEN | CLOSING | CLOSED.

(** A socket created by [connect], with the promise that its [onopen]
    resolves and its [onerror] rejects. *)
Record Socket := { readyState : ReadyState; connectPromise : nat }.

(** State of a promise; settling a settled promise changes nothing. *)
Inductive Promise :=
| Pending
| Resolved (value : option string)
| Rejected (reason : string).

(** The functions held by the handler registry: the two closures that
    the service registers itself, for the promise they settle, and the
    subscribers from outside, of which the transport sees whether they
    throw. *)
Inductive Handler :=
| handleStart (promise : nat)
| handleStop (promise : nat)
| subscriber (throws : WebSocketMessage.t -> bool).

(** Callbacks passed to [setTimeout]. *)
Inductive TimerAction :=
| reconnect
| startTimeout (promise : nat)
| stopTimeout (promise : nat).

Record Timer := { delay : N; action : TimerAction }.

(** Requests passed to [ws.send]. *)
Inductive Request :=
| start_investigation (sessionId company bill : string)
| stop_investigation (sessionId : string).

(** The fields of the service, followed by what the model keeps of its
    surroundings: the sockets and promises it created, the pending
    timers, the requests sent and the calls made to handlers. *)
Record t := mk {
  ws : option nat;
  reconnectAttempts : nat;
  isManualClose : bool;
  messageHandlers : list (string * Handler);
  sessionId : option string;
  sockets : list Socket;
  promises : list Promise;
  timers : list Timer;
  sent : list Request;
  calls : list (string * WebSocketMessage.t)
}.

Definition maxReconnectAttempts : nat := 5.
Definition reconnectInterval : N := 1000.

Definition initial : t :=
  mk None 0 false [] None [] [] [] [] [].

Definition set_ws v st :=
  mk v (reconnectAttempts st) (isManualClose st) (messageHandlers st) (sessionId st)
     (sockets st) (promises st) (timers st) (sent st) (calls st).
Definition set_reconnectAttempts v st :=
  mk (ws st) v (isManualClose st) (messageHandlers st) (sessionId st)
     (sockets st) (promises st) (timers st) (sent st) (calls st).
Definition set_isManualClose v st :=
  mk (ws st) (reconnectAttempts st) v (messageHandlers st) (sessionId st)
     (sockets st) (promises st) (timers st) (sent st) (calls st).
Definition set_messageHandlers v st :=
  mk (ws st) (reconnectAttempts st) (isManualClose st) v (sessionId st)
     (sockets st) (promises st) (timers st) (sent st) (calls st).
Definition set_sessionId v st :=
  mk (ws st) (reconnectAttempts st) (isManualClose st) (messageHandlers st) v
     (sockets st) (promises st) (timers st) (sent st) (calls st).
Definition set_sockets v st :=
  mk (ws st) (reconnectAttempts st) (isManualClose st) (messageHandlers st) (sessionId st)
     v (promises st) (timers st) (sent st) (calls st).
Definition set_promises v st :=
  mk (ws st) (reconnectAttempts st) (isManualClose st) (messageHandlers st) (sessionId st)
     (sockets st) v (timers st) (sent st) (calls st).
Definition set_timers v st :=
  mk (ws st) (reconnectAttempts st) (isManualClose st) (messageHandlers st) (sessionId st)
     (sockets st) (promises st) v (sent st) (calls st).
Definition set_sent v st :=
  mk (ws st) (reconnectAttempts st) (isManualClose st) (messageHandlers st) (sessionId st)
     (sockets st) (promises st) (timers st) v (calls st).
Definition set_calls v st :=
  mk (ws st) (reconnectAttempts st) (isManualClose st) (messageHandlers st) (sessionId st)
     (sockets st) (promises st) (timers st) (sent st) v.

(** *** Lists by index *)

Fixpoint update_nth {A : Type} (n : nat) (f : A -> A) (l : list A) : list A :=
  match l, n with
  | [], _ => []
  | x :: r, O => f x :: r
  | x :: r, S k => x :: update_nth k f r
  end.

Fixpoint remove_nth {A : Type} (n : nat) (l : list A) : list A :=
  match l, n with
  | [], _ => []
  | _ :: r, O => r
  | x :: r, S k => x :: remove_nth k r
  end.

(** *** Promises *)

Definition newPromise (st : t) : t * nat :=
  (set_promises (promises st ++ [Pending]) st, List.length (promises st)).

Definition promiseState (p : nat) (st : t) : Promise :=
  nth p (promises st) Pending.

Definition settle (outcome : Promise) (current : Promise) : Promise :=
  match current with
  | Pending => outcome
  | _ => current
  end.

Definition resolve (p : nat) (value : option string) (st : t) : t :=
  set_promises (update_nth p (settle (Resolved value)) (promises st)) st.

Definition reject (p : nat) (reason : string) (st : t) : t :=
  set_promises (update_nth p (settle (Rejected reason)) (promises st)) st.

(** *** The handler registry, a [Map] in insertion order *)

Fixpoint lookup (id : string) (hs : list (string * Handler)) : option Handler :=
  match hs with
  | [] => None
  | (k, h) :: r => if String.eqb k id then Some h else lookup id r
  end.

(** [Map.set]: a known key keeps its place. *)
Fixpoint mapSet (id : string) (h : Handler) (hs : list (string * Handler))
  : list (string * Handler) :=
  match hs with
  | [] => [(id, h)]
  | (k, h') :: r => if String.eqb k id then (k, h) :: r else (k, h') :: mapSet id h r
  end.

Definition mapDelete (id : string) (hs : list (string * Handler))
  : list (string * Handler) :=
  filter (fun e => negb (String.eqb (fst e) id)) hs.

Definition onMessage (id : string) (handler : Handler) (st : t) : t :=
  set_messageHandlers (mapSet id handler (messageHandlers st)) st.

Definition offMessage (id : string) (st : t) : t :=
  set_messageHandlers (mapDelete id (messageHandlers st)) st.

(** *** Queries *)

Definition socketState (k : nat) (st : t) : option ReadyState :=
  option_map readyState (nth_error (sockets st) k).

Definition isConnected (st : t) : bool :=
  match ws st with
  | Some k => match socketState k st with Some OPEN => true | _ => false end
  | None => false
  end.

Definition getCurrentSessionId (st : t) : option string := sessionId st.

(** *** [connect] and [disconnect] *)

(** The new state and the promise returned.  An open socket resolves
    the promise at once; otherwise the manual-close flag is cleared and
    a socket is created, in state CONNECTING. *)
Definition connect (st : t) : t * nat :=
  let (st, p) := newPromise st in
  if isConnected st then (resolve p None st, p)
  else
    let st := set_isManualClose false st in
    let k := List.length (sockets st) in
    let socket := {| readyState := CONNECTING; connectPromise := p |} in
    (set_ws (Some k) (set_sockets (sockets st ++ [socket]) st), p).

(** [ws.close()] starts the closing handshake of a socket that is not
    closed yet; the close event comes later. *)
Definition closeSocket (k : nat) (st : t) : t :=
  set_sockets
    (update_nth k (fun s => match readyState s with
                            | CLOSED => s
                            | _ => {| readyState := CLOSING;
                                      connectPromise := connectPromise s |}
                            end) (sockets st)) st.

Definition disconnect (st : t) : t :=
  let st := set_isManualClose true st in
  match ws st with
  | Some k => set_ws None (closeSocket k st)
  | None => st
  end.

(** *** The socket's event handlers *)

Definition onopen (k : nat) (st : t) : t :=
  let st := set_reconnectAttempts 0 st in
  match nth_error (sockets st) k with
  | Some s => resolve (connectPromise s) None st
  | None => st
  end.

Definition setTimeout (a : TimerAction) (d : N) (st : t) : t :=
  set_timers (timers st ++ [{| delay := d; action := a |}]) st.

Definition onclose (st : t) : t :=
  if negb (isManualClose st) && (reconnectAttempts st <? maxReconnectAttempts)
  then setTimeout reconnect (reconnectInterval * N.of_nat (reconnectAttempts st))%N st
  else st.

Definition onerror (k : nat) (st : t) : t :=
  match nth_error (sockets st) k with
  | Some s => reject (connectPromise s) "error" st
  | None => st
  end.

(** *** Dispatch to the registered handlers *)

Definition startConfirmation (type : string) : bool :=
  String.eqb type "investigation_started" ||
  String.eqb type "agent_communication" ||
  String.eqb type "tool_call_start".

(** [a === b] between [message.sessionId], a string or [undefined], and
    [this.sessionId], a string or [null]. *)
Definition sameSession (a b : option string) : bool :=
  match a, b with
  | Some x, Some y => String.eqb x y
  | _, _ => false
  end.

(** The closure [handleStart] of [startInvestigation]. *)
Definition runHandleStart (p : nat) (m : WebSocketMessage.t) (st : t) : t :=
  if startConfirmation (WebSocketMessage.type m) &&
     sameSession (WebSocketMessage.sessionId m) (sessionId st)
  then
    let st := offMessage "start_handler" st in
    resolve p (sessionId st) st
  else if String.eqb (WebSocketMessage.type m) "investigation_error" then
    let st := offMessage "start_handler" st in
    reject p (or_default (WebSocketMessage.error m)
                (or_default (WebSocketMessage.message m) "Investigation failed to start")) st
  else if String.eqb (WebSocketMessage.type m) "error" &&
          match WebSocketMessage.message m with
          | Some text => includes "investigation" text
          | None => false
          end
  then
    let st := offMessage "start_handler" st in
    reject p (or_default (WebSocketMessage.message m) "Unknown error") st
  else st.

(** The closure [handleStop] of [stopInvestigation]. *)
Definition runHandleStop (p : nat) (m : WebSocketMessage.t) (st : t) : t :=
  if String.eqb (WebSocketMessage.type m) "investigation_stopped" &&
     sameSession (WebSocketMessage.sessionId m) (sessionId st)
  then
    let st := offMessage "stop_handler" st in
    let st := set_sessionId None st in
    resolve p None st
  else if String.eqb (WebSocketMessage.type m) "error" then
    let st := offMessage "stop_handler" st in
    reject p (or_default (WebSocketMessage.message m) "Unknown error") st
  else st.

(** A call of a handler: the state it leaves and whether it threw. *)
Definition invoke (h : Handler) (m : WebSocketMessage.t) (st : t) : t * bool :=
  match h with
  | handleStart p => (runHandleStart p m st, false)
  | handleStop p => (runHandleStop p m st, false)
  | subscriber throws => (st, throws m)
  end.

(** The body of the [forEach] of [handleMessage]: the handler is called
    inside [try]; the [catch] deletes it from the registry. *)
Definition guardedCall (m : WebSocketMessage.t) (id : string) (h : Handler) (st : t)
  : t * bool :=
  let st := set_calls (calls st ++ [(id, m)]) st in
  let (st, threw) := invoke h m st in
  if threw then (offMessage id st, false) else (st, false).

(** [Map.forEach]: the entries are visited in insertion order; an entry
    deleted before its turn is not visited; an exception of the body
    ends the loop and is passed on.  No handler of the model adds an
    entry during the loop. *)
Fixpoint forEach (body : string -> Handler -> t -> t * bool) (ids : list string) (st : t)
  : t * bool :=
  match ids with
  | [] => (st, false)
  | id :: rest =>
      match lookup id (messageHandlers st) with
      | None => forEach body rest st
      | Some h =>
          let (st', threw) := body id h st in
          if threw then (st', true) else forEach body rest st'
      end
  end.

(** The state after the dispatch, and whether the dispatch threw. *)
Definition handleMessage (m : WebSocketMessage.t) (st : t) : t * bool :=
  forEach (guardedCall m) (map fst (messageHandlers st)) st.

(** *** [onmessage] *)

(** What [JSON.parse] makes of the payload: a number, a string or a
    boolean, or an object with its fields. *)
Inductive Parsed :=
| parsedPrimitive
| parsedObject (type timestamp : option string) (sessionId : option string)
               (data : option Payload.t) (message error : option string).

(** The payload of a message event: not a non-empty string; a string
    on which the [try] block throws the error of the given text, because
    [JSON.parse] refuses it or returns [null], of which the logging
    reads a field; or a string that parses. *)
Inductive EventData :=
| notAString
| malformed (errorText : string)
| parses (value : Parsed).

Definition syntheticError (nowISO errorText : string) : WebSocketMessage.t :=
  {| WebSocketMessage.type := "error";
     WebSocketMessage.sessionId := None;
     WebSocketMessage.timestamp := nowISO;
     WebSocketMessage.data := None;
     WebSocketMessage.message := Some "Failed to parse WebSocket message";
     WebSocketMessage.error := Some errorText |}.

(** The [catch] hands a synthetic error message to the handlers.  It
    would also catch an exception of [handleMessage], which has none. *)
Definition onmessage (payload : EventData) (nowISO : string) (st : t) : t * bool :=
  match payload with
  | notAString => (st, false)
  | malformed errorText => handleMessage (syntheticError nowISO errorText) st
  | parses parsedPrimitive => (st, false)
  | parses (parsedObject type timestamp sid data message error) =>
      match type, timestamp with
      | Some type, Some timestamp =>
          if is_empty type || is_empty timestamp then (st, false)
          else handleMessage
                 {| WebSocketMessage.type := type;
                    WebSocketMessage.sessionId := sid;
                    WebSocketMessage.timestamp := timestamp;
                    WebSocketMessage.data := data;
                    WebSocketMessage.message := message;
                    WebSocketMessage.error := error |} st
      | _, _ => (st, false)
      end
  end.

(** *** [startInvestigation] and [stopInvestigation] *)

(** [stamp] stands for the time and the random digits of the session
    id.  The description is not part of the request. *)
Definition startInvestigation (company bill description stamp : string) (st : t)
  : t * nat :=
  let (st, p) := newPromise st in
  if negb (isConnected st) then (reject p "WebSocket not connected" st, p)
  else
    let sid := "session_" +++ stamp in
    let st := set_sessionId (Some sid) st in
    let st := onMessage "start_handler" (handleStart p) st in
    let st := set_sent (sent st ++ [start_investigation sid company bill]) st in
    (setTimeout (startTimeout p) 30000%N st, p).

Definition stopInvestigation (st : t) : t * nat :=
  let (st, p) := newPromise st in
  if negb (isConnected st) then (reject p "WebSocket not connected" st, p)
  else
    match sessionId st with
    | Some sid =>
        if is_empty sid then (reject p "No active investigation" st, p)
        else
          let st := onMessage "stop_handler" (handleStop p) st in
          let st := set_sent (sent st ++ [stop_investigation sid]) st in
          (setTimeout (stopTimeout p) 5000%N st, p)
    | None => (reject p "No active investigation" st, p)
    end.

(** *** Timers *)

Definition runTimer (a : TimerAction) (st : t) : t :=
  match a with
  | reconnect =>
      let st := set_reconnectAttempts (S (reconnectAttempts st)) st in
      fst (connect st)
  | startTimeout p =>
      let st := offMessage "start_handler" st in
      if truthy (sessionId st) && isConnected st
      then resolve p (sessionId st) st
      else reject p "Investigation start timeout - no server response" st
  | stopTimeout p =>
      let st := offMessage "stop_handler" st in
      reject p "Investigation stop timeout" st
  end.

(** The pending timer of index [i] is due. *)
Definition fireTimer (i : nat) (st : t) : t :=
  match nth_error (timers st) i with
  | Some tm => runTimer (action tm) (set_timers (remove_nth i (timers st)) st)
  | None => st
  end.

(** *** Runs of the service *)

Definition setReadyState (k : nat) (r : ReadyState) (st : t) : t :=
  set_sockets
    (update_nth k (fun s => {| readyState := r; connectPromise := connectPromise s |})
                (sockets st)) st.

(** What can happen to the service: the calls of its public methods,
    the events of its sockets and its timers falling due. *)
Inductive Action :=
| callConnect
| callDisconnect
| callOnMessage (id : string) (throws : WebSocketMessage.t -> bool)
| callOffMessage (id : string)
| callStartInvestigation (company bill description stamp : string)
| callStopInvestigation
| socketOpens (k : nat)
| socketCloses (k : nat)
| socketFails (k : nat)
| socketReceives (k : nat) (payload : EventData) (nowISO : string)
| timerFires (i : nat).

Definition step (st : t) (a : Action) : t :=
  match a with
  | callConnect => fst (connect st)
  | callDisconnect => disconnect st
  | callOnMessage id throws => onMessage id (subscriber throws) st
  | callOffMessage id => offMessage id st
  | callStartInvestigation company bill description stamp =>
      fst (startInvestigation company bill description stamp st)
  | callStopInvestigation => fst (stopInvestigation st)
  | socketOpens k => onopen k (setReadyState k OPEN st)
  | socketCloses k => onclose (setReadyState k CLOSED st)
  | socketFails k => onerror k st
  | socketReceives k payload nowISO => fst (onmessage payload nowISO st)
  | timerFires i => fireTimer i st
  end.

Definition run (st : t) (actions : list Action) : t := fold_left step actions st.

End WebSocketService.

(* ================================================================== *)
(** ** The session orchestrator (class RealTimeService) *)
(* ================================================================== *)

Module RealTimeService.
Import JS TableParser.

(** A callback of the rendering layer, by name. *)
Definition Callback : Type := nat.

(** The fields of the service and the calls made to callbacks so far,
    oldest first. *)
Record t := mk {
  websocketService : WebSocketService.t;
  sessionActive : bool;
  currentSessionId : option string;
  communicationCallback : option Callback;
  delivered : list (Callback * AgentCommunication.t)
}.

Definition set_websocketService v rt :=
  mk v (sessionActive rt) (currentSessionId rt) (communicationCallback rt) (delivered rt).
Definition set_sessionActive v rt :=
  mk (websocketService rt) v (currentSessionId rt) (communicationCallback rt) (delivered rt).
Definition set_currentSessionId v rt :=
  mk (websocketService rt) (sessionActive rt) v (communicationCallback rt) (delivered rt).
Definition set_communicationCallback v rt :=
  mk (websocketService rt) (sessionActive rt) (currentSessionId rt) v (delivered rt).
Definition set_delivered v rt :=
  mk (websocketService rt) (sessionActive rt) (currentSessionId rt) (communicationCallback rt) v.

(** The constructor registers the handler of the service, which catches
    whatever its body throws. *)
Definition initial : t :=
  mk (WebSocketService.onMessage "realtime_service"
        (WebSocketService.subscriber (fun _ => false)) WebSocketService.initial)
     false None None [].

(** [this.communicationCallback(communication)] *)
Definition callCallback (cb : Callback) (c : AgentCommunication.t) (rt : t) : t :=
  set_delivered (delivered rt ++ [(cb, c)]) rt.

(** Text of the source outside ASCII, by its UTF-8 bytes. *)
Definition utf8 (bytes : list nat) : string :=
  string_of_list_ascii (map ascii_of_nat bytes).

Definition capitolSign : string := utf8 [240; 159; 143; 155; 239; 184; 143].
Definition warningSign : string := utf8 [226; 154; 160; 239; 184; 143].
Definition noEntrySign : string := utf8 [240; 159; 154; 171].
Definition bullet : string := utf8 [226; 128; 162].
Definition dquote : string := utf8 [34].

(** [${x}] for a string that may be [undefined]. *)
Definition template (o : option string) : string :=
  match o with
  | Some s => s
  | None => "undefined"
  end.

(** *** From a wire message to a communication *)

Definition transformWebSocketToAgentCommunication (m : WebSocketMessage.t) (now : N)
  : option AgentCommunication.t :=
  if negb (String.eqb (WebSocketMessage.type m) "agent_communication") then None
  else
    match WebSocketMessage.data m with
    | None => None
    | Some data =>
        Some {|
          AgentCommunication.id :=
            or_default (Payload.id data) ("comm_" +++ string_of_N now);
          AgentCommunication.timestamp := WebSocketMessage.timestamp m;
          AgentCommunication.agent := or_default (Payload.agent data) "unknown";
          AgentCommunication.type := or_default (Payload.type data) "message";
          AgentCommunication.simplified :=
            or_default (Payload.simplified data)
              (or_default
                 (Some (match Payload.fullContent data with
                        | Some full => take 200 full
                        | None => "undefined"
                        end +++ "..."))
                 "Communication received");
          AgentCommunication.fullContent :=
            Some (or_default (Payload.fullContent data)
                    (or_default (Payload.simplified data) "No content available"));
          AgentCommunication.toolCalls :=
            Some (match Payload.toolCalls data with Some l => l | None => [] end);
          AgentCommunication.results :=
            Some (match Payload.results data with Some l => l | None => [] end);
          AgentCommunication.status := or_default (Payload.status data) "completed";
          AgentCommunication.tableData := None
        |}
    end.

(** *** The enrichment pass *)

(** [array.sort((a, b) => a.rank - b.rank)]: a stable sort, ascending. *)
Fixpoint insertByRank (m : CongressMember) (l : list CongressMember)
  : list CongressMember :=
  match l with
  | [] => [m]
  | x :: r => if (rank m <=? rank x)%N then m :: x :: r else x :: insertByRank m r
  end.

Fixpoint sortByRank (l : list CongressMember) : list CongressMember :=
  match l with
  | [] => []
  | m :: r => insertByRank m (sortByRank r)
  end.

(** The members that the digest shows. *)
Definition topMembers (parsedTable : ParsedTable) : list CongressMember :=
  firstn 10 (sortByRank (members parsedTable)).

Definition formatMember (member : CongressMember) : string :=
  let partyInfo := if truthy (party member)
                   then template (party member) +++ ", " else "" in
  let stateDistrict := if truthy (district member)
                       then state member +++ "-" +++ template (district member)
                       else state member in
  "**" +++ string_of_N (rank member) +++ ". " +++ name member +++ "** (" +++
  partyInfo +++ stateDistrict +++ ") - " +++ chamber member +++ nl +++
  take 200 (reason member) +++
  (if 200 <? String.length (reason member) then "..." else "") +++ nl +++ nl.

Definition formatHeading (parsedTable : ParsedTable) : string :=
  capitolSign +++ " **Congress Member Investigation Results**" +++ nl +++ nl +++
  (if truthy (billId parsedTable)
   then "**Bill:** " +++ template (billId parsedTable) +++ nl else "") +++
  "**Total Members Analyzed:** " +++ string_of_nat (totalMembers parsedTable) +++ nl +++
  "**Investigation Status:** " +++
  (if investigationComplete parsedTable then "Complete" else "In Progress") +++
  nl +++ nl +++
  "**Top 10 Most Involved Members:**" +++ nl +++ nl.

Definition formatFooter : string :=
  nl +++ "*Full table data available in investigation results.*".

Definition formatTableResults (parsedTable : ParsedTable) : string :=
  formatHeading parsedTable +++
  String.concat "" (map formatMember (topMembers parsedTable)) +++
  formatFooter.

(** [sort] works in place: after [formatTableResults] the [members] of
    the table that was passed are in rank order. *)
Definition sortedInPlace (parsedTable : ParsedTable) : ParsedTable :=
  {| members := sortByRank (members parsedTable);
     totalMembers := totalMembers parsedTable;
     investigationComplete := investigationComplete parsedTable;
     billId := billId parsedTable;
     hasDualTables := hasDualTables parsedTable;
     alignedMembers := alignedMembers parsedTable;
     opposedMembers := opposedMembers parsedTable |}.

Definition contentToCheck (communication : AgentCommunication.t) : string :=
  or_default (AgentCommunication.fullContent communication)
    (or_default (Some (AgentCommunication.simplified communication)) "").

(** The communication after [checkForTableContent], which changes it in
    place.  [tableData] is the parsed table itself, so that it shows
    the sort done by [formatTableResults]. *)
Definition checkForTableContent (communication : AgentCommunication.t)
  : AgentCommunication.t :=
  match parseCongressTable (contentToCheck communication) with
  | Some parsedTable =>
      if 0 <? List.length (members parsedTable) then
        {| AgentCommunication.id := AgentCommunication.id communication;
           AgentCommunication.timestamp := AgentCommunication.timestamp communication;
           AgentCommunication.agent := AgentCommunication.agent communication;
           AgentCommunication.type := "table_results";
           AgentCommunication.simplified :=
             "Congress Investigation Results - " +++
             string_of_nat (List.length (members parsedTable)) +++ " members analyzed";
           AgentCommunication.fullContent := Some (formatTableResults parsedTable);
           AgentCommunication.toolCalls := AgentCommunication.toolCalls communication;
           AgentCommunication.results := AgentCommunication.results communication;
           AgentCommunication.status := "completed";
           AgentCommunication.tableData := Some (sortedInPlace parsedTable) |}
      else communication
  | None => communication
  end.

(** *** The handlers of the wire message types *)

(** The debug hook [window.addCommunicationDebugEvent], when present,
    only records what it is shown; the model leaves it out. *)
Definition handleAgentCommunication (m : WebSocketMessage.t) (now : N) (rt : t) : t :=
  match transformWebSocketToAgentCommunication m now, communicationCallback rt with
  | Some communication, Some cb => callCallback cb (checkForTableContent communication) rt
  | _, _ => rt
  end.

Definition handleToolCallStart (m : WebSocketMessage.t) (now : N) (rt : t) : t :=
  match WebSocketMessage.data m, communicationCallback rt with
  | Some data, Some cb =>
      callCallback cb
        {| AgentCommunication.id :=
             "tool_start_" +++ or_default (Payload.id data) (string_of_N now);
           AgentCommunication.timestamp := WebSocketMessage.timestamp m;
           AgentCommunication.agent := or_default (Payload.agent data) "unknown";
           AgentCommunication.type := "tool_call";
           AgentCommunication.simplified :=
             "Executing tool: " +++ template (Payload.name data);
           AgentCommunication.fullContent :=
             Some ("Tool call started: " +++ template (Payload.name data) +++ nl +++
                   "Arguments: " +++ template (Payload.arguments data));
           AgentCommunication.toolCalls :=
             Some [ {| ToolCall.id := or_default (Payload.id data) "unknown";
                       ToolCall.name := or_default (Payload.name data) "unknown_tool";
                       ToolCall.arguments := or_default (Payload.arguments data) "{}" |} ];
           AgentCommunication.results := Some [];
           AgentCommunication.status := "in_progress";
           AgentCommunication.tableData := None |} rt
  | _, _ => rt
  end.

Definition toolResultContent (data : Payload.t) (summary : string) : string :=
  let details := Payload.details data in
  let key_findings :=
    match details with
    | Some d => match Details.key_findings d with Some l => l | None => [] end
    | None => []
    end in
  let data_points :=
    match details with Some d => Details.data_points d | None => None end in
  "Tool call result: " +++ template (Payload.name data) +++ nl +++
  "Status: " +++ (if Payload.success data then "Success" else "Failed") +++ nl +++
  "Summary: " +++ summary +++ nl +++ nl +++
  (if 0 <? List.length key_findings
   then "Key Findings:" +++ nl +++
        String.concat nl (map (fun f => bullet +++ " " +++ f) key_findings) +++ nl +++ nl
   else "") +++
  (if truthy data_points
   then "Data Points Found: " +++ template data_points +++ nl +++ nl else "") +++
  "Raw Result:" +++ nl +++ template (Payload.result data).

Definition handleToolCallResult (m : WebSocketMessage.t) (now : N) (rt : t) : t :=
  match WebSocketMessage.data m, communicationCallback rt with
  | Some data, Some cb =>
      let summary :=
        or_default (Payload.summary data)
          ("Tool " +++ template (Payload.name data) +++ " " +++
           (if Payload.success data then "completed" else "failed")) in
      callCallback cb
        {| AgentCommunication.id :=
             "tool_result_" +++ or_default (Payload.id data) (string_of_N now);
           AgentCommunication.timestamp := WebSocketMessage.timestamp m;
           AgentCommunication.agent := or_default (Payload.agent data) "unknown";
           AgentCommunication.type := "tool_call";
           AgentCommunication.simplified := summary;
           AgentCommunication.fullContent := Some (toolResultContent data summary);
           AgentCommunication.toolCalls := Some [];
           AgentCommunication.results :=
             Some [ {| ToolResult.call_id := or_default (Payload.id data) "unknown";
                       ToolResult.content := Payload.result data;
                       ToolResult.is_error := negb (Payload.success data) |} ];
           AgentCommunication.status :=
             if Payload.success data then "completed" else "failed";
           AgentCommunication.tableData := None |} rt
  | _, _ => rt
  end.

Definition orchestratorMessage (id timestamp simplified fullContent status : string)
  : AgentCommunication.t :=
  {| AgentCommunication.id := id;
     AgentCommunication.timestamp := timestamp;
     AgentCommunication.agent := "orchestrator";
     AgentCommunication.type := "message";
     AgentCommunication.simplified := simplified;
     AgentCommunication.fullContent := Some fullContent;
     AgentCommunication.toolCalls := Some [];
     AgentCommunication.results := Some [];
     AgentCommunication.status := status;
     AgentCommunication.tableData := None |}.

Definition completedStatusJSON : JSONText :=
  "{" +++ nl +++ "  " +++ dquote +++ "status" +++ dquote +++ ": " +++
  dquote +++ "completed" +++ dquote +++ nl +++ "}".

Definition handleInvestigationComplete (m : WebSocketMessage.t) (now : N) (rt : t) : t :=
  let rt := set_sessionActive false rt in
  match communicationCallback rt with
  | Some cb =>
      callCallback cb
        (orchestratorMessage
           ("final_" +++ string_of_N now)
           (WebSocketMessage.timestamp m)
           "Investigation completed successfully"
           (match WebSocketMessage.data m with
            | Some data => Payload.json data
            | None => completedStatusJSON
            end)
           "completed") rt
  | None => rt
  end.

Definition handleInvestigationConcluded (m : WebSocketMessage.t) (now : N) (rt : t) : t :=
  let rt := set_sessionActive false rt in
  match communicationCallback rt with
  | Some cb =>
      let data := WebSocketMessage.data m in
      let field {A : Type} (f : Payload.t -> option A) : option A :=
        match data with Some d => f d | None => None end in
      let table_available :=
        match data with Some d => Payload.table_available d | None => false end in
      let tableStatus := if table_available then "Table available" else "No table found" in
      let rt :=
        match table_available, field Payload.table_data with
        | true, Some table_data =>
            callCallback cb
              {| AgentCommunication.id := "final_table_" +++ string_of_N now;
                 AgentCommunication.timestamp := WebSocketMessage.timestamp m;
                 AgentCommunication.agent := "orchestrator";
                 AgentCommunication.type := "table_results";
                 AgentCommunication.simplified :=
                   "Investigation Results - " +++
                   string_of_nat (match TableData.members_length table_data with
                                  | Some n => n
                                  | None => 0
                                  end) +++ " members analyzed";
                 AgentCommunication.fullContent := Some (TableData.json table_data);
                 AgentCommunication.toolCalls := Some [];
                 AgentCommunication.results := Some [];
                 AgentCommunication.status := "completed";
                 AgentCommunication.tableData := None |} rt
        | _, _ => rt
        end in
      callCallback cb
        (orchestratorMessage
           ("conclusion_" +++ string_of_N now)
           (WebSocketMessage.timestamp m)
           ("Investigation concluded - " +++ tableStatus)
           (or_default (field Payload.conclusion_message)
              "Investigation completed successfully" +++ nl +++ nl +++
            "Table Status: " +++ or_default (field Payload.table_status) tableStatus +++ nl +++
            "Concluded by: " +++ or_default (field Payload.agent) "Unknown agent")
           "completed") rt
  | None => rt
  end.

Definition handleWebSocketError (m : WebSocketMessage.t) (now : N) (rt : t) : t :=
  match communicationCallback rt with
  | Some cb =>
      callCallback cb
        (orchestratorMessage
           ("ws_error_" +++ string_of_N now)
           (WebSocketMessage.timestamp m)
           "Connection error occurred"
           (warningSign +++ " **Connection Error**" +++ nl +++ nl +++
            "There was a problem with the connection to the investigation server." +++
            nl +++ nl +++
            "**Error:** " +++
            or_default (WebSocketMessage.message m) "Unknown connection error" +++
            nl +++ nl +++
            "**What you can do:**" +++ nl +++
            bullet +++ " Check your internet connection" +++ nl +++
            bullet +++ " Refresh the page to reconnect" +++ nl +++
            bullet +++ " Try again in a few moments")
           "failed") rt
  | None => rt
  end.

Definition rateLimitContent (errorMessage : string) : string :=
  noEntrySign +++ " **OpenAI API Rate Limit Exceeded**" +++ nl +++ nl +++
  "The OpenAI API is currently overloaded and cannot process your request at the moment." +++
  nl +++ nl +++
  "**What happened?**" +++ nl +++
  "Too many requests are being sent to OpenAI's servers right now." +++ nl +++ nl +++
  "**What you can do:**" +++ nl +++
  bullet +++ " Wait a few minutes and try again" +++ nl +++
  bullet +++ " The system will automatically retry failed requests" +++ nl +++
  bullet +++ " Consider trying again during off-peak hours" +++ nl +++ nl +++
  "**Technical details:**" +++ nl +++ errorMessage.

Definition handleInvestigationError (m : WebSocketMessage.t) (now : N) (rt : t) : t :=
  let rt := set_sessionActive false rt in
  match communicationCallback rt with
  | Some cb =>
      let errorMessage := or_default (WebSocketMessage.error m) "Unknown error occurred" in
      let isRateLimitError :=
        includes "429" errorMessage ||
        includes "Too Many Requests" errorMessage ||
        includes "rate limit" errorMessage ||
        includes "Retrying request" errorMessage in
      callCallback cb
        (orchestratorMessage
           ("error_" +++ string_of_N now)
           (WebSocketMessage.timestamp m)
           (if isRateLimitError then "OpenAI API is temporarily overloaded"
            else "Investigation encountered an error")
           (if isRateLimitError then rateLimitContent errorMessage
            else "Error: " +++ errorMessage)
           "failed") rt
  | None => rt
  end.

(** The handler registered with the transport.  The message has passed
    [validateWebSocketMessage], since its [type] and [timestamp] are
    strings.  No handler of the model throws, so the [catch] that emits
    the critical error communication is not entered. *)
Definition handleWebSocketMessage (m : WebSocketMessage.t) (now : N) (rt : t) : t :=
  let type := WebSocketMessage.type m in
  if String.eqb type "agent_communication" then handleAgentCommunication m now rt
  else if String.eqb type "tool_call_start" then handleToolCallStart m now rt
  else if String.eqb type "tool_call_result" then handleToolCallResult m now rt
  else if String.eqb type "investigation_complete" then handleInvestigationComplete m now rt
  else if String.eqb type "investigation_concluded" then handleInvestigationConcluded m now rt
  else if String.eqb type "investigation_error" then handleInvestigationError m now rt
  else if String.eqb type "connection_established" then rt
  else if String.eqb type "error" then handleWebSocketError m now rt
  else rt.

(** *** Sessions *)

(** Where a call of an [async] method stands: it has thrown, it has
    returned, or it waits for a promise of the transport. *)
Inductive Async :=
| thrown (reason : string)
| returned
| awaits (promise : nat).

Definition connectFailure : string :=
  "Unable to connect to AutoGen server. Please ensure the server is running.".

(** [startSession] once the transport is connected: the callback is
    registered and the start request goes out. *)
Definition startSessionConnected (company bill : string) (callback : Callback)
  (stamp : string) (rt : t) : t * Async :=
  let rt := set_communicationCallback (Some callback) rt in
  let (ws, p) :=
    WebSocketService.startInvestigation company bill
      ("Investigation of " +++ company +++ " lobbying activities for bill " +++ bill)
      stamp (websocketService rt) in
  (set_websocketService ws rt, awaits p).

(** [startSession] up to its first [await]. *)
Definition startSession (company bill : string) (callback : Callback)
  (stamp : string) (rt : t) : t * Async :=
  if sessionActive rt then (rt, thrown "Investigation session is already active")
  else if negb (WebSocketService.isConnected (websocketService rt)) then
    let (ws, p) := WebSocketService.connect (websocketService rt) in
    (set_websocketService ws rt, awaits p)
  else startSessionConnected company bill callback stamp rt.

(** [startSession] after [await this.connect()], with the promise of
    the transport settled. *)
Definition startSessionAfterConnect (company bill : string) (callback : Callback)
  (stamp : string) (p : nat) (rt : t) : t * Async :=
  match WebSocketService.promiseState p (websocketService rt) with
  | WebSocketService.Pending => (rt, awaits p)
  | WebSocketService.Rejected _ => (rt, thrown connectFailure)
  | WebSocketService.Resolved _ => startSessionConnected company bill callback stamp rt
  end.


(** [stopSession] up to its [await], and after it. *)
Definition stopSession (rt : t) : t * Async :=
  if negb (sessionActive rt) then (rt, returned)
  else
    let (ws, p) := WebSocketService.stopInvestigation (websocketService rt) in
    (set_websocketService ws rt, awaits p).

Definition stopSessionAfterStop (p : nat) (rt : t) : t * Async :=
  match WebSocketService.promiseState p (websocketService rt) with
  | WebSocketService.Pending => (rt, awaits p)
  | _ =>
      (set_communicationCallback None
         (set_currentSessionId None (set_sessionActive false rt)), returned)
  end.

Definition disconnect (rt : t) : t :=
  set_currentSessionId None
    (set_sessionActive false
       (set_websocketService (WebSocketService.disconnect (websocketService rt)) rt)).

Definition isSessionActive (rt : t) : bool := sessionActive rt.
Definition getCurrentSessionId (rt : t) : option string := currentSessionId rt.
Definition isConnected (rt : t) : bool :=
  WebSocketService.isConnected (websocketService rt).

End RealTimeService.

(* ================================================================== *)
(** ** Safe operations (module safe-operations) *)
(* ================================================================== *)

Module SafeOperations.
Import JS.

(** [array.slice(-n)]: the last [n] elements; [slice(-0)] is [slice(0)],
    the whole array. *)
Definition sliceLast {A : Type} (n : nat) (array : list A) : list A :=
  match n with
  | O => array
  | S _ => skipn (List.length array - n) array
  end.

Definition limitArraySize {A : Type} (array : list A) (maxSize : nat) : list A :=
  if List.length array <=? maxSize then array else sliceLast maxSize array.

(** The rate limiter: its three settings and its three fields.  The
    times are those of [Date.now()], in milliseconds. *)
Record RateLimiter := {
  maxCalls : Z;
  windowMs : Z;
  cooldownMs : Z;
  lastCall : Z;
  callCount : Z;
  resetTime : Z
}.

Definition newRateLimiter (maxCalls windowMs cooldownMs : Z) : RateLimiter :=
  {| maxCalls := maxCalls; windowMs := windowMs; cooldownMs := cooldownMs;
     lastCall := 0; callCount := 0; resetTime := 0 |}.

(** [canMakeCall()] at time [now]: the limiter, whose window may have
    been reset, and the answer. *)
Definition canMakeCall (now : Z) (rl : RateLimiter) : RateLimiter * bool :=
  let rl :=
    if (windowMs rl <? now - resetTime rl)%Z
    then {| maxCalls := maxCalls rl; windowMs := windowMs rl; cooldownMs := cooldownMs rl;
            lastCall := lastCall rl; callCount := 0; resetTime := now |}
    else rl in
  if (maxCalls rl <=? callCount rl)%Z then (rl, false)
  else if (now - lastCall rl <? cooldownMs rl)%Z then (rl, false)
  else (rl, true).

Definition recordCall (now : Z) (rl : RateLimiter) : RateLimiter :=
  {| maxCalls := maxCalls rl; windowMs := windowMs rl; cooldownMs := cooldownMs rl;
     lastCall := now; callCount := (callCount rl + 1)%Z; resetTime := resetTime rl |}.

Definition getRemainingCalls (rl : RateLimiter) : Z :=
  Z.max 0 (maxCalls rl - callCount rl).

Definition getTimeUntilReset (now : Z) (rl : RateLimiter) : Z :=
  Z.max 0 (windowMs rl - (now - resetTime rl)).

(** A caller that asks [canMakeCall()] before each call and records
    the calls it is allowed to make: the limiter and the times of the
    calls made, the newest first. *)
Definition attempt (s : RateLimiter * list Z) (now : Z) : RateLimiter * list Z :=
  let (rl, made) := s in
  let (rl, allowed) := canMakeCall now rl in
  if allowed then (recordCall now rl, now :: made) else (rl, made).

Definition attempts (times : list Z) (rl : RateLimiter) : RateLimiter * list Z :=
  fold_left attempt times (rl, []).

(** Consecutive times of a list, the newest first, are [gap] apart. *)
Fixpoint spaced (gap : Z) (made : list Z) : Prop :=
  match made with
  | later :: ((earlier :: _) as rest) => (gap <= later - earlier)%Z /\ spaced gap rest
  | _ => True
  end.

(** What holds of the limiter of such a caller and of the calls made. *)
Definition limited (max gap : Z) (s : RateLimiter * list Z) : Prop :=
  let (rl, made) := s in
  maxCalls rl = max /\ cooldownMs rl = gap /\
  (0 <= callCount rl <= Z.max 0 max)%Z /\
  spaced gap made /\
  match made with
  | [] => True
  | newest :: _ => lastCall rl = newest
  end.

Inductive ErrorKind :=
| rate_limit | network | authentication | validation | server | unknown.

Record Classification := {
  kind : ErrorKind;
  isRetryable : bool;
  userMessage : string;
  technicalMessage : string
}.

(** [classifyError(error)], on the text of [error?.message || error || '']. *)
Definition classifyError (text : string) : Classification :=
  let errorString := toLowerCase text in
  if includes "429" errorString || includes "too many requests" errorString ||
     includes "rate limit" errorString then
    {| kind := rate_limit; isRetryable := true;
       userMessage :=
         "The service is temporarily overloaded. Please wait a moment and try again.";
       technicalMessage := "Rate limit exceeded (429)" |}
  else if includes "network" errorString || includes "connection" errorString ||
          includes "timeout" errorString then
    {| kind := network; isRetryable := true;
       userMessage := "Connection problem. Please check your internet and try again.";
       technicalMessage := "Network connectivity issue" |}
  else if includes "401" errorString || includes "unauthorized" errorString ||
          includes "authentication" errorString then
    {| kind := authentication; isRetryable := false;
       userMessage := "Authentication required. Please refresh the page.";
       technicalMessage := "Authentication failure" |}
  else if includes "400" errorString || includes "validation" errorString ||
          includes "invalid" errorString then
    {| kind := validation; isRetryable := false;
       userMessage := "Invalid request. Please check your input and try again.";
       technicalMessage := "Request validation failed" |}
  else if includes "500" errorString || includes "server error" errorString ||
          includes "internal" errorString then
    {| kind := server; isRetryable := true;
       userMessage := "Server error occurred. Please try again in a few moments.";
       technicalMessage := "Internal server error" |}
  else
    {| kind := unknown; isRetryable := false;
       userMessage :=
         "An unexpected error occurred. Please refresh the page if the problem persists.";
       technicalMessage := if is_empty errorString then "Unknown error" else errorString |}.

End SafeOperations.

(* ================================================================== *)
(** ** The global error handler (class GlobalErrorHandler) *)
(* ================================================================== *)

Module GlobalErrorHandler.
Import JS.

Inductive ReportType := unhandled_rejection | uncaught_error | resource_error.

Record ErrorReport := {
  timestamp : string;
  type : ReportType;
  message : string;
  stack : option string;
  url : option string;
  line : option N;
  column : option N;
  userAgent : string
}.

(** The queue and the custom handler of the class, of which the model
    sees whether it throws, followed by what the model keeps of the
    surroundings: the reports passed to the custom handler and the
    texts of the toasts shown. *)
Record t := mk {
  errorQueue : list ErrorReport;
  onError : option (ErrorReport -> bool);
  passed : list ErrorReport;
  toasts : list string
}.

Definition maxErrors : nat := 100.

Definition initial : t := mk [] None [] [].

Definition createErrorReport (now userAgent : string) (type : ReportType)
  (message : option string) (stack url : option string) (line column : option N)
  : ErrorReport :=
  {| timestamp := now; type := type;
     message := or_default message "Unknown error";
     stack := stack; url := url; line := line; column := column;
     userAgent := userAgent |}.

Definition warningSign : string :=
  string_of_list_ascii (map ascii_of_nat [226; 154; 160; 239; 184; 143]).
Definition plugSign : string :=
  string_of_list_ascii (map ascii_of_nat [240; 159; 148; 140]).
Definition lensSign : string :=
  string_of_list_ascii (map ascii_of_nat [240; 159; 148; 141]).

Definition overloadedText : string :=
  warningSign +++ " Service temporarily overloaded. Please wait a moment and try again.".
Definition connectionLostText : string :=
  plugSign +++ " Connection lost. Attempting to reconnect...".
Definition investigationIssueText : string :=
  lensSign +++
  " Investigation encountered an issue. You can try starting a new investigation.".
Definition unexpectedText : string :=
  warningSign +++ " An unexpected error occurred. The page may need to be refreshed.".

Definition getUserFriendlyMessage (error : ErrorReport) : string :=
  let message := toLowerCase (message error) in
  if includes "429" message || includes "rate limit" message then overloadedText
  else if includes "websocket" message || includes "connection" message
  then connectionLostText
  else if includes "investigation" message then investigationIssueText
  else unexpectedText.

(** The test of [showUserNotification]. *)
Definition notifies (error : ErrorReport) : bool :=
  match type error with
  | unhandled_rejection =>
      includes "429" (message error) || includes "rate limit" (message error) ||
      includes "WebSocket" (message error) || includes "investigation" (message error)
  | _ => false
  end.

Definition showUserNotification (error : ErrorReport) (st : t) : t :=
  if notifies error
  then mk (errorQueue st) (onError st) (passed st)
          (toasts st ++ [getUserFriendlyMessage error])
  else st.

(** [handleError]: the report joins the queue, whose oldest entry
    leaves when there are more than [maxErrors]; the custom handler is
    called inside a [try]; the notification follows. *)
Definition handleError (error : ErrorReport) (st : t) : t :=
  let queue := errorQueue st ++ [error] in
  let queue := if maxErrors <? List.length queue then tl queue else queue in
  let st := mk queue (onError st)
               (match onError st with Some _ => passed st ++ [error] | None => passed st end)
               (toasts st) in
  showUserNotification error st.

Definition setErrorHandler (handler : ErrorReport -> bool) (st : t) : t :=
  mk (errorQueue st) (Some handler) (passed st) (toasts st).

Definition getRecentErrors (count : nat) (st : t) : list ErrorReport :=
  SafeOperations.sliceLast count (errorQueue st).

Definition clearErrors (st : t) : t :=
  mk [] (onError st) (passed st) (toasts st).

(** The reports of a list handled one after the other. *)
Definition handleErrors (errors : list ErrorReport) (st : t) : t :=
  fold_left (fun st error => handleError error st) errors st.

(** The texts of the toasts of [getUserFriendlyMessage] that name a
    cause. *)
Definition namesCause (toast : string) : Prop :=
  toast = overloadedText \/ toast = connectionLostText \/ toast = investigationIssueText.




End GlobalErrorHandler.

(* ================================================================== *)
(** ** The message logger (class MessageLogger) *)
(* ================================================================== *)

Module MessageLogger.

Inductive Direction := incoming | outgoing.

(** A log entry; [data] is the deep clone of what was logged. *)
Record Entry := { timestamp : string; direction : Direction; data : JSONText }.

Definition maxLogs : nat := 1000.

(** [addLog]: the state is the array [logs]. *)
Definition addLog (now : string) (direction : Direction) (data : JSONText)
  (logs : list Entry) : list Entry :=
  let logs := logs ++ [{| timestamp := now; direction := direction; data := data |}] in
  if maxLogs <? List.length logs then SafeOperations.sliceLast maxLogs logs else logs.

(** The entries of a list logged one after the other. *)
Definition addLogs (entries : list Entry) (logs : list Entry) : list Entry :=
  fold_left (fun logs e => addLog (timestamp e) (direction e) (data e) logs) entries logs.

Definition logIncoming (now : string) (data : JSONText) (logs : list Entry) : list Entry :=
  addLog now incoming data logs.

Definition logOutgoing (now : string) (data : JSONText) (logs : list Entry) : list Entry :=
  addLog now outgoing data logs.

Definition getLogs (logs : list Entry) : list Entry := logs.

Definition clearLogs (logs : list Entry) : list Entry := [].

End MessageLogger.

(* ================================================================== *)
(** ** The timeline of the dashboard (component AgentInvestigationDashboard) *)
(* ================================================================== *)

Module Dashboard.
Import JS.

Definition idOf (c : AgentCommunication.t) : string := AgentCommunication.id c.

(** [array.findIndex(c => c.id === id)] *)
Fixpoint findIndex (id : string) (l : list AgentCommunication.t) : option nat :=
  match l with
  | [] => None
  | c :: r =>
      if String.eqb (idOf c) id then Some 0
      else option_map S (findIndex id r)
  end.

(** [newComms[i] = communication] on a copy, [i] being an index of the
    array. *)
Fixpoint replaceAt (i : nat) (communication : AgentCommunication.t)
  (l : list AgentCommunication.t) : list AgentCommunication.t :=
  match l, i with
  | [], _ => []
  | _ :: r, O => communication :: r
  | c :: r, S k => c :: replaceAt k communication r
  end.

(** The state update that the callback given to [startSession] makes
    for a communication: the starting notice goes, a communication of
    the same id is replaced, a new one is added at the end, and the
    array is limited to 500 entries. *)
Definition updateCommunications (prev : list AgentCommunication.t)
  (communication : AgentCommunication.t) : list AgentCommunication.t :=
  if is_empty (idOf communication) then prev
  else
    let filteredPrev := filter (fun c => negb (startsWith "starting_" (idOf c))) prev in
    match findIndex (idOf communication) filteredPrev with
    | Some existingIndex =>
        SafeOperations.limitArraySize (replaceAt existingIndex communication filteredPrev) 500
    | None =>
        SafeOperations.limitArraySize (filteredPrev ++ [communication]) 500
    end.

(** The ids of a timeline. *)
Definition ids (l : list AgentCommunication.t) : list string := map idOf l.

(** The test with which the dashboard shows a failed start as a
    connection failure, on the text of the error and the answer of
    [isConnected()]. *)
Definition showsConnectionFailure (text : string) (connected : bool) : bool :=
  let errorMessage := toLowerCase text in
  includes "not connected" errorMessage ||
  includes "connection" errorMessage ||
  includes "server" errorMessage ||
  negb connected.

End Dashboard.

(* ================================================================== *)
(** ** Shapes of texts, for the statements about the parser *)
(* ================================================================== *)

Module TableShapes.
Import JS TableParser.

Definition no_newline (s : string) : bool :=
  all_chars (fun a => negb (char_eqb a LF)) s.

(** After [k] header lines the loop has closed [k] tables, or [k - 1]
    with one more still open and not empty. *)
Definition extractInv (k : nat) (st : ExtractState) : Prop :=
  if inTable st
  then currentTableLines st <> [] /\ List.length (tablesFound st) + 1 = k
  else currentTableLines st = [] /\ List.length (tablesFound st) = k.

(** The test with which [extractTableSection] sets [tableStart]. *)
Definition opensTable (line : string) : bool :=
  includes "Congress Member" (trim line) && includes "|" (trim line).

(** A line that [parseTableRow] accepts and that neither restarts nor
    ends the table of [extractTableSection]: five non-empty cells, a
    digit in the fourth, none of the reserved phrases. *)
Definition validDataRow (line : string) : bool :=
  let t := trim line in
  match rowCells t with
  | _ :: _ :: _ :: rankCell :: _ :: _ => exists_char is_digit rankCell
  | _ => false
  end
  && negb (includes "Congress Member" t)
  && negb (includes "interpretive notes" (toLowerCase t))
  && negb (includes "conclusion" (toLowerCase t)).

Definition separatorLine (line : string) : bool :=
  matchesSeparatorRow (trim line).

(** A line that ends the table of [extractTableSection]. *)
Definition terminatorLine (line : string) : bool :=
  endsTable (trim line) && negb (opensTable line) && negb (separatorLine line).

Definition bodyLine (line : string) : bool :=
  validDataRow line || separatorLine line.

(** What follows the table: nothing, or a terminator and any text. *)
Definition closesTable (post : list string) : bool :=
  match post with
  | [] => true
  | b :: _ => terminatorLine b
  end.

End TableShapes.

(* ================================================================== *)
(** ** Measures and invariants of the transport *)
(* ================================================================== *)

Module TransportInvariants.
Import JS WebSocketService.

Definition isReconnect (tm : Timer) : bool :=
  match action tm with reconnect => true | _ => false end.

(** Number of reconnects that are scheduled and not yet done. *)
Definition pendingReconnects (st : t) : nat :=
  List.length (filter isReconnect (timers st)).

(** The counter, the flag and the timers. *)
Definition reconnection (st : t) : nat * bool * list Timer :=
  (reconnectAttempts st, isManualClose st, timers st).



(** The action calls [connect]: from outside, or from a reconnect timer
    that falls due. *)
Definition callsConnect (st : t) (a : Action) : bool :=
  match a with
  | callConnect => true
  | timerFires i =>
      match nth_error (timers st) i with
      | Some tm => isReconnect tm
      | None => false
      end
  | _ => false
  end.


(** Number of reconnects done in a run. *)
Fixpoint reconnectsDone (st : t) (actions : list Action) : nat :=
  match actions with
  | [] => 0
  | a :: rest =>
      (match a with
       | timerFires _ => if callsConnect st a then 1 else 0
       | _ => 0
       end) + reconnectsDone (step st a) rest
  end.

(** The two closures of the service are registered under the ids that
    they delete, for promises that exist. *)
Definition closureInPlace (st : t) (e : string * Handler) : Prop :=
  match snd e with
  | handleStart p => fst e = "start_handler" /\ p < List.length (promises st)
  | handleStop p => fst e = "stop_handler" /\ p < List.length (promises st)
  | subscriber _ => True
  end.

Definition closuresInPlace (st : t) : Prop :=
  forall e, In e (messageHandlers st) -> closureInPlace st e.

(** Handlers and promises of two states: the second has no handler that
    the first has not, and as many promises. *)
Definition shrinks (st st' : t) : Prop :=
  (forall e, In e (messageHandlers st') -> In e (messageHandlers st)) /\
  List.length (promises st') = List.length (promises st).

(** The id that a handler may delete: its own when it is a subscriber
    that throws, the id of its closure otherwise. *)
Definition deletedBy (id : string) (h : Handler) : string :=
  match h with
  | handleStart _ => "start_handler"
  | handleStop _ => "stop_handler"
  | subscriber _ => id
  end.

(** The service waits for the start of the investigation [sid]: the
    closure for promise [p] is registered, the promise is pending and
    the session id is the one of the request. *)
Definition awaitingStart (p : nat) (sid : string) (st : t) : Prop :=
  closuresInPlace st /\
  lookup "start_handler" (messageHandlers st) = Some (handleStart p) /\
  sessionId st = Some sid /\
  promiseState p st = Pending /\
  (forall q, lookup "stop_handler" (messageHandlers st) = Some (handleStop q) -> q <> p).

(** A message on which neither closure acts. *)
Definition ignoredByStart (sid : string) (m : WebSocketMessage.t) : bool :=
  negb (startConfirmation (WebSocketMessage.type m) &&
        sameSession (WebSocketMessage.sessionId m) (Some sid)) &&
  negb (String.eqb (WebSocketMessage.type m) "investigation_error") &&
  negb (String.eqb (WebSocketMessage.type m) "error") &&
  negb (String.eqb (WebSocketMessage.type m) "investigation_stopped").

End TransportInvariants.

(* ================================================================== *)
(** ** Shapes of the parsed members *)
(* ================================================================== *)

Module MemberShapes.
Import JS TableParser.

Definition partyName (p : option string) : Prop :=
  p = None \/ p = Some "Republican" \/ p = Some "Democrat" \/ p = Some "Independent".

(** A state with a district: two capital letters and a number. *)
Definition stateAndDistrict (m : CongressMember) : Prop :=
  match district m with
  | Some d =>
      is_empty d = false /\ all_chars is_digit d = true /\
      String.length (state m) = 2 /\ all_chars is_upper (state m) = true
  | None => True
  end.

(** The text of the State/District column that the digest of the
    orchestrator prints for a state and a district. *)
Definition stateDistrictText (info : string * option string) : string :=
  if truthy (snd info) then fst info +++ "-" +++ RealTimeService.template (snd info)
  else fst info.

(** The two groups of a table in dual mode make up its members; a
    table in single mode has no groups. *)
Definition groupsMakeUp (t : ParsedTable) : Prop :=
  match hasDualTables t with
  | Some true =>
      exists aligned opposed,
        alignedMembers t = Some aligned /\ opposedMembers t = Some opposed /\
        members t = aligned ++ opposed
  | Some false => alignedMembers t = None /\ opposedMembers t = None
  | None => False
  end.

Definition billLetter (c : ascii) : bool :=
  char_eqb (lower_char c) "s"%char || char_eqb (lower_char c) "h"%char.

(** A parsed member of the House. *)
Definition representative : CongressMember :=
  {| name := "Jamie Raskin";
     chamber := "House";
     party := Some "Democrat";
     state := "MD";
     district := Some "08";
     rank := 3%N;
     reason := "Sponsored the related amendment" |}.

End MemberShapes.

(* ================================================================== *)
(** ** States of the transport while a stop is asked for *)
(* ================================================================== *)

Module SessionInvariants.
Import JS WebSocketService TransportInvariants.

(** The service waits for the stop of the investigation [sid]: the
    closure for promise [p] is registered, the promise is pending and
    the session id is the one of the request. *)
Definition awaitingStop (p : nat) (sid : string) (st : t) : Prop :=
  closuresInPlace st /\
  lookup "stop_handler" (messageHandlers st) = Some (handleStop p) /\
  sessionId st = Some sid /\
  promiseState p st = Pending /\
  (forall q, lookup "start_handler" (messageHandlers st) = Some (handleStart q) -> q <> p).

(** A message on which the stop closure does not act. *)
Definition ignoredByStop (sid : string) (m : WebSocketMessage.t) : bool :=
  negb (String.eqb (WebSocketMessage.type m) "investigation_stopped" &&
        sameSession (WebSocketMessage.sessionId m) (Some sid)) &&
  negb (String.eqb (WebSocketMessage.type m) "error").

(** The ids of the registry, in the order of the [Map]. *)
Definition registered (st : t) : list string := map fst (messageHandlers st).

End SessionInvariants.

(* ================================================================== *)
(** ** The orchestrator with its transport *)
(* ================================================================== *)

Module SessionFlow.
Import JS RealTimeService.




End SessionFlow.

(* ================================================================== *)
(** ** Measures of the orchestrator *)
(* ================================================================== *)

Module OrchestratorInvariants.
Import JS TableParser RealTimeService.

Definition rankLe (a b : CongressMember) : Prop := (rank a <= rank b)%N.

(** The communications that a handler hands over, beside those handed
    over before, and a property of each of them. *)
Definition hands (P : AgentCommunication.t -> Prop) (rt rt' : t) : Prop :=
  exists new,
    delivered rt' = delivered rt ++ new /\ Forall (fun e => P (snd e)) new.

Definition plain (c : AgentCommunication.t) : Prop :=
  AgentCommunication.tableData c = None.

End OrchestratorInvariants.

(* ================================================================== *)
(** ** Sample texts *)
(* ================================================================== *)

Module Samples.
Import JS.

Definition header : string :=
  "| Congress Member | Chamber | State/District | Involvement Rank | Reason |".

Definition lowerHeader : string :=
  "| congress member | chamber | state/district | involvement rank | reason |".

Definition separator : string := "|---|---|---|---|---|".

Definition rowManchin : string := "| Joe Manchin (D) | Senator | WV | 2 | Energy |".
Definition rowBarrasso : string := "| John Barrasso (R-WY) | Senator | WY | 1 | Chair |".
Definition rowRaskin : string := "| Jamie Raskin | Representative | MD-08 | Rank 3 | Judiciary |".

(** Some text, one table of three rows, a blank line and closing text. *)
Definition singleTable : list string :=
  [ "Results:"; header; separator; rowManchin; rowBarrasso; rowRaskin;
    ""; "Bill S. 383-116 TERMINATE" ].

(** Two tables of one row each, separated by a blank line. *)
Definition dualTable : string :=
  unlines [ header; separator; rowManchin; ""; header; separator; rowBarrasso ].

(** Two header lines and no data row. *)
Definition twoHeaders : string := unlines [ header; header ].

(** One header line and no data row. *)
Definition headerOnly : string := unlines [ header; separator ].

(** One lower-case header line and one data row. *)
Definition lowerCaseTable : string := unlines [ lowerHeader; separator; rowManchin ].

(** One table whose second row speaks of a conclusion. *)
Definition rowConclusion : string :=
  "| John Barrasso (R-WY) | Senator | WY | 1 | Reached conclusion on bill |".
Definition conclusionTable : string :=
  unlines [ header; separator; rowManchin; rowConclusion ].

(** One table under a header with a party column and no chamber. *)
Definition partyHeader : string :=
  "| Congress Member | Party | Involvement Rank | Vote | Note |".
Definition rowPlain : string := "| Jane Doe | D | yes | 1 | none |".
Definition partyTable : string := unlines [ partyHeader; rowPlain ].


End Samples.

(* ================================================================== *)
(** ** Sample runs of the transport *)
(* ================================================================== *)

Module TransportSamples.
Import WebSocketService.

(** The service after a first successful [connect]. *)
Definition connected : t := run initial [callConnect; socketOpens 0].

(** The reconnect that is due is made with socket [k], which fails. *)
Definition failedAttempt (k : nat) : list Action :=
  [timerFires 0; socketFails k; socketCloses k].

(** The same with a socket that opens and is lost later. *)
Definition goodAttempt (k : nat) : list Action :=
  [timerFires 0; socketOpens k; socketCloses k].

(** The connection is lost and five reconnects fail in a row. *)
Definition fiveFailures : list Action :=
  socketCloses 0 ::
  failedAttempt 1 ++ failedAttempt 2 ++ failedAttempt 3 ++
  failedAttempt 4 ++ failedAttempt 5.

(** Two failures, a success and three more failures. *)
Definition sixAttempts : list Action :=
  socketCloses 0 ::
  failedAttempt 1 ++ failedAttempt 2 ++ goodAttempt 3 ++
  failedAttempt 4 ++ failedAttempt 5 ++ failedAttempt 6.

(** Three subscribers, of which the second throws on every message. *)
Definition threeSubscribers : list Action :=
  [ callOnMessage "ui" (fun _ => false);
    callOnMessage "faulty" (fun _ => true);
    callOnMessage "logger" (fun _ => false) ].

Definition sampleMessage (type : string) (sid : option string) : WebSocketMessage.t :=
  {| WebSocketMessage.type := type;
     WebSocketMessage.sessionId := sid;
     WebSocketMessage.timestamp := "2025-01-01T00:00:00.000Z";
     WebSocketMessage.data := None;
     WebSocketMessage.message := None;
     WebSocketMessage.error := None |}.

(** The service after a call of [startInvestigation] on the open
    socket, to which the subscriber of the orchestrator listens. *)
Definition starting : t :=
  run initial
    [ callOnMessage "realtime_service" (fun _ => false);
      callConnect; socketOpens 0;
      callStartInvestigation "Acme" "S. 383-116" "Investigation" "17_k3x9" ].

Definition startedSession : string := "session_17_k3x9".

(** The investigation is confirmed, and its stop is asked for. *)
Definition started : t :=
  run starting
    [ socketReceives 0
        (parses (parsedObject (Some "investigation_started")
                   (Some "2025-01-01T00:00:01.000Z") (Some startedSession)
                   None None None))
        "2025-01-01T00:00:01.002Z" ].

Definition stopping : t := run started [callStopInvestigation].

End TransportSamples.

(* ================================================================== *)
(** ** Sample sessions *)
(* ================================================================== *)

Module SessionSamples.
Import JS RealTimeService.

(** A payload with the given text fields and nothing else. *)
Definition payload (name summary fullContent : option string) : Payload.t :=
  {| Payload.json := "{}";
     Payload.id := Some "42";
     Payload.agent := Some "orchestrator";
     Payload.type := None;
     Payload.simplified := None;
     Payload.fullContent := fullContent;
     Payload.toolCalls := None;
     Payload.results := None;
     Payload.status := None;
     Payload.name := name;
     Payload.arguments := None;
     Payload.summary := summary;
     Payload.success := true;
     Payload.details := None;
     Payload.result := Some "null";
     Payload.table_available := false;
     Payload.table_data := None;
     Payload.conclusion_message := None;
     Payload.table_status := None |}.

Definition message (type : string) (data : option Payload.t) : WebSocketMessage.t :=
  {| WebSocketMessage.type := type;
     WebSocketMessage.sessionId := Some "session_17_k3x9";
     WebSocketMessage.timestamp := "2025-01-01T00:00:00.000Z";
     WebSocketMessage.data := data;
     WebSocketMessage.message := None;
     WebSocketMessage.error := None |}.

Definition tableText : string := unlines Samples.singleTable.

(** An agent communication and a tool result that carry the same table. *)
Definition agentTable : WebSocketMessage.t :=
  message "agent_communication" (Some (payload None None (Some tableText))).

Definition toolResultTable : WebSocketMessage.t :=
  message "tool_call_result" (Some (payload (Some "get_members") (Some tableText) None)).

(** The service with callback 1 registered and no session active. *)
Definition listening : t := set_communicationCallback (Some 1) initial.


(** The service during the session of callback 1. *)
Definition activeSession : t :=
  set_sessionActive true (set_currentSessionId (Some "session_17_k3x9") listening).

End SessionSamples.

Module TimelineSamples.
Import Dashboard.

Definition entry (id simplified status : string) : AgentCommunication.t :=
  {| AgentCommunication.id := id;
     AgentCommunication.timestamp := "2025-01-01T00:00:00.000Z";
     AgentCommunication.agent := "orchestrator";
     AgentCommunication.type := "message";
     AgentCommunication.simplified := simplified;
     AgentCommunication.fullContent := None;
     AgentCommunication.toolCalls := None;
     AgentCommunication.results := None;
     AgentCommunication.status := status;
     AgentCommunication.tableData := None |}.

(** The timeline at the start, after one communication, and an update
    of that communication. *)
Definition atStart : list AgentCommunication.t :=
  [entry "starting_1700000000000" "Starting investigation..." "in_progress"].

Definition firstStep : AgentCommunication.t :=
  entry "tool_start_7" "Calling get_members" "in_progress".

Definition underWay : list AgentCommunication.t :=
  [firstStep; entry "42" "Looking at the committee" "completed"].

Definition firstStepDone : AgentCommunication.t :=
  entry "tool_start_7" "Calling get_members" "completed".

End TimelineSamples.

(* ================================================================== *)
(** ** Properties of the string primitives *)
(* ================================================================== *)

Module JSFacts.
Import JS TableShapes.

Lemma char_eqb_true (a b : ascii) : char_eqb a b = true <-> a = b.
Proof. unfold char_eqb. apply Ascii.eqb_eq. Qed.

(** *** [split] and [join] *)

Lemma split_no_sep (c : ascii) (s : string) :
  all_chars (fun a => negb (char_eqb a c)) s = true -> split c s = [s].
Proof.
  induction s as [|a r IH]; simpl; intro H; [reflexivity|].
  apply andb_true_iff in H as [Ha Hr].
  apply negb_true_iff in Ha. rewrite Ha, (IH Hr). reflexivity.
Qed.

Lemma split_append_sep (c : ascii) (s r : string) :
  all_chars (fun a => negb (char_eqb a c)) s = true ->
  split c (s +++ String c r) = s :: split c r.
Proof.
  induction s as [|a s' IH]; simpl; intro H.
  - unfold char_eqb. rewrite Ascii.eqb_refl. reflexivity.
  - apply andb_true_iff in H as [Ha Hr].
    apply negb_true_iff in Ha. rewrite Ha, (IH Hr). reflexivity.
Qed.

(** Splitting the join of newline-free lines gives the lines back. *)
Lemma lines_unlines (l : string) (ls : list string) :
  forallb no_newline (l :: ls) = true ->
  lines (unlines (l :: ls)) = l :: ls.
Proof.
  revert l. induction ls as [|l' ls IH]; intros l H.
  - simpl in *. apply andb_true_iff in H as [H _].
    unfold lines. now apply split_no_sep.
  - change (forallb no_newline (l :: l' :: ls))
      with (no_newline l && forallb no_newline (l' :: ls)) in H.
    apply andb_true_iff in H as [Hl H].
    unfold lines, unlines, join in *.
    change (concat nl (l :: l' :: ls))
      with (l +++ String LF (concat nl (l' :: ls))).
    rewrite split_append_sep by exact Hl.
    now rewrite IH.
Qed.

(** *** Character classes under [split] and [trim] *)

Lemma all_chars_split (p : ascii -> bool) (c : ascii) (s : string) :
  all_chars p s = true ->
  Forall (fun x => all_chars p x = true) (split c s).
Proof.
  induction s as [|a r IH]; simpl; intro H.
  - constructor; [reflexivity | constructor].
  - apply andb_true_iff in H as [Ha Hr]. specialize (IH Hr).
    destruct (char_eqb a c).
    + constructor; [reflexivity | exact IH].
    + destruct (split c r) as [|h t].
      * constructor; [simpl; now rewrite Ha | constructor].
      * inversion IH; subst. constructor; [simpl; now rewrite Ha | assumption].
Qed.

Lemma all_chars_trimStart (p : ascii -> bool) (s : string) :
  all_chars p s = true -> all_chars p (trimStart s) = true.
Proof.
  induction s as [|a r IH]; simpl; intro H; [reflexivity|].
  destruct (is_space a); [|exact H].
  apply andb_true_iff in H as [_ Hr]. now apply IH.
Qed.

Lemma all_chars_trimEnd (p : ascii -> bool) (s : string) :
  all_chars p s = true -> all_chars p (trimEnd s) = true.
Proof.
  induction s as [|a r IH]; simpl; intro H; [reflexivity|].
  apply andb_true_iff in H as [Ha Hr]. specialize (IH Hr).
  destruct (trimEnd r) as [|b r'].
  - destruct (is_space a); simpl; [reflexivity | now rewrite Ha].
  - change (all_chars p (String a (String b r')) = true).
    simpl in *. now rewrite Ha.
Qed.

Lemma all_chars_trim (p : ascii -> bool) (s : string) :
  all_chars p s = true -> all_chars p (trim s) = true.
Proof.
  intro H. unfold trim. now apply all_chars_trimEnd, all_chars_trimStart.
Qed.

Lemma all_exists_disjoint (p q : ascii -> bool) (s : string) :
  (forall c, p c = true -> q c = false) ->
  all_chars p s = true -> exists_char q s = false.
Proof.
  intros Hpq. induction s as [|a r IH]; simpl; intro H; [reflexivity|].
  apply andb_true_iff in H as [Ha Hr].
  now rewrite (Hpq a Ha), (IH Hr).
Qed.

Lemma startsWith_head (c : ascii) (p s : string) :
  startsWith (String c p) s = true ->
  exists r, s = String c r.
Proof.
  destruct s as [|b r]; simpl; [discriminate|].
  intro H. apply andb_true_iff in H as [H _].
  apply char_eqb_true in H. subst. now exists r.
Qed.

(** A string that includes a non-empty needle has the needle's first
    character. *)
Lemma includes_exists_char (c : ascii) (p s : string) :
  includes (String c p) s = true -> exists_char (char_eqb c) s = true.
Proof.
  induction s as [|b r IH]; intro H.
  - simpl in H. discriminate.
  - cbn [includes] in H. apply orb_true_iff in H as [H|H].
    + apply startsWith_head in H as [r' Hr]. inversion Hr; subst.
      simpl. unfold char_eqb. now rewrite Ascii.eqb_refl.
    + simpl. rewrite (IH H). apply orb_true_r.
Qed.

Lemma exists_char_includes (c : ascii) (s : string) :
  exists_char (fun a => char_eqb a c) s = true ->
  includes (String c EmptyString) s = true.
Proof.
  induction s as [|b r IH]; simpl; intro H; [discriminate|].
  apply orb_true_iff in H as [H|H].
  - apply char_eqb_true in H. subst. unfold char_eqb.
    now rewrite Ascii.eqb_refl.
  - rewrite (IH H). apply orb_true_r.
Qed.

Lemma split_singleton_or_sep (c : ascii) (s : string) :
  exists_char (fun a => char_eqb a c) s = false -> split c s = [s].
Proof.
  induction s as [|a r IH]; simpl; intro H; [reflexivity|].
  apply orb_false_iff in H as [Ha Hr].
  now rewrite Ha, (IH Hr).
Qed.

(** Two or more pieces mean that the separator occurs. *)
Lemma split_two_includes (c : ascii) (s : string) :
  2 <= List.length (split c s) -> includes (String c EmptyString) s = true.
Proof.
  intro H. apply exists_char_includes.
  destruct (exists_char (fun a => char_eqb a c) s) eqn:E; [reflexivity|].
  rewrite (split_singleton_or_sep _ _ E) in H. simpl in H. lia.
Qed.

Lemma exists_digit_run (s : string) :
  exists_char is_digit s = true ->
  take_while is_digit (drop_while (fun c => negb (is_digit c)) s) <> EmptyString.
Proof.
  induction s as [|a r IH]; simpl; intro H; [discriminate|].
  destruct (is_digit a) eqn:E; simpl.
  - rewrite E. discriminate.
  - apply IH. exact H.
Qed.


End JSFacts.

(* ================================================================== *)
(** ** Properties of the table parser *)
(* ================================================================== *)

Module TableParserFacts.
Import JS JSFacts TableParser TableShapes.

(** *** The extraction loop finds one table per header line *)

Lemma extractInv_init : extractInv 0 extractInit.
Proof. unfold extractInv; simpl. auto. Qed.

Lemma app_one_not_nil {A : Type} (l : list A) (x : A) : l ++ [x] <> [].
Proof. destruct l; discriminate. Qed.

Lemma extractStep_header (k : nat) (st : ExtractState) (line : string) :
  isTableHeader line = true ->
  extractInv k st -> extractInv (S k) (extractStep st line).
Proof.
  intros Hh Hinv. unfold extractStep. rewrite Hh.
  unfold extractInv in *. simpl.
  destruct (inTable st) eqn:Hin; simpl.
  - destruct Hinv as [Hne Hlen].
    destruct (currentTableLines st) as [|c cs] eqn:Hc; [contradiction|].
    simpl. split; [discriminate|].
    rewrite length_app. simpl. lia.
  - destruct Hinv as [Hnil Hlen]. rewrite Hnil. simpl.
    split; [discriminate | lia].
Qed.

Lemma extractInv_push (k : nat) (st : ExtractState) (line : string) :
  inTable st = true -> extractInv k st -> extractInv k (pushLine st line).
Proof.
  intros Hin Hinv. unfold extractInv in *. simpl. rewrite Hin in *.
  destruct Hinv as [_ Hlen]. split; [apply app_one_not_nil | exact Hlen].
Qed.

Lemma extractInv_flush (k : nat) (st : ExtractState) :
  inTable st = true -> extractInv k st -> extractInv k (flushTable st).
Proof.
  intros Hin Hinv. unfold extractInv in *. simpl. rewrite Hin in *.
  destruct Hinv as [_ Hlen]. split; [reflexivity|].
  rewrite length_app. simpl. exact Hlen.
Qed.

Lemma extractStep_other (k : nat) (st : ExtractState) (line : string) :
  isTableHeader line = false ->
  extractInv k st -> extractInv k (extractStep st line).
Proof.
  intros Hh Hinv. unfold extractStep. rewrite Hh.
  destruct (inTable st) eqn:Hin; [|exact Hinv].
  repeat match goal with
         | |- extractInv _ (if ?b then _ else _) => destruct b
         end;
    auto using extractInv_push, extractInv_flush.
Qed.

Lemma extractLoop_inv (ls : list string) :
  forall k st,
    extractInv k st ->
    extractInv (k + List.length (filter isTableHeader ls))
               (fold_left extractStep ls st).
Proof.
  induction ls as [|l ls IH]; intros k st Hinv; simpl.
  - now rewrite Nat.add_0_r.
  - destruct (isTableHeader l) eqn:Hh.
    + simpl. replace (k + S (List.length (filter isTableHeader ls)))
        with (S k + List.length (filter isTableHeader ls)) by lia.
      apply IH. now apply extractStep_header.
    + apply IH. now apply extractStep_other.
Qed.

(** The number of tables found is the number of header lines. *)
Lemma extractTables_length (content : string) :
  List.length (extractTables content) = tableHeaderCount content.
Proof.
  unfold extractTables, tableHeaderCount.
  pose proof (extractLoop_inv (lines content) 0 extractInit extractInv_init) as H.
  simpl in H. unfold extractInv in H.
  destruct (inTable (fold_left extractStep (lines content) extractInit)).
  - destruct H as [Hne Hlen].
    destruct (currentTableLines (fold_left extractStep (lines content) extractInit));
      [contradiction|].
    simpl. rewrite length_app. simpl. exact Hlen.
  - simpl. apply H.
Qed.

Lemma sectionRows_some (s : string) : sectionRows (Some s) = parseTableRows s.
Proof. destruct s; reflexivity. Qed.

Lemma length_zero_nil {A : Type} (l : list A) :
  (List.length l =? 0) = true <-> l = [].
Proof.
  destruct l; simpl; split; intro H; congruence.
Qed.

(** *** Where the members of a result come from *)


Lemma parseTableLines_In (m : CongressMember) (ls : list string) :
  In m (parseTableLines ls) ->
  exists line, In line ls /\ parseTableLine line = Some m.
Proof.
  induction ls as [|l ls IH]; simpl; [contradiction|].
  destruct (parseTableLine l) as [m'|] eqn:E.
  - intros [H|H].
    + subst. exists l. auto.
    + destruct (IH H) as [line [Hin Hl]]. exists line. auto.
  - intro H. destruct (IH H) as [line [Hin Hl]]. exists line. auto.
Qed.

Lemma sectionRows_In (m : CongressMember) (section : option string) :
  In m (sectionRows section) -> exists line, parseTableLine line = Some m.
Proof.
  destruct section as [s|]; [|contradiction].
  rewrite sectionRows_some. unfold parseTableRows. intro H.
  apply parseTableLines_In in H as [line [_ H]]. now exists line.
Qed.

Lemma parse_members_from_lines (content : string) (t : ParsedTable) (m : CongressMember) :
  parseCongressTable content = Some t -> In m (members t) ->
  exists line, parseTableLine line = Some m.
Proof.
  unfold parseCongressTable, parseOrchestratorTable.
  destruct (detectDualTables content).
  - unfold parseDualTables.
    destruct (List.length _ =? 0); [discriminate|].
    intro H. inversion H; subst; clear H. simpl.
    intro Hin. apply in_app_or in Hin as [Hin|Hin];
      now apply sectionRows_In in Hin.
  - unfold parseSingleTable.
    destruct (negb (detectTableInMessage content)); [discriminate|].
    destruct (extractTableSection content) as [sec|]; [|discriminate].
    destruct (is_empty sec); [discriminate|].
    destruct (List.length _ =? 0); [discriminate|].
    intro H. inversion H; subst; clear H. simpl.
    unfold parseTableRows. intro Hin.
    apply parseTableLines_In in Hin as [line [_ Hl]]. now exists line.
Qed.


Lemma parseTableLine_row (line : string) (m : CongressMember) :
  parseTableLine line = Some m -> parseTableRow (trim line) = Some m.
Proof.
  unfold parseTableLine. destruct (skipsLine (trim line)); [discriminate | auto].
Qed.



(** *** Data rows and separator rows of a single table *)

Lemma separator_class_not_digit (c : ascii) :
  separator_class c = true -> is_digit c = false.
Proof.
  destruct c as [[] [] [] [] [] [] [] []]; vm_compute; congruence.
Qed.

Lemma separator_class_not_C (c : ascii) :
  separator_class c = true -> char_eqb "C"%char c = false.
Proof.
  destruct c as [[] [] [] [] [] [] [] []]; vm_compute; congruence.
Qed.

Lemma matchesSeparatorRow_class (s : string) :
  matchesSeparatorRow s = true -> all_chars separator_class s = true.
Proof.
  destruct s as [|c r]; simpl; [discriminate|].
  intro H. repeat (apply andb_true_iff in H as [H ?]).
  apply char_eqb_true in H. subst c.
  apply andb_true_iff. split; [reflexivity | assumption].
Qed.

Lemma rowCells_class (p : ascii -> bool) (row : string) :
  all_chars p row = true ->
  Forall (fun cell => all_chars p cell = true) (rowCells row).
Proof.
  intro H. unfold rowCells.
  apply Forall_forall. intros cell Hin.
  apply filter_In in Hin as [Hin _].
  apply in_map_iff in Hin as [raw [Hraw Hin]]. subst cell.
  apply all_chars_trim.
  pose proof (all_chars_split p pipe row H) as Hall.
  rewrite Forall_forall in Hall. now apply Hall.
Qed.

Lemma rowCells_length (row : string) :
  List.length (rowCells row) <= List.length (split pipe row).
Proof.
  unfold rowCells.
  etransitivity; [apply filter_length_le|]. now rewrite length_map.
Qed.

Lemma separator_no_title (s : string) :
  matchesSeparatorRow s = true -> includes "Congress Member" s = false.
Proof.
  intro H. apply matchesSeparatorRow_class in H.
  destruct (includes "Congress Member" s) eqn:E; [|reflexivity].
  apply includes_exists_char in E.
  rewrite (all_exists_disjoint separator_class (char_eqb "C"%char) s
             separator_class_not_C H) in E.
  discriminate.
Qed.

Section ValidRow.
Variable line : string.
Hypothesis Hvalid : validDataRow line = true.

Lemma validDataRow_cells :
  exists c0 c1 c2 rankCell c4 rest,
    rowCells (trim line) = c0 :: c1 :: c2 :: rankCell :: c4 :: rest /\
    exists_char is_digit rankCell = true.
Proof.
  unfold validDataRow in Hvalid.
  repeat (apply andb_true_iff in Hvalid as [Hvalid ?]).
  destruct (rowCells (trim line)) as [|c0 [|c1 [|c2 [|c3 [|c4 rest]]]]];
    try discriminate.
  now exists c0, c1, c2, c3, c4, rest.
Qed.

Lemma validDataRow_no_title : includes "Congress Member" (trim line) = false.
Proof.
  unfold validDataRow in Hvalid.
  repeat (apply andb_true_iff in Hvalid as [Hvalid ?]).
  now apply negb_true_iff.
Qed.

Lemma validDataRow_not_separator : matchesSeparatorRow (trim line) = false.
Proof.
  destruct (matchesSeparatorRow (trim line)) eqn:E; [|reflexivity].
  destruct validDataRow_cells as (c0 & c1 & c2 & rk & c4 & rest & Hc & Hd).
  apply matchesSeparatorRow_class in E.
  pose proof (rowCells_class separator_class _ E) as Hall.
  rewrite Hc in Hall.
  do 3 (apply Forall_inv_tail in Hall). apply Forall_inv in Hall.
  rewrite (all_exists_disjoint separator_class is_digit rk
             separator_class_not_digit Hall) in Hd.
  discriminate.
Qed.

Lemma validDataRow_has_pipe : includes "|" (trim line) = true.
Proof.
  destruct validDataRow_cells as (c0 & c1 & c2 & rk & c4 & rest & Hc & _).
  apply (split_two_includes pipe).
  pose proof (rowCells_length (trim line)) as Hlen.
  rewrite Hc in Hlen. simpl in Hlen. lia.
Qed.

Lemma validDataRow_not_empty : is_empty (trim line) = false.
Proof.
  destruct validDataRow_cells as (c0 & c1 & c2 & rk & c4 & rest & Hc & _).
  destruct (trim line); [discriminate Hc | reflexivity].
Qed.

Lemma validDataRow_continues : endsTable (trim line) = false.
Proof.
  unfold endsTable.
  rewrite validDataRow_not_empty, validDataRow_has_pipe.
  unfold validDataRow in Hvalid.
  repeat (apply andb_true_iff in Hvalid as [Hvalid ?]).
  repeat match goal with
         | H : negb _ = true |- _ => apply negb_true_iff in H; rewrite H
         end.
  now rewrite andb_false_r.
Qed.

Lemma validDataRow_parses : exists m, parseTableLine line = Some m.
Proof.
  unfold parseTableLine, skipsLine.
  rewrite validDataRow_not_empty, validDataRow_no_title,
    validDataRow_not_separator. simpl.
  destruct validDataRow_cells as (c0 & c1 & c2 & rk & c4 & rest & Hc & Hd).
  unfold parseTableRow. rewrite Hc. unfold parseRank.
  pose proof (exists_digit_run rk Hd) as Hrun.
  fold (firstDigitRun rk) in Hrun.
  destruct (firstDigitRun rk); [contradiction|]. eauto.
Qed.

Lemma validDataRow_not_opening : opensTable line = false.
Proof. unfold opensTable. now rewrite validDataRow_no_title. Qed.

End ValidRow.

Lemma separatorLine_skipped (line : string) :
  separatorLine line = true -> parseTableLine line = None.
Proof.
  unfold separatorLine, parseTableLine, skipsLine. intro H. rewrite H.
  now rewrite !orb_true_r.
Qed.

Lemma separatorLine_not_opening (line : string) :
  separatorLine line = true -> opensTable line = false.
Proof.
  unfold separatorLine, opensTable. intro H.
  now rewrite (separator_no_title _ H).
Qed.

Lemma separator_not_valid (line : string) :
  separatorLine line = true -> validDataRow line = false.
Proof.
  intro H. destruct (validDataRow line) eqn:E; [|reflexivity].
  unfold separatorLine in H.
  rewrite (validDataRow_not_separator line E) in H. discriminate.
Qed.

(** *** The scan of [extractTableSection] over a well-formed table *)

Lemma scan_step_unfold (l : string) (rest : list string) (i : nat) (ts0 : option nat) :
  scanTableBounds (l :: rest) i ts0 =
  let tableStart := if opensTable l then Some i else ts0 in
  match tableStart with
  | None => scanTableBounds rest (S i) tableStart
  | Some ts =>
      if separatorLine l then scanTableBounds rest (S i) tableStart
      else if (ts + 1 <? i) && endsTable (trim l) then (tableStart, Some i)
      else scanTableBounds rest (S i) tableStart
  end.
Proof. reflexivity. Qed.

Lemma scan_preamble (pre rest : list string) :
  forallb (fun l => negb (opensTable l)) pre = true ->
  forall i,
    scanTableBounds (pre ++ rest) i None =
    scanTableBounds rest (i + List.length pre) None.
Proof.
  induction pre as [|l pre IH]; intros H i.
  - simpl. now rewrite Nat.add_0_r.
  - cbn [forallb] in H. apply andb_true_iff in H as [Hl H].
    apply negb_true_iff in Hl.
    change ((l :: pre) ++ rest) with (l :: (pre ++ rest)).
    rewrite scan_step_unfold, Hl. cbv zeta.
    rewrite (IH H). f_equal. simpl. lia.
Qed.

Lemma scan_header (h : string) (rest : list string) (i : nat) (ts0 : option nat) :
  opensTable h = true ->
  scanTableBounds (h :: rest) i ts0 = scanTableBounds rest (S i) (Some i).
Proof.
  intro H. rewrite scan_step_unfold, H. cbv zeta.
  destruct (separatorLine h); [reflexivity|].
  replace (i + 1 <? i) with false; [reflexivity|].
  symmetry. apply Nat.ltb_ge. lia.
Qed.

Lemma scan_body (body rest : list string) (ts : nat) :
  forallb bodyLine body = true ->
  forall i,
    scanTableBounds (body ++ rest) i (Some ts) =
    scanTableBounds rest (i + List.length body) (Some ts).
Proof.
  induction body as [|l body IH]; intros H i.
  - simpl. now rewrite Nat.add_0_r.
  - cbn [forallb] in H. apply andb_true_iff in H as [Hl H].
    change ((l :: body) ++ rest) with (l :: (body ++ rest)).
    rewrite scan_step_unfold.
    replace (i + List.length (l :: body)) with (S i + List.length body)
      by (simpl; lia).
    unfold bodyLine in Hl. apply orb_true_iff in Hl as [Hl|Hl].
    + rewrite (validDataRow_not_opening l Hl). cbv zeta.
      unfold separatorLine. rewrite (validDataRow_not_separator l Hl).
      rewrite (validDataRow_continues l Hl), andb_false_r.
      now apply IH.
    + rewrite (separatorLine_not_opening l Hl). cbv zeta.
      rewrite Hl. now apply IH.
Qed.

Lemma scan_terminator (b : string) (rest : list string) (i ts : nat) :
  terminatorLine b = true -> ts + 1 < i ->
  scanTableBounds (b :: rest) i (Some ts) = (Some ts, Some i).
Proof.
  intros H Hlt. unfold terminatorLine in H.
  apply andb_true_iff in H as [H Hs]. apply andb_true_iff in H as [He Ho].
  apply negb_true_iff in Hs, Ho.
  rewrite scan_step_unfold, Ho. cbv zeta. rewrite Hs, He.
  replace (ts + 1 <? i) with true; [reflexivity|].
  symmetry. now apply Nat.ltb_lt.
Qed.

Lemma scan_table (pre body post : list string) (h : string) :
  forallb (fun l => negb (opensTable l)) pre = true ->
  opensTable h = true ->
  forallb bodyLine body = true ->
  body <> [] ->
  closesTable post = true ->
  scanTableBounds (pre ++ h :: body ++ post) 0 None =
  (Some (List.length pre),
   match post with
   | [] => None
   | _ :: _ => Some (List.length pre + S (List.length body))
   end).
Proof.
  intros Hpre Hh Hbody Hne Hpost.
  rewrite (scan_preamble pre _ Hpre), (scan_header h _ _ None Hh).
  rewrite (scan_body body post _ Hbody). simpl.
  destruct post as [|b post]; [reflexivity|].
  simpl in Hpost. rewrite (scan_terminator b post _ _ Hpost).
  - f_equal. f_equal. lia.
  - destruct body; [contradiction | simpl; lia].
Qed.

Lemma slice_table (pre body post : list string) (h : string) :
  skipn (List.length pre)
        (firstn (List.length pre + S (List.length body)) (pre ++ h :: body ++ post))
  = h :: body.
Proof.
  rewrite firstn_app_2, skipn_app, Nat.sub_diag, skipn_all. simpl.
  f_equal. rewrite firstn_app, Nat.sub_diag, firstn_all. simpl.
  now rewrite app_nil_r.
Qed.

Lemma extractSection_table (pre body post : list string) (h : string) :
  forallb no_newline (pre ++ h :: body ++ post) = true ->
  forallb (fun l => negb (opensTable l)) pre = true ->
  opensTable h = true ->
  forallb bodyLine body = true ->
  body <> [] ->
  closesTable post = true ->
  extractTableSection (unlines (pre ++ h :: body ++ post)) =
  Some (unlines (h :: body)).
Proof.
  intros Hnl Hpre Hh Hbody Hne Hpost.
  unfold extractTableSection.
  assert (lines (unlines (pre ++ h :: body ++ post)) = pre ++ h :: body ++ post) as Hl.
  { destruct (pre ++ h :: body ++ post) as [|x xs] eqn:E.
    - destruct pre; discriminate.
    - now apply lines_unlines. }
  rewrite Hl, (scan_table pre body post h Hpre Hh Hbody Hne Hpost).
  f_equal. f_equal.
  destruct post as [|b post].
  - rewrite firstn_all, skipn_app, Nat.sub_diag, skipn_all. simpl.
    now rewrite app_nil_r.
  - apply slice_table.
Qed.

Lemma parseTableLines_body (body : list string) :
  forallb bodyLine body = true ->
  map Some (parseTableLines body) = map parseTableLine (filter validDataRow body).
Proof.
  induction body as [|l body IH]; intro H; [reflexivity|].
  cbn [forallb] in H. apply andb_true_iff in H as [Hl H].
  specialize (IH H). cbn [parseTableLines filter].
  unfold bodyLine in Hl. apply orb_true_iff in Hl as [Hl|Hl].
  - rewrite Hl. destruct (validDataRow_parses l Hl) as [m Hm].
    rewrite Hm. simpl. now rewrite Hm, IH.
  - rewrite (separator_not_valid l Hl), (separatorLine_skipped l Hl). exact IH.
Qed.

Lemma opening_line_skipped (h : string) :
  opensTable h = true -> parseTableLine h = None.
Proof.
  unfold opensTable, parseTableLine, skipsLine. intro H.
  apply andb_true_iff in H as [H _]. rewrite H.
  now rewrite orb_true_r.
Qed.

Lemma unlines_cons_nonempty (h : string) (ls : list string) :
  h <> EmptyString -> is_empty (unlines (h :: ls)) = false.
Proof.
  intro H. destruct h as [|c r]; [contradiction|].
  unfold unlines, join. destruct ls; reflexivity.
Qed.

Lemma opening_line_nonempty (h : string) : opensTable h = true -> h <> EmptyString.
Proof. intros H E. subst. discriminate. Qed.

End TableParserFacts.

(* ================================================================== *)
(** ** The table parser: specification *)
(* ================================================================== *)

Module TableParserSpec.
Import JS JSFacts TableParser TableShapes TableParserFacts.


(** C2, as stated, fails: a text with exactly two header lines and no
    data row is parsed to [null], not to a dual-table result. *)
Lemma two_headers_without_rows_give_null :
  tableHeaderCount Samples.twoHeaders = 2 /\
  parseCongressTable Samples.twoHeaders = None.
Proof. split; vm_compute; reflexivity. Qed.

(** C2, amended.  A text with exactly two header lines holds exactly two
    extracted tables; parsing gives [null] when neither table has a
    member row, and otherwise a result with [hasDualTables = true] whose
    [alignedMembers] are the rows of the first table, whose
    [opposedMembers] are the rows of the second, and whose [members] are
    both in that order.  With any other number of header lines the
    result is that of [parseSingleTable]. *)
Theorem dual_table_mode (content : string) :
  (tableHeaderCount content = 2 ->
   exists first second,
     extractTables content = [first; second] /\
     match parseCongressTable content with
     | Some t =>
         hasDualTables t = Some true /\
         alignedMembers t = Some (parseTableRows first) /\
         opposedMembers t = Some (parseTableRows second) /\
         members t = parseTableRows first ++ parseTableRows second /\
         totalMembers t = List.length (members t) /\
         members t <> []
     | None => parseTableRows first = [] /\ parseTableRows second = []
     end) /\
  (tableHeaderCount content <> 2 ->
   parseCongressTable content = parseSingleTable content).
Proof.
  split; intro Hcount.
  - pose proof (extractTables_length content) as Hlen. rewrite Hcount in Hlen.
    destruct (extractTables content) as [|first [|second [|third rest]]] eqn:Hex;
      try discriminate.
    exists first, second. split; [reflexivity|].
    unfold parseCongressTable, parseOrchestratorTable, detectDualTables.
    rewrite Hcount. simpl. unfold parseDualTables, extractTableByOrder.
    rewrite Hex.
    change (nth_error [first; second] (1 - 1)) with (Some first).
    change (nth_error [first; second] (2 - 1)) with (Some second).
    change (1 <=? List.length [first; second]) with true.
    change (2 <=? List.length [first; second]) with true.
    cbv iota. rewrite !sectionRows_some.
    destruct (List.length (parseTableRows first ++ parseTableRows second) =? 0) eqn:E.
    + apply length_zero_nil in E. now apply app_eq_nil in E.
    + simpl. repeat split.
      intro Hnil. rewrite Hnil in E. discriminate.
  - unfold parseCongressTable, parseOrchestratorTable, detectDualTables.
    apply Nat.eqb_neq in Hcount. now rewrite Hcount.
Qed.

Lemma dual_table_mode_witness :
  exists first second,
    extractTables Samples.dualTable = [first; second] /\
    match parseCongressTable Samples.dualTable with
    | Some t =>
        hasDualTables t = Some true /\
        alignedMembers t = Some (parseTableRows first) /\
        opposedMembers t = Some (parseTableRows second) /\
        members t = parseTableRows first ++ parseTableRows second /\
        totalMembers t = List.length (members t) /\
        members t <> []
    | None => parseTableRows first = [] /\ parseTableRows second = []
    end.
Proof.
  apply (proj1 (dual_table_mode Samples.dualTable)).
  vm_compute. reflexivity.
Defined.

(** C3, as stated, fails.  A text with one header line and no data row
    is parsed to [null], not to a result with [totalMembers = 0].  A
    text whose one header line is in lower case is parsed to [null],
    whatever rows follow.  So is a text whose header has a party column
    and that shows no third table indicator.  And a row that speaks of
    a conclusion ends the table: of two rows that [parseTableRow]
    accepts, one is counted. *)
Lemma single_header_parsed_to_null :
  (tableHeaderCount Samples.headerOnly = 1 /\
   parseCongressTable Samples.headerOnly = None) /\
  (tableHeaderCount Samples.lowerCaseTable = 1 /\
   isTableHeader Samples.lowerHeader = true /\
   parseTableRow Samples.rowManchin <> None /\
   parseCongressTable Samples.lowerCaseTable = None) /\
  (tableHeaderCount Samples.partyTable = 1 /\
   isTableHeader Samples.partyHeader = true /\
   parseTableRow Samples.rowPlain <> None /\
   parseCongressTable Samples.partyTable = None) /\
  (tableHeaderCount Samples.conclusionTable = 1 /\
   parseTableRow Samples.rowManchin <> None /\
   parseTableRow Samples.rowConclusion <> None /\
   option_map totalMembers (parseCongressTable Samples.conclusionTable) = Some 1).
Proof. repeat split; vm_compute; congruence. Qed.

(** C3, amended.  Take a text of newline-free lines with exactly one
    well-formed header line [h], where [h] holds "Congress Member" in
    this capitalisation and no earlier line holds that phrase and a
    pipe, where the text shows three of the parser's table indicators,
    where [h] is followed by a block of separator rows and valid data
    rows, at least one of them a data row, and where the block runs to
    the end of the text or to a terminator line.  Then parsing gives a
    result with [hasDualTables = false], with [totalMembers] the number
    of data rows of the block, and with [members] the parse of each of
    these rows in order. *)
Theorem single_table_rows (pre body post : list string) (h : string) :
  forallb no_newline (pre ++ h :: body ++ post) = true ->
  tableHeaderCount (unlines (pre ++ h :: body ++ post)) = 1 ->
  isTableHeader h = true ->
  opensTable h = true ->
  forallb (fun l => negb (opensTable l)) pre = true ->
  detectTableInMessage (unlines (pre ++ h :: body ++ post)) = true ->
  forallb bodyLine body = true ->
  filter validDataRow body <> [] ->
  closesTable post = true ->
  exists t,
    parseCongressTable (unlines (pre ++ h :: body ++ post)) = Some t /\
    hasDualTables t = Some false /\
    totalMembers t = List.length (filter validDataRow body) /\
    map Some (members t) =
      map (fun row => parseTableRow (trim row)) (filter validDataRow body).
Proof.
  intros Hnl Hcount _ Hopen Hpre Hdetect Hbody Hrows Hpost.
  assert (body <> []) as Hne by (intro E; subst; now apply Hrows).
  assert (forallb no_newline (h :: body) = true) as Hnl'.
  { rewrite forallb_app in Hnl. apply andb_true_iff in Hnl as [_ Hnl].
    change (h :: body ++ post) with ((h :: body) ++ post) in Hnl.
    rewrite forallb_app in Hnl. now apply andb_true_iff in Hnl as [Hnl _]. }
  assert (map Some (parseTableRows (unlines (h :: body))) =
          map (fun row => parseTableRow (trim row)) (filter validDataRow body)) as Hmem.
  { unfold parseTableRows. rewrite (lines_unlines h body Hnl').
    cbn [parseTableLines]. rewrite (opening_line_skipped h Hopen).
    rewrite (parseTableLines_body body Hbody).
    apply map_ext_in. intros row Hin. apply filter_In in Hin as [_ Hv].
    unfold parseTableLine, skipsLine.
    now rewrite (validDataRow_not_empty row Hv), (validDataRow_no_title row Hv),
      (validDataRow_not_separator row Hv). }
  assert (List.length (parseTableRows (unlines (h :: body))) =
          List.length (filter validDataRow body)) as Hlen.
  { rewrite <- (length_map Some), Hmem. apply length_map. }
  unfold parseCongressTable, parseOrchestratorTable, detectDualTables.
  rewrite Hcount. cbn [Nat.eqb]. unfold parseSingleTable.
  rewrite Hdetect. cbn [negb].
  rewrite (extractSection_table pre body post h Hnl Hpre Hopen Hbody Hne Hpost).
  rewrite (unlines_cons_nonempty h body (opening_line_nonempty h Hopen)).
  destruct (List.length (parseTableRows (unlines (h :: body))) =? 0) eqn:E.
  - apply Nat.eqb_eq in E. rewrite Hlen in E.
    apply length_zero_iff_nil in E. contradiction.
  - eexists. split; [reflexivity|]. simpl. auto.
Qed.

Lemma single_table_rows_witness :
  exists t,
    parseCongressTable (unlines Samples.singleTable) = Some t /\
    hasDualTables t = Some false /\
    totalMembers t = 3 /\
    map Some (members t) =
      map (fun row => parseTableRow (trim row))
          [Samples.rowManchin; Samples.rowBarrasso; Samples.rowRaskin].
Proof.
  apply (single_table_rows
           ["Results:"]
           [Samples.separator; Samples.rowManchin; Samples.rowBarrasso; Samples.rowRaskin]
           [""; "Bill S. 383-116 TERMINATE"]
           Samples.header);
    solve [vm_compute; reflexivity | vm_compute; discriminate].
Defined.




End TableParserSpec.

(* ================================================================== *)
(** ** Properties of the transport *)
(* ================================================================== *)

Module WebSocketFacts.
Import JS WebSocketService TransportInvariants.

(** *** Lists by index *)

Lemma update_nth_length {A : Type} (n : nat) (f : A -> A) (l : list A) :
  List.length (update_nth n f l) = List.length l.
Proof.
  revert n. induction l as [|x r IH]; intros [|n]; simpl; auto.
Qed.

Lemma nth_update_nth_same {A : Type} (n : nat) (f : A -> A) (l : list A) (d : A) :
  n < List.length l -> nth n (update_nth n f l) d = f (nth n l d).
Proof.
  revert n. induction l as [|x r IH]; intros [|n] H; simpl in *; try lia; auto.
  apply IH. lia.
Qed.

Lemma nth_update_nth_other {A : Type} (n k : nat) (f : A -> A) (l : list A) (d : A) :
  n <> k -> nth n (update_nth k f l) d = nth n l d.
Proof.
  revert n k. induction l as [|x r IH]; intros [|n] [|k] H; simpl; auto.
  contradiction.
Qed.

(** *** The part of the state that reconnection depends on *)




(** The [try] of [guardedCall] lets no exception out. *)
Lemma guardedCall_returns (m : WebSocketMessage.t) (id : string) (h : Handler) (st : t) :
  snd (guardedCall m id h st) = false.
Proof.
  unfold guardedCall. destruct (invoke h m _) as [st' []]; reflexivity.
Qed.

Lemma forEach_guarded_step (m : WebSocketMessage.t) (id : string) (rest : list string) (st : t) :
  forEach (guardedCall m) (id :: rest) st =
  match lookup id (messageHandlers st) with
  | None => forEach (guardedCall m) rest st
  | Some h => forEach (guardedCall m) rest (fst (guardedCall m id h st))
  end.
Proof.
  simpl. destruct (lookup id (messageHandlers st)) as [h|]; [|reflexivity].
  pose proof (guardedCall_returns m id h st) as Hret.
  destruct (guardedCall m id h st) as [st' threw]. simpl in *. now subst.
Qed.

Lemma forEach_returns (m : WebSocketMessage.t) (ids : list string) :
  forall st, snd (forEach (guardedCall m) ids st) = false.
Proof.
  induction ids as [|id rest IH]; intro st; [reflexivity|].
  rewrite forEach_guarded_step. destruct (lookup id (messageHandlers st)); apply IH.
Qed.




(** *** What each action does to the counter, the flag and the timers *)

Ltac split_conditions :=
  repeat match goal with
         | |- context [if ?b then _ else _] => destruct b eqn:?
         | |- context [match ?x with Some _ => _ | None => _ end] => destruct x eqn:?
         end.






Lemma onopen_reconnection (k : nat) (st : t) :
  reconnection (onopen k st) = (0, isManualClose st, timers st).
Proof. unfold onopen. simpl. split_conditions; reflexivity. Qed.


(** A closure schedules a reconnect when the close was not asked for
    and the counter is below its maximum; the delay is the interval
    times the counter.  It changes nothing else. *)
Lemma onclose_timers (st : t) :
  timers (onclose st) =
  if negb (isManualClose st) && (reconnectAttempts st <? maxReconnectAttempts)
  then timers st ++ [{| delay := (reconnectInterval * N.of_nat (reconnectAttempts st))%N;
                        action := reconnect |}]
  else timers st.
Proof. unfold onclose. split_conditions; reflexivity. Qed.









Lemma onopen_fields (k : nat) (st : t) :
  reconnectAttempts (onopen k st) = 0 /\
  isManualClose (onopen k st) = isManualClose st /\
  timers (onopen k st) = timers st.
Proof.
  pose proof (onopen_reconnection k st) as E. unfold reconnection in E.
  inversion E. auto.
Qed.







(** *** The handler registry *)

Lemma lookup_mapDelete_same (id : string) (hs : list (string * Handler)) :
  lookup id (mapDelete id hs) = None.
Proof.
  induction hs as [|[k h] r IH]; simpl; [reflexivity|].
  destruct (String.eqb k id) eqn:E; simpl; [exact IH|].
  now rewrite E.
Qed.

Lemma lookup_mapDelete_other (id id' : string) (hs : list (string * Handler)) :
  id <> id' -> lookup id (mapDelete id' hs) = lookup id hs.
Proof.
  intro Hne. induction hs as [|[k h] r IH]; simpl; [reflexivity|].
  destruct (String.eqb k id') eqn:E; simpl.
  - apply String.eqb_eq in E. subst k.
    destruct (String.eqb id' id) eqn:E'; [|exact IH].
    apply String.eqb_eq in E'. congruence.
  - now rewrite IH.
Qed.

Lemma lookup_mapSet_same (id : string) (h : Handler) (hs : list (string * Handler)) :
  lookup id (mapSet id h hs) = Some h.
Proof.
  induction hs as [|[k h'] r IH]; simpl.
  - now rewrite String.eqb_refl.
  - destruct (String.eqb k id) eqn:E; simpl; now rewrite E.
Qed.

Lemma lookup_mapSet_other (id id' : string) (h : Handler) (hs : list (string * Handler)) :
  id <> id' -> lookup id (mapSet id' h hs) = lookup id hs.
Proof.
  intro Hne. induction hs as [|[k h'] r IH]; simpl.
  - destruct (String.eqb id' id) eqn:E; [|reflexivity].
    apply String.eqb_eq in E. congruence.
  - destruct (String.eqb k id') eqn:E; simpl.
    + apply String.eqb_eq in E. subst k.
      destruct (String.eqb id' id) eqn:E'; [|reflexivity].
      apply String.eqb_eq in E'. congruence.
    + now rewrite IH.
Qed.

Lemma lookup_In (id : string) (h : Handler) (hs : list (string * Handler)) :
  lookup id hs = Some h -> In (id, h) hs.
Proof.
  induction hs as [|[k h'] r IH]; simpl; [discriminate|].
  destruct (String.eqb k id) eqn:E.
  - apply String.eqb_eq in E. intro H. inversion H; subst. now left.
  - intro H. right. now apply IH.
Qed.

Lemma lookup_some_In_ids (id : string) (h : Handler) (hs : list (string * Handler)) :
  lookup id hs = Some h -> In id (map fst hs).
Proof.
  intro H. apply lookup_In in H. now apply (in_map fst) in H.
Qed.

Lemma In_mapDelete (e : string * Handler) (id : string) (hs : list (string * Handler)) :
  In e (mapDelete id hs) -> In e hs.
Proof. unfold mapDelete. intro H. now apply filter_In in H. Qed.

Lemma In_mapSet (e : string * Handler) (id : string) (h : Handler)
  (hs : list (string * Handler)) :
  In e (mapSet id h hs) -> e = (id, h) \/ In e hs.
Proof.
  induction hs as [|[k h'] r IH]; simpl.
  - intros [H|[]]. now left.
  - destruct (String.eqb k id) eqn:E; simpl.
    + apply String.eqb_eq in E. subst k. intros [H|H]; auto.
    + intros [H|H]; auto. destruct (IH H); auto.
Qed.

(** *** Closures sit under their own ids *)

Lemma closuresInPlace_initial : closuresInPlace initial.
Proof. intros e []. Qed.

Lemma closureInPlace_grow (st st' : t) (e : string * Handler) :
  List.length (promises st) <= List.length (promises st') ->
  closureInPlace st e -> closureInPlace st' e.
Proof.
  unfold closureInPlace. destruct (snd e); intros Hlen H; auto;
    destruct H; split; auto; lia.
Qed.

(** The invariant passes to a state with fewer handlers and no fewer
    promises. *)
Lemma closuresInPlace_shrink (st st' : t) :
  (forall e, In e (messageHandlers st') -> In e (messageHandlers st)) ->
  List.length (promises st) <= List.length (promises st') ->
  closuresInPlace st -> closuresInPlace st'.
Proof.
  intros Hsub Hlen Hinv e Hin.
  apply (closureInPlace_grow st st' e Hlen). apply Hinv. now apply Hsub.
Qed.

Lemma shrinks_refl (st : t) : shrinks st st.
Proof. split; auto. Qed.

Lemma shrinks_trans (a b c : t) : shrinks a b -> shrinks b c -> shrinks a c.
Proof. intros [H1 H2] [H3 H4]. split; [auto | congruence]. Qed.

Lemma shrinks_offMessage (id : string) (st : t) : shrinks st (offMessage id st).
Proof. split; [intros e; apply In_mapDelete | reflexivity]. Qed.

Lemma shrinks_resolve (p : nat) (v : option string) (st : t) : shrinks st (resolve p v st).
Proof. split; [auto | apply update_nth_length]. Qed.

Lemma shrinks_reject (p : nat) (r : string) (st : t) : shrinks st (reject p r st).
Proof. split; [auto | apply update_nth_length]. Qed.

Lemma shrinks_runHandleStart (p : nat) (m : WebSocketMessage.t) (st : t) :
  shrinks st (runHandleStart p m st).
Proof.
  unfold runHandleStart. split_conditions;
    try apply shrinks_refl;
    (eapply shrinks_trans; [apply (shrinks_offMessage "start_handler")|]);
    first [apply shrinks_resolve | apply shrinks_reject].
Qed.

Lemma shrinks_runHandleStop (p : nat) (m : WebSocketMessage.t) (st : t) :
  shrinks st (runHandleStop p m st).
Proof.
  unfold runHandleStop. split_conditions; try apply shrinks_refl.
  - eapply shrinks_trans; [apply (shrinks_offMessage "stop_handler")|].
    split; [simpl; auto | simpl; apply update_nth_length].
  - eapply shrinks_trans;
      [apply (shrinks_offMessage "stop_handler") | apply shrinks_reject].
Qed.

Lemma shrinks_set_calls (c : list (string * WebSocketMessage.t)) (st : t) :
  shrinks st (set_calls c st).
Proof. split; auto. Qed.

Lemma shrinks_guardedCall (m : WebSocketMessage.t) (id : string) (h : Handler) (st : t) :
  shrinks st (fst (guardedCall m id h st)).
Proof.
  unfold guardedCall.
  apply (shrinks_trans _ _ _ (shrinks_set_calls (calls st ++ [(id, m)]) st)).
  destruct h as [p|p|throws]; simpl.
  - apply shrinks_runHandleStart.
  - apply shrinks_runHandleStop.
  - destruct (throws m); simpl; [|apply shrinks_refl].
    apply shrinks_offMessage.
Qed.

Lemma shrinks_forEach (m : WebSocketMessage.t) (ids : list string) :
  forall st, shrinks st (fst (forEach (guardedCall m) ids st)).
Proof.
  induction ids as [|id rest IH]; intro st; [apply shrinks_refl|].
  rewrite forEach_guarded_step. destruct (lookup id (messageHandlers st)) as [h|].
  - eapply shrinks_trans; [apply shrinks_guardedCall | apply IH].
  - apply IH.
Qed.

Lemma shrinks_handleMessage (m : WebSocketMessage.t) (st : t) :
  shrinks st (fst (handleMessage m st)).
Proof. apply shrinks_forEach. Qed.

Lemma shrinks_onmessage (payload : EventData) (nowISO : string) (st : t) :
  shrinks st (fst (onmessage payload nowISO st)).
Proof.
  unfold onmessage.
  destruct payload as [|errorText|[|[type|] [timestamp|] sid data message error]];
    try apply shrinks_refl; try apply shrinks_handleMessage.
  destruct (is_empty type || is_empty timestamp);
    [apply shrinks_refl | apply shrinks_handleMessage].
Qed.

Lemma closuresInPlace_shrinks (st st' : t) :
  shrinks st st' -> closuresInPlace st -> closuresInPlace st'.
Proof.
  intros [Hsub Hlen]. apply closuresInPlace_shrink; [exact Hsub | lia].
Qed.

(** *** The invariant holds in every state of a run *)

Lemma closuresInPlace_onMessage_subscriber (id : string)
  (throws : WebSocketMessage.t -> bool) (st : t) :
  closuresInPlace st -> closuresInPlace (onMessage id (subscriber throws) st).
Proof.
  intros Hinv e Hin. simpl in Hin. apply In_mapSet in Hin as [E|Hin].
  - subst e. exact I.
  - now apply Hinv.
Qed.

(** A closure registered for a promise that was just created. *)
Lemma closuresInPlace_register (id : string) (h : Handler) (st st' : t) :
  closureInPlace st' (id, h) ->
  messageHandlers st' = mapSet id h (messageHandlers st) ->
  List.length (promises st) <= List.length (promises st') ->
  closuresInPlace st -> closuresInPlace st'.
Proof.
  intros Hnew Hreg Hlen Hinv e Hin. rewrite Hreg in Hin.
  apply In_mapSet in Hin as [E|Hin].
  - now subst e.
  - apply (closureInPlace_grow st st' e Hlen). now apply Hinv.
Qed.

Lemma closuresInPlace_connect (st : t) :
  closuresInPlace st -> closuresInPlace (fst (connect st)).
Proof.
  apply closuresInPlace_shrink; unfold connect; simpl; split_conditions; simpl; auto;
    rewrite ?update_nth_length, ?length_app; simpl; lia.
Qed.

Lemma closuresInPlace_disconnect (st : t) :
  closuresInPlace st -> closuresInPlace (disconnect st).
Proof.
  apply closuresInPlace_shrink; unfold disconnect; simpl; split_conditions; simpl; auto.
Qed.

Lemma closuresInPlace_startInvestigation (company bill description stamp : string) (st : t) :
  closuresInPlace st ->
  closuresInPlace (fst (startInvestigation company bill description stamp st)).
Proof.
  intro Hinv. unfold startInvestigation. simpl.
  destruct (negb (isConnected _)); simpl.
  - revert Hinv. apply closuresInPlace_shrink; simpl; auto.
    rewrite update_nth_length, length_app. simpl. lia.
  - revert Hinv.
    apply (closuresInPlace_register "start_handler"
             (handleStart (List.length (promises st)))); simpl; auto.
    + unfold closureInPlace. simpl. split; [reflexivity|].
      rewrite length_app. simpl. lia.
    + rewrite length_app. simpl. lia.
Qed.

Lemma closuresInPlace_stopInvestigation (st : t) :
  closuresInPlace st -> closuresInPlace (fst (stopInvestigation st)).
Proof.
  intro Hinv. unfold stopInvestigation. simpl.
  destruct (negb (isConnected _)); simpl.
  - revert Hinv. apply closuresInPlace_shrink; simpl; auto.
    rewrite update_nth_length, length_app. simpl. lia.
  - destruct (sessionId st) as [sid|]; simpl.
    + destruct (is_empty sid); simpl.
      * revert Hinv. apply closuresInPlace_shrink; simpl; auto.
        rewrite update_nth_length, length_app. simpl. lia.
      * revert Hinv.
        apply (closuresInPlace_register "stop_handler"
                 (handleStop (List.length (promises st)))); simpl; auto.
        -- unfold closureInPlace. simpl. split; [reflexivity|].
           rewrite length_app. simpl. lia.
        -- rewrite length_app. simpl. lia.
    + revert Hinv. apply closuresInPlace_shrink; simpl; auto.
      rewrite update_nth_length, length_app. simpl. lia.
Qed.

Lemma closuresInPlace_runTimer (a : TimerAction) (st : t) :
  closuresInPlace st -> closuresInPlace (runTimer a st).
Proof.
  destruct a as [|p|p]; simpl.
  - intro H. apply closuresInPlace_connect.
    revert H. apply closuresInPlace_shrink; simpl; auto.
  - apply closuresInPlace_shrinks.
    apply (shrinks_trans _ _ _ (shrinks_offMessage "start_handler" st)).
    split_conditions; first [apply shrinks_resolve | apply shrinks_reject].
  - apply closuresInPlace_shrinks.
    apply (shrinks_trans _ _ _ (shrinks_offMessage "stop_handler" st)).
    apply shrinks_reject.
Qed.

Lemma closuresInPlace_step (st : t) (a : Action) :
  closuresInPlace st -> closuresInPlace (step st a).
Proof.
  destruct a; simpl.
  - apply closuresInPlace_connect.
  - apply closuresInPlace_disconnect.
  - apply closuresInPlace_onMessage_subscriber.
  - apply closuresInPlace_shrinks, shrinks_offMessage.
  - apply closuresInPlace_startInvestigation.
  - apply closuresInPlace_stopInvestigation.
  - apply closuresInPlace_shrink; unfold onopen; simpl; split_conditions; simpl; auto;
      rewrite ?update_nth_length; lia.
  - apply closuresInPlace_shrink; unfold onclose; simpl; split_conditions; simpl; auto.
  - apply closuresInPlace_shrink; unfold onerror; simpl; split_conditions; simpl; auto;
      rewrite ?update_nth_length; lia.
  - apply closuresInPlace_shrinks, shrinks_onmessage.
  - unfold fireTimer. destruct (nth_error (timers st) i) as [tm|]; [|auto].
    intro H. apply closuresInPlace_runTimer.
    revert H. apply closuresInPlace_shrink; simpl; auto.
Qed.

Lemma closuresInPlace_run (actions : list Action) :
  forall st, closuresInPlace st -> closuresInPlace (run st actions).
Proof.
  induction actions as [|a actions IH]; intros st H; [exact H|].
  apply IH. now apply closuresInPlace_step.
Qed.

(** *** What a dispatch calls and what it deletes *)

Lemma guardedCall_registry (m : WebSocketMessage.t) (id : string) (h : Handler) (st : t) :
  let hs' := messageHandlers (fst (guardedCall m id h st)) in
  hs' = messageHandlers st \/ hs' = mapDelete (deletedBy id h) (messageHandlers st).
Proof.
  unfold guardedCall. destruct h as [p|p|throws]; simpl.
  - unfold runHandleStart. split_conditions; simpl; auto.
  - unfold runHandleStop. split_conditions; simpl; auto.
  - destruct (throws m); simpl; auto.
Qed.

Lemma guardedCall_calls (m : WebSocketMessage.t) (id : string) (h : Handler) (st : t) :
  calls (fst (guardedCall m id h st)) = calls st ++ [(id, m)].
Proof.
  unfold guardedCall. destruct h as [p|p|throws]; simpl.
  - unfold runHandleStart. split_conditions; reflexivity.
  - unfold runHandleStop. split_conditions; reflexivity.
  - destruct (throws m); reflexivity.
Qed.

Lemma lookup_mapDelete_none (id id' : string) (hs : list (string * Handler)) :
  lookup id hs = None -> lookup id (mapDelete id' hs) = None.
Proof.
  intro H. destruct (String.eqb id id') eqn:E.
  - apply String.eqb_eq in E. subst. apply lookup_mapDelete_same.
  - apply String.eqb_neq in E. now rewrite lookup_mapDelete_other.
Qed.

(** An id that is not registered stays so during a dispatch. *)
Lemma guardedCall_lookup_none (m : WebSocketMessage.t) (id0 id : string) (h : Handler) (st : t) :
  lookup id (messageHandlers st) = None ->
  lookup id (messageHandlers (fst (guardedCall m id0 h st))) = None.
Proof.
  intro H. destruct (guardedCall_registry m id0 h st) as [E|E]; rewrite E;
    [exact H | now apply lookup_mapDelete_none].
Qed.

(** A handler in its place leaves the other ids as they are. *)
Lemma guardedCall_lookup_other (m : WebSocketMessage.t) (id0 id : string) (h : Handler) (st : t) :
  closureInPlace st (id0, h) -> id <> id0 ->
  lookup id (messageHandlers (fst (guardedCall m id0 h st))) =
  lookup id (messageHandlers st).
Proof.
  intros Hplace Hne.
  assert (deletedBy id0 h = id0) as Hd.
  { unfold closureInPlace in Hplace. destruct h; simpl in *; try tauto;
      destruct Hplace; congruence. }
  destruct (guardedCall_registry m id0 h st) as [E|E]; rewrite E; [reflexivity|].
  rewrite Hd. now apply lookup_mapDelete_other.
Qed.

(** The handlers that a dispatch calls, in order: every id that is
    registered when it starts, and no other. *)
Lemma forEach_visits (m : WebSocketMessage.t) (ids : list string) :
  forall st,
    closuresInPlace st ->
    exists visited,
      calls (fst (forEach (guardedCall m) ids st)) =
        calls st ++ map (fun id => (id, m)) visited /\
      (forall id, In id visited -> lookup id (messageHandlers st) <> None) /\
      (forall id, In id ids -> lookup id (messageHandlers st) <> None -> In id visited).
Proof.
  induction ids as [|id0 rest IH]; intros st Hinv.
  - exists []. simpl. rewrite app_nil_r. repeat split; intros; contradiction.
  - rewrite forEach_guarded_step.
    destruct (lookup id0 (messageHandlers st)) as [h0|] eqn:E0.
    + pose proof (closuresInPlace_shrinks _ _ (shrinks_guardedCall m id0 h0 st) Hinv) as Hinv1.
      destruct (IH _ Hinv1) as (visited & Hcalls & Hbound & Hall).
      exists (id0 :: visited). repeat split.
      * rewrite Hcalls, guardedCall_calls, <- app_assoc. reflexivity.
      * intros id [E|Hin]; [subst; congruence|].
        intro Hnone. apply (Hbound id Hin).
        now apply guardedCall_lookup_none.
      * intros id Hin Hsome.
        destruct (String.eqb id id0) eqn:E; [apply String.eqb_eq in E; now left|].
        apply String.eqb_neq in E. right. apply Hall.
        -- destruct Hin as [Hin|Hin]; [congruence | exact Hin].
        -- rewrite (guardedCall_lookup_other m id0 id h0 st); auto.
           apply Hinv. now apply lookup_In.
    + destruct (IH _ Hinv) as (visited & Hcalls & Hbound & Hall).
      exists visited. repeat split; auto.
      intros id Hin Hsome. apply Hall; auto.
      destruct Hin as [Hin|Hin]; [subst; congruence | exact Hin].
Qed.

Lemma handleMessage_visits (m : WebSocketMessage.t) (st : t) :
  closuresInPlace st ->
  exists visited,
    calls (fst (handleMessage m st)) = calls st ++ map (fun id => (id, m)) visited /\
    (forall id, In id visited <-> lookup id (messageHandlers st) <> None).
Proof.
  intro Hinv.
  destruct (forEach_visits m (map fst (messageHandlers st)) st Hinv)
    as (visited & Hcalls & Hbound & Hall).
  exists visited. split; [exact Hcalls|].
  intro id. split; [apply Hbound|].
  intro Hsome. apply Hall; [|exact Hsome].
  destruct (lookup id (messageHandlers st)) as [h|] eqn:E; [|congruence].
  now apply lookup_some_In_ids in E.
Qed.

(** A subscriber that throws on the message is not registered after
    the dispatch. *)
Lemma forEach_removes_thrower (m : WebSocketMessage.t) (id : string)
  (throws : WebSocketMessage.t -> bool) (ids : list string) :
  throws m = true ->
  forall st,
    lookup id (messageHandlers st) = None \/
    (lookup id (messageHandlers st) = Some (subscriber throws) /\ In id ids) ->
    lookup id (messageHandlers (fst (forEach (guardedCall m) ids st))) = None.
Proof.
  intro Hthrows. induction ids as [|id0 rest IH]; intros st H.
  - simpl. destruct H as [H|[_ []]]. exact H.
  - rewrite forEach_guarded_step.
    destruct (lookup id0 (messageHandlers st)) as [h0|] eqn:E0.
    + apply IH. destruct H as [H|[H Hin]].
      * left. now apply guardedCall_lookup_none.
      * destruct (String.eqb id id0) eqn:E.
        -- apply String.eqb_eq in E. subst id0. left.
           rewrite H in E0. inversion E0; subst h0.
           unfold guardedCall. simpl. rewrite Hthrows. simpl.
           apply lookup_mapDelete_same.
        -- apply String.eqb_neq in E.
           destruct (guardedCall_registry m id0 h0 st) as [R|R]; rewrite R.
           ++ right. split; [exact H|]. destruct Hin; [congruence | assumption].
           ++ destruct (String.eqb id (deletedBy id0 h0)) eqn:E'.
              ** apply String.eqb_eq in E'. rewrite <- E'. left.
                 apply lookup_mapDelete_same.
              ** apply String.eqb_neq in E'. right.
                 rewrite lookup_mapDelete_other by exact E'.
                 split; [exact H|]. destruct Hin; [congruence | assumption].
    + apply IH. destruct H as [H|[H Hin]]; [now left | right].
      split; [exact H|]. destruct Hin; [congruence | assumption].
Qed.

(** *** Settling the promise of [startInvestigation] *)

Lemma promiseState_resolve_same (p : nat) (v : option string) (st : t) :
  p < List.length (promises st) -> promiseState p st = Pending ->
  promiseState p (resolve p v st) = Resolved v.
Proof.
  unfold promiseState, resolve. simpl. intros Hlt Hp.
  rewrite nth_update_nth_same by exact Hlt. now rewrite Hp.
Qed.

Lemma promiseState_reject_same (p : nat) (r : string) (st : t) :
  p < List.length (promises st) -> promiseState p st = Pending ->
  promiseState p (reject p r st) = Rejected r.
Proof.
  unfold promiseState, reject. simpl. intros Hlt Hp.
  rewrite nth_update_nth_same by exact Hlt. now rewrite Hp.
Qed.

(** A settled promise stays as it is. *)
Lemma settle_settled (outcome current : Promise) :
  current <> Pending -> settle outcome current = current.
Proof. destruct current; [contradiction | reflexivity | reflexivity]. Qed.

Lemma nth_update_nth_settled (p q : nat) (outcome : Promise) (l : list Promise) :
  nth p l Pending <> Pending ->
  nth p (update_nth q (settle outcome) l) Pending = nth p l Pending.
Proof.
  intro H. destruct (Nat.eq_dec p q) as [E|E].
  - subst q. destruct (Nat.lt_ge_cases p (List.length l)) as [Hlt|Hge].
    + rewrite nth_update_nth_same by exact Hlt. now apply settle_settled.
    + rewrite nth_overflow in H by exact Hge. contradiction.
  - now apply nth_update_nth_other.
Qed.

(** Settling another promise does not touch this one. *)
Lemma nth_update_nth_frame (p q : nat) (outcome : Promise) (l : list Promise) :
  p <> q \/ nth p l Pending <> Pending ->
  nth p (update_nth q (settle outcome) l) Pending = nth p l Pending.
Proof.
  intros [H|H]; [now apply nth_update_nth_other | now apply nth_update_nth_settled].
Qed.

Lemma promiseState_runHandleStart_frame (p q : nat) (m : WebSocketMessage.t) (st : t) :
  p <> q \/ promiseState p st <> Pending ->
  promiseState p (runHandleStart q m st) = promiseState p st.
Proof.
  intro H. unfold runHandleStart, promiseState in *.
  split_conditions; simpl; try reflexivity; now apply nth_update_nth_frame.
Qed.

Lemma promiseState_runHandleStop_frame (p q : nat) (m : WebSocketMessage.t) (st : t) :
  p <> q \/ promiseState p st <> Pending ->
  promiseState p (runHandleStop q m st) = promiseState p st.
Proof.
  intro H. unfold runHandleStop, promiseState in *.
  split_conditions; simpl; try reflexivity; now apply nth_update_nth_frame.
Qed.

Lemma promiseState_guardedCall_settled (p : nat) (m : WebSocketMessage.t)
  (id : string) (h : Handler) (st : t) :
  promiseState p st <> Pending ->
  promiseState p (fst (guardedCall m id h st)) = promiseState p st.
Proof.
  intro H. unfold guardedCall. destruct h as [q|q|throws]; simpl.
  - now rewrite promiseState_runHandleStart_frame by (right; exact H).
  - now rewrite promiseState_runHandleStop_frame by (right; exact H).
  - destruct (throws m); reflexivity.
Qed.

Lemma promiseState_forEach_settled (p : nat) (m : WebSocketMessage.t) (ids : list string) :
  forall st,
    promiseState p st <> Pending ->
    promiseState p (fst (forEach (guardedCall m) ids st)) = promiseState p st.
Proof.
  induction ids as [|id rest IH]; intros st H; [reflexivity|].
  rewrite forEach_guarded_step. destruct (lookup id (messageHandlers st)) as [h|].
  - rewrite IH; rewrite promiseState_guardedCall_settled; auto.
  - now apply IH.
Qed.

Lemma awaitingStart_in_range (p : nat) (sid : string) (st : t) :
  awaitingStart p sid st -> p < List.length (promises st).
Proof.
  intros (Hinv & Hreg & _). apply lookup_In in Hreg. apply Hinv in Hreg.
  now destruct Hreg.
Qed.

Lemma lookup_mapDelete_some (id id' : string) (h : Handler) (hs : list (string * Handler)) :
  lookup id (mapDelete id' hs) = Some h -> lookup id hs = Some h.
Proof.
  destruct (String.eqb id id') eqn:E.
  - apply String.eqb_eq in E. subst. now rewrite lookup_mapDelete_same.
  - apply String.eqb_neq in E. now rewrite lookup_mapDelete_other.
Qed.

Lemma guardedCall_lookup_some (m : WebSocketMessage.t) (id0 id : string)
  (h0 h : Handler) (st : t) :
  lookup id (messageHandlers (fst (guardedCall m id0 h0 st))) = Some h ->
  lookup id (messageHandlers st) = Some h.
Proof.
  destruct (guardedCall_registry m id0 h0 st) as [E|E]; rewrite E;
    [auto | apply lookup_mapDelete_some].
Qed.

(** Only the stop closure changes the session id, on the message that
    confirms the stop. *)
Lemma guardedCall_sessionId (m : WebSocketMessage.t) (id : string) (h : Handler) (st : t) :
  String.eqb (WebSocketMessage.type m) "investigation_stopped" = false ->
  sessionId (fst (guardedCall m id h st)) = sessionId st.
Proof.
  intro Htype. unfold guardedCall. destruct h as [q|q|throws]; simpl.
  - unfold runHandleStart. split_conditions; reflexivity.
  - unfold runHandleStop. rewrite Htype. simpl. split_conditions; reflexivity.
  - destruct (throws m); reflexivity.
Qed.

(** A handler other than the start closure leaves the service waiting. *)
Lemma awaitingStart_bystander (p : nat) (sid : string) (m : WebSocketMessage.t)
  (id0 : string) (h0 : Handler) (st : t) :
  String.eqb (WebSocketMessage.type m) "investigation_stopped" = false ->
  awaitingStart p sid st ->
  lookup id0 (messageHandlers st) = Some h0 ->
  id0 <> "start_handler" ->
  awaitingStart p sid (fst (guardedCall m id0 h0 st)).
Proof.
  intros Htype (Hinv & Hreg & Hsid & Hpend & Hstop) H0 Hne.
  pose proof (Hinv _ (lookup_In _ _ _ H0)) as Hplace.
  repeat split.
  - apply (closuresInPlace_shrinks st); [apply shrinks_guardedCall | exact Hinv].
  - rewrite guardedCall_lookup_other; auto.
  - now rewrite guardedCall_sessionId.
  - unfold guardedCall. destruct h0 as [q|q|throws]; simpl.
    + unfold closureInPlace in Hplace. simpl in Hplace. tauto.
    + rewrite promiseState_runHandleStop_frame; [exact Hpend|].
      left. intro E. subst q. apply (Hstop p); [|reflexivity].
      unfold closureInPlace in Hplace. simpl in Hplace.
      destruct Hplace as [E _]. now subst id0.
    + destruct (throws m); exact Hpend.
  - intros q Hq. apply Hstop. now apply guardedCall_lookup_some in Hq.
Qed.

Lemma awaitingStart_set_calls (p : nat) (sid : string)
  (c : list (string * WebSocketMessage.t)) (st : t) :
  awaitingStart p sid st -> awaitingStart p sid (set_calls c st).
Proof. intros (Hinv & H). split; [exact Hinv | exact H]. Qed.

(** When the start closure settles its promise on a message, so does
    the dispatch of the message. *)
Lemma forEach_settles (p : nat) (sid : string) (m : WebSocketMessage.t) (outcome : Promise) :
  outcome <> Pending ->
  String.eqb (WebSocketMessage.type m) "investigation_stopped" = false ->
  (forall st, awaitingStart p sid st ->
              promiseState p (runHandleStart p m st) = outcome) ->
  forall ids st,
    awaitingStart p sid st -> In "start_handler" ids ->
    promiseState p (fst (forEach (guardedCall m) ids st)) = outcome.
Proof.
  intros Hout Htype Hsettles. induction ids as [|id0 rest IH]; intros st Hwait Hin.
  - contradiction.
  - rewrite forEach_guarded_step.
    pose proof Hwait as (_ & Hreg & _).
    destruct (String.eqb id0 "start_handler") eqn:E.
    + apply String.eqb_eq in E. subst id0. rewrite Hreg.
      rewrite promiseState_forEach_settled;
        unfold guardedCall; simpl;
        rewrite (Hsettles _ (awaitingStart_set_calls p sid _ st Hwait)); auto.
    + apply String.eqb_neq in E.
      assert (In "start_handler" rest) as Hin'
        by (destruct Hin; [congruence | assumption]).
      destruct (lookup id0 (messageHandlers st)) as [h0|] eqn:E0.
      * apply IH; [|exact Hin']. now apply awaitingStart_bystander.
      * now apply IH.
Qed.

Lemma handleMessage_settles (p : nat) (sid : string) (m : WebSocketMessage.t)
  (outcome : Promise) (st : t) :
  outcome <> Pending ->
  String.eqb (WebSocketMessage.type m) "investigation_stopped" = false ->
  (forall st, awaitingStart p sid st ->
              promiseState p (runHandleStart p m st) = outcome) ->
  awaitingStart p sid st ->
  promiseState p (fst (handleMessage m st)) = outcome.
Proof.
  intros Hout Htype Hsettles Hwait. apply (forEach_settles p sid); auto.
  destruct Hwait as (_ & Hreg & _). now apply lookup_some_In_ids in Hreg.
Qed.

Lemma startConfirmation_not_stopped (type : string) :
  startConfirmation type = true -> String.eqb type "investigation_stopped" = false.
Proof.
  unfold startConfirmation. intro H.
  repeat (apply orb_true_iff in H as [H|H]);
    apply String.eqb_eq in H; subst; reflexivity.
Qed.

(** The three ways in which the start closure settles its promise. *)
Lemma runHandleStart_confirmed (p : nat) (sid : string) (m : WebSocketMessage.t) (st : t) :
  startConfirmation (WebSocketMessage.type m) = true ->
  WebSocketMessage.sessionId m = Some sid ->
  awaitingStart p sid st ->
  promiseState p (runHandleStart p m st) = Resolved (Some sid).
Proof.
  intros Htype Hm Hwait. pose proof (awaitingStart_in_range _ _ _ Hwait) as Hlt.
  destruct Hwait as (_ & _ & Hsid & Hpend & _).
  unfold runHandleStart. rewrite Htype, Hm, Hsid. simpl.
  rewrite String.eqb_refl. rewrite Hsid.
  now apply promiseState_resolve_same.
Qed.

Lemma runHandleStart_investigation_error (p : nat) (sid : string)
  (m : WebSocketMessage.t) (st : t) :
  WebSocketMessage.type m = "investigation_error" ->
  awaitingStart p sid st ->
  promiseState p (runHandleStart p m st) =
  Rejected (or_default (WebSocketMessage.error m)
              (or_default (WebSocketMessage.message m) "Investigation failed to start")).
Proof.
  intros Htype Hwait. pose proof (awaitingStart_in_range _ _ _ Hwait) as Hlt.
  destruct Hwait as (_ & _ & Hsid & Hpend & _).
  unfold runHandleStart. rewrite Htype. simpl.
  now apply promiseState_reject_same.
Qed.

Lemma runHandleStart_error (p : nat) (sid text : string)
  (m : WebSocketMessage.t) (st : t) :
  WebSocketMessage.type m = "error" ->
  WebSocketMessage.message m = Some text ->
  includes "investigation" text = true ->
  awaitingStart p sid st ->
  promiseState p (runHandleStart p m st) = Rejected text.
Proof.
  intros Htype Hm Htext Hwait. pose proof (awaitingStart_in_range _ _ _ Hwait) as Hlt.
  destruct Hwait as (_ & _ & Hsid & Hpend & _).
  destruct text as [|c r]; [discriminate Htext|].
  unfold runHandleStart. rewrite Htype, Hm, Htext. simpl.
  now apply promiseState_reject_same.
Qed.

(** The call of [startInvestigation] on an open socket leaves the
    service waiting, with the request sent and the timer set. *)
Lemma startInvestigation_awaiting (company bill description stamp : string) (st : t) :
  closuresInPlace st -> isConnected st = true ->
  let st1 := fst (startInvestigation company bill description stamp st) in
  let p := snd (startInvestigation company bill description stamp st) in
  awaitingStart p ("session_" +++ stamp) st1 /\
  sent st1 = sent st ++ [start_investigation ("session_" +++ stamp) company bill] /\
  timers st1 = timers st ++ [{| delay := 30000%N; action := startTimeout p |}].
Proof.
  intros Hinv Hopen.
  pose proof (closuresInPlace_startInvestigation company bill description stamp st Hinv)
    as Hinv1.
  unfold startInvestigation in *. simpl in *.
  replace (isConnected (set_promises (promises st ++ [Pending]) st)) with true in *
    by (symmetry; exact Hopen).
  simpl in *. repeat split.
  - exact Hinv1.
  - apply lookup_mapSet_same.
  - unfold promiseState. simpl. rewrite app_nth2 by lia.
    now rewrite Nat.sub_diag.
  - intros q Hq Eq. subst q. simpl in Hq.
    rewrite lookup_mapSet_other in Hq by discriminate.
    apply lookup_In in Hq. apply Hinv in Hq. destruct Hq as [_ Hq]. lia.
Qed.

(** The timer of [startInvestigation] falls due while the promise is
    pending. *)
Lemma startTimeout_outcome (p : nat) (st : t) :
  p < List.length (promises st) -> promiseState p st = Pending ->
  promiseState p (runTimer (startTimeout p) st) =
  if truthy (sessionId st) && isConnected st
  then Resolved (sessionId st)
  else Rejected "Investigation start timeout - no server response".
Proof.
  intros Hlt Hpend. simpl.
  change (isConnected (offMessage "start_handler" st)) with (isConnected st).
  destruct (truthy (sessionId st) && isConnected st).
  - now apply promiseState_resolve_same.
  - now apply promiseState_reject_same.
Qed.

Lemma runHandleStart_ignored (p : nat) (sid : string) (m : WebSocketMessage.t) (st : t) :
  ignoredByStart sid m = true -> sessionId st = Some sid ->
  runHandleStart p m st = st.
Proof.
  unfold ignoredByStart, runHandleStart. intros H Hsid. rewrite Hsid.
  repeat (apply andb_true_iff in H as [H ?]).
  repeat match goal with
         | H : negb _ = true |- _ => apply negb_true_iff in H; rewrite H
         end.
  reflexivity.
Qed.

Lemma forEach_keeps_waiting (p : nat) (sid : string) (m : WebSocketMessage.t) :
  ignoredByStart sid m = true ->
  forall ids st,
    awaitingStart p sid st ->
    awaitingStart p sid (fst (forEach (guardedCall m) ids st)).
Proof.
  intros Hign. induction ids as [|id0 rest IH]; intros st Hwait; [exact Hwait|].
  rewrite forEach_guarded_step.
  destruct (lookup id0 (messageHandlers st)) as [h0|] eqn:E0; [|now apply IH].
  apply IH. destruct (String.eqb id0 "start_handler") eqn:E.
  - apply String.eqb_eq in E. subst id0.
    pose proof Hwait as (_ & Hreg & Hsid & _).
    rewrite Hreg in E0. inversion E0; subst h0.
    unfold guardedCall. simpl.
    rewrite (runHandleStart_ignored p sid m _ Hign) by exact Hsid.
    now apply awaitingStart_set_calls.
  - apply String.eqb_neq in E. apply awaitingStart_bystander; auto.
    unfold ignoredByStart in Hign.
    apply andb_true_iff in Hign as [_ Hign]. now apply negb_true_iff.
Qed.

End WebSocketFacts.

(* ================================================================== *)
(** ** The transport: reconnection *)
(* ================================================================== *)

Module ReconnectSpec.
Import WebSocketService TransportInvariants WebSocketFacts.



(** C10.  An open event sets the attempt counter to 0, whatever it was,
    so that the next closure that was not asked for schedules a
    reconnect again, at delay 0; and the reconnects of a run can be
    more than 5 in all. *)
Theorem open_resets_counter :
  (forall st k, reconnectAttempts (step st (socketOpens k)) = 0) /\
  (forall st k k',
      isManualClose st = false ->
      timers (step (step st (socketOpens k)) (socketCloses k')) =
      timers st ++ [{| delay := 0%N; action := reconnect |}]) /\
  (exists actions,
      5 < reconnectsDone TransportSamples.connected actions /\
      0 < pendingReconnects (run TransportSamples.connected actions)).
Proof.
  repeat split.
  - intros st k. simpl. now destruct (onopen_fields k (setReadyState k OPEN st)).
  - intros st k k' Hm. simpl. rewrite onclose_timers.
    destruct (onopen_fields k (setReadyState k OPEN st)) as (Hc & Hf & Ht).
    simpl in *. rewrite Hc, Hf, Ht, Hm. reflexivity.
  - exists TransportSamples.sixAttempts. vm_compute. split; lia.
Qed.

(** After five failed reconnects the budget is used up; a new call of
    [connect] whose socket opens restores it, and the loss of that
    socket schedules a reconnect at once. *)
Lemma open_resets_counter_witness :
  let exhausted :=
    run TransportSamples.connected (TransportSamples.fiveFailures ++ [callConnect]) in
  reconnectAttempts exhausted = 5 /\
  timers (step (step exhausted (socketOpens 6)) (socketCloses 6)) =
  [{| delay := 0%N; action := reconnect |}].
Proof.
  split; [vm_compute; reflexivity|].
  apply (proj1 (proj2 open_resets_counter)
           (run TransportSamples.connected
                (TransportSamples.fiveFailures ++ [callConnect])) 6 6).
  vm_compute. reflexivity.
Defined.

End ReconnectSpec.

(* ================================================================== *)
(** ** The transport: dispatch *)
(* ================================================================== *)

Module DispatchSpec.
Import WebSocketService TransportInvariants WebSocketFacts.

(** C8.  In every state that the service reaches, the dispatch of a
    message returns without an exception and calls every registered
    handler with the message, and no other, whatever the handlers
    called before throw; a subscriber that throws on the message is not
    registered afterwards, and no later dispatch calls it. *)
Theorem faulty_handler_removed (actions : list Action) (m : WebSocketMessage.t) :
  let st := run initial actions in
  let st' := fst (handleMessage m st) in
  snd (handleMessage m st) = false /\
  (exists visited,
      calls st' = calls st ++ map (fun id => (id, m)) visited /\
      forall id, In id visited <-> lookup id (messageHandlers st) <> None) /\
  (forall id throws,
      lookup id (messageHandlers st) = Some (subscriber throws) ->
      throws m = true ->
      lookup id (messageHandlers st') = None /\
      forall m2, exists visited2,
        calls (fst (handleMessage m2 st')) =
          calls st' ++ map (fun id2 => (id2, m2)) visited2 /\
        ~ In id visited2).
Proof.
  intros st st'.
  assert (closuresInPlace st) as Hinv
    by (apply closuresInPlace_run, closuresInPlace_initial).
  split; [apply forEach_returns|]. split; [now apply handleMessage_visits|].
  intros id throws Hreg Hthrows.
  assert (lookup id (messageHandlers st') = None) as Hgone.
  { apply (forEach_removes_thrower m id throws _ Hthrows). right.
    split; [exact Hreg | now apply lookup_some_In_ids in Hreg]. }
  split; [exact Hgone|]. intro m2.
  assert (closuresInPlace st') as Hinv'
    by (apply (closuresInPlace_shrinks st), Hinv; apply shrinks_handleMessage).
  destruct (handleMessage_visits m2 st' Hinv') as (visited2 & Hcalls & Hiff).
  exists visited2. split; [exact Hcalls|].
  intro Hin. now apply Hiff in Hin.
Qed.

(** With three subscribers of which the second throws: all three are
    called, the second is deleted and a second message reaches the two
    others only. *)
Lemma faulty_handler_removed_witness :
  let st := run initial TransportSamples.threeSubscribers in
  let m := TransportSamples.sampleMessage "agent_communication" None in
  let st' := fst (handleMessage m st) in
  calls st' = [("ui", m); ("faulty", m); ("logger", m)] /\
  (lookup "faulty" (messageHandlers st') = None /\
   forall m2, exists visited2,
     calls (fst (handleMessage m2 st')) =
       calls st' ++ map (fun id2 => (id2, m2)) visited2 /\
     ~ In "faulty" visited2).
Proof.
  split; [vm_compute; reflexivity|].
  apply (proj2 (proj2 (faulty_handler_removed TransportSamples.threeSubscribers
                         (TransportSamples.sampleMessage "agent_communication" None)))
           "faulty" (fun _ => true)); reflexivity.
Defined.

End DispatchSpec.

(* ================================================================== *)
(** ** The transport: start of an investigation *)
(* ================================================================== *)

Module StartSpec.
Import JS WebSocketService TransportInvariants WebSocketFacts.

(** C5.  A call of [startInvestigation] on an open socket sends the
    request with a fresh session id and leaves the service waiting,
    with a timer of 30 s.  While it waits, a message that neither
    closure acts on leaves it waiting; a message of type
    investigation_started, agent_communication or tool_call_start with
    the session id resolves the promise with that id; a message of type
    investigation_error rejects it, and so does a message of type error
    whose text mentions the investigation.  When the timer falls due
    with the promise still pending, the promise is resolved if a
    session id exists and the socket is open, and rejected with the
    timeout error otherwise. *)
Theorem start_investigation_outcomes :
  (forall st company bill description stamp,
      closuresInPlace st -> isConnected st = true ->
      let st1 := fst (startInvestigation company bill description stamp st) in
      let p := snd (startInvestigation company bill description stamp st) in
      awaitingStart p ("session_" +++ stamp) st1 /\
      sent st1 = sent st ++ [start_investigation ("session_" +++ stamp) company bill] /\
      timers st1 = timers st ++ [{| delay := 30000%N; action := startTimeout p |}]) /\
  (forall p sid st m,
      awaitingStart p sid st -> ignoredByStart sid m = true ->
      awaitingStart p sid (fst (handleMessage m st))) /\
  (forall p sid st m,
      awaitingStart p sid st ->
      startConfirmation (WebSocketMessage.type m) = true ->
      WebSocketMessage.sessionId m = Some sid ->
      promiseState p (fst (handleMessage m st)) = Resolved (Some sid)) /\
  (forall p sid st m,
      awaitingStart p sid st ->
      WebSocketMessage.type m = "investigation_error" ->
      promiseState p (fst (handleMessage m st)) =
      Rejected (or_default (WebSocketMessage.error m)
                  (or_default (WebSocketMessage.message m)
                     "Investigation failed to start"))) /\
  (forall p sid st m text,
      awaitingStart p sid st ->
      WebSocketMessage.type m = "error" ->
      WebSocketMessage.message m = Some text ->
      includes "investigation" text = true ->
      promiseState p (fst (handleMessage m st)) = Rejected text) /\
  (forall p st i d,
      nth_error (timers st) i = Some {| delay := d; action := startTimeout p |} ->
      p < List.length (promises st) ->
      promiseState p st = Pending ->
      promiseState p (step st (timerFires i)) =
      if truthy (sessionId st) && isConnected st
      then Resolved (sessionId st)
      else Rejected "Investigation start timeout - no server response").
Proof.
  split; [intros st company bill description stamp;
          apply startInvestigation_awaiting|].
  split; [intros p sid st m Hwait Hign; now apply forEach_keeps_waiting|].
  split; [|split; [|split]].
  - intros p sid st m Hwait Htype Hsid.
    apply (handleMessage_settles p sid); auto; [discriminate| |].
    + now apply startConfirmation_not_stopped.
    + intros st0. now apply runHandleStart_confirmed.
  - intros p sid st m Hwait Htype.
    apply (handleMessage_settles p sid); auto; [discriminate| |].
    + now rewrite Htype.
    + intros st0. now apply runHandleStart_investigation_error.
  - intros p sid st m text Hwait Htype Hm Htext.
    apply (handleMessage_settles p sid); auto; [discriminate| |].
    + now rewrite Htype.
    + intros st0. now apply runHandleStart_error.
  - intros p st i d Hnth Hlt Hpend. simpl. unfold fireTimer. rewrite Hnth.
    cbn [action].
    apply (startTimeout_outcome p (set_timers (remove_nth i (timers st)) st));
      assumption.
Qed.

(** After the sample call, a first agent communication of the session
    resolves the promise; without any message, so does the timer, the
    socket being open. *)
Lemma start_investigation_outcomes_witness :
  promiseState 1
    (fst (handleMessage
            (TransportSamples.sampleMessage "agent_communication"
               (Some TransportSamples.startedSession))
            TransportSamples.starting))
  = Resolved (Some TransportSamples.startedSession) /\
  promiseState 1 (step TransportSamples.starting (timerFires 0))
  = Resolved (Some TransportSamples.startedSession).
Proof.
  pose (st0 := run initial [ callOnMessage "realtime_service" (fun _ => false);
                             callConnect; socketOpens 0 ]).
  destruct (proj1 start_investigation_outcomes st0
              "Acme" "S. 383-116" "Investigation" "17_k3x9"
              (closuresInPlace_run _ _ closuresInPlace_initial) eq_refl)
    as [Hwait _].
  split.
  - exact (proj1 (proj2 (proj2 start_investigation_outcomes))
             1 TransportSamples.startedSession TransportSamples.starting
             (TransportSamples.sampleMessage "agent_communication"
                (Some TransportSamples.startedSession))
             Hwait eq_refl eq_refl).
  - apply (proj2 (proj2 (proj2 (proj2 (proj2 start_investigation_outcomes))))
             1 TransportSamples.starting 0 30000%N).
    + reflexivity.
    + vm_compute. lia.
    + reflexivity.
Defined.

End StartSpec.

(* ================================================================== *)
(** ** Properties of the orchestrator *)
(* ================================================================== *)

Module RealTimeFacts.
Import JS TableParser RealTimeService OrchestratorInvariants.

(** *** The sort of the digest *)

Lemma insertByRank_perm (m : CongressMember) (l : list CongressMember) :
  Permutation (insertByRank m l) (m :: l).
Proof.
  induction l as [|x r IH]; simpl; [apply Permutation_refl|].
  destruct (rank m <=? rank x)%N; [apply Permutation_refl|].
  apply perm_trans with (x :: m :: r); [now apply perm_skip | apply perm_swap].
Qed.

Lemma sortByRank_perm (l : list CongressMember) : Permutation (sortByRank l) l.
Proof.
  induction l as [|m r IH]; simpl; [apply perm_nil|].
  apply perm_trans with (m :: sortByRank r);
    [apply insertByRank_perm | now apply perm_skip].
Qed.

Lemma insertByRank_head (m x : CongressMember) (l : list CongressMember) :
  rankLe x m -> HdRel rankLe x l -> HdRel rankLe x (insertByRank m l).
Proof.
  intros Hxm Hhd. destruct l as [|y r]; simpl; [now constructor|].
  destruct (rank m <=? rank y)%N; constructor; [exact Hxm|].
  now inversion Hhd.
Qed.

Lemma insertByRank_sorted (m : CongressMember) (l : list CongressMember) :
  Sorted rankLe l -> Sorted rankLe (insertByRank m l).
Proof.
  induction l as [|x r IH]; simpl; intro Hs.
  - constructor; constructor.
  - destruct (rank m <=? rank x)%N eqn:E.
    + constructor; [exact Hs|]. constructor. now apply N.leb_le.
    + inversion Hs; subst. constructor; [now apply IH|].
      apply insertByRank_head; [|assumption].
      apply N.leb_gt in E. unfold rankLe. lia.
Qed.

Lemma sortByRank_sorted (l : list CongressMember) : Sorted rankLe (sortByRank l).
Proof.
  induction l as [|m r IH]; simpl; [constructor|].
  now apply insertByRank_sorted.
Qed.

Lemma firstn_sorted (n : nat) (l : list CongressMember) :
  Sorted rankLe l -> Sorted rankLe (firstn n l).
Proof.
  revert n. induction l as [|x r IH]; intros [|n] Hs; simpl; try constructor.
  - apply IH. now inversion Hs.
  - inversion Hs; subst. destruct r as [|y r']; destruct n; simpl; constructor.
    now inversion H2.
Qed.

(** The digest shows at most ten members, in ascending rank order,
    taken from the front of the sorted member list. *)
Lemma topMembers_spec (parsedTable : ParsedTable) :
  Sorted rankLe (topMembers parsedTable) /\
  List.length (topMembers parsedTable) = Nat.min 10 (List.length (members parsedTable)) /\
  incl (topMembers parsedTable) (members parsedTable).
Proof.
  unfold topMembers. repeat split.
  - apply firstn_sorted, sortByRank_sorted.
  - rewrite length_firstn.
    now rewrite (Permutation_length (sortByRank_perm (members parsedTable))).
  - intros m Hin.
    apply (Permutation_in m (sortByRank_perm (members parsedTable))).
    rewrite <- (firstn_skipn 10 (sortByRank (members parsedTable))).
    apply in_or_app. now left.
Qed.

(** *** What is handed to the callback *)

Lemma hands_nothing (P : AgentCommunication.t -> Prop) (rt rt' : t) :
  delivered rt' = delivered rt -> hands P rt rt'.
Proof. intro H. exists []. rewrite app_nil_r. split; [exact H | constructor]. Qed.

Lemma hands_one (P : AgentCommunication.t -> Prop) (cb : Callback)
  (c : AgentCommunication.t) (rt0 rt : t) :
  delivered rt = delivered rt0 -> P c -> hands P rt0 (callCallback cb c rt).
Proof.
  intros H Hc. exists [(cb, c)]. simpl. rewrite H. split; [reflexivity|].
  constructor; [exact Hc | constructor].
Qed.

Lemma handleToolCallStart_plain (m : WebSocketMessage.t) (now : N) (rt : t) :
  hands plain rt (handleToolCallStart m now rt).
Proof.
  unfold handleToolCallStart.
  destruct (WebSocketMessage.data m), (communicationCallback rt);
    try (now apply hands_nothing).
  now apply hands_one.
Qed.

Lemma handleToolCallResult_plain (m : WebSocketMessage.t) (now : N) (rt : t) :
  hands plain rt (handleToolCallResult m now rt).
Proof.
  unfold handleToolCallResult.
  destruct (WebSocketMessage.data m), (communicationCallback rt);
    try (now apply hands_nothing).
  now apply hands_one.
Qed.

Lemma handleInvestigationComplete_plain (m : WebSocketMessage.t) (now : N) (rt : t) :
  hands plain rt (handleInvestigationComplete m now rt).
Proof.
  unfold handleInvestigationComplete. simpl.
  destruct (communicationCallback rt); [|now apply hands_nothing].
  now apply hands_one.
Qed.

Lemma handleInvestigationConcluded_plain (m : WebSocketMessage.t) (now : N) (rt : t) :
  hands plain rt (handleInvestigationConcluded m now rt).
Proof.
  unfold handleInvestigationConcluded. simpl.
  destruct (communicationCallback rt) as [cb|]; [|now apply hands_nothing].
  destruct (WebSocketMessage.data m) as [d|].
  - destruct (Payload.table_available d), (Payload.table_data d);
      try (now apply hands_one).
    eexists [_; _]. simpl. rewrite <- app_assoc. split; [reflexivity|].
    repeat constructor.
  - now apply hands_one.
Qed.

Lemma handleWebSocketError_plain (m : WebSocketMessage.t) (now : N) (rt : t) :
  hands plain rt (handleWebSocketError m now rt).
Proof.
  unfold handleWebSocketError.
  destruct (communicationCallback rt); [|now apply hands_nothing].
  now apply hands_one.
Qed.

Lemma handleInvestigationError_plain (m : WebSocketMessage.t) (now : N) (rt : t) :
  hands plain rt (handleInvestigationError m now rt).
Proof.
  unfold handleInvestigationError. simpl.
  destruct (communicationCallback rt); [|now apply hands_nothing].
  now apply hands_one.
Qed.

(** Only the agent communications go through the enrichment pass:
    what the other message types hand over carries no table data. *)
Lemma other_types_plain (m : WebSocketMessage.t) (now : N) (rt : t) :
  WebSocketMessage.type m <> "agent_communication" ->
  hands plain rt (handleWebSocketMessage m now rt).
Proof.
  intro Hne. unfold handleWebSocketMessage.
  apply String.eqb_neq in Hne. rewrite Hne.
  repeat match goal with
         | |- hands _ _ (if ?b then _ else _) => destruct b
         end;
    auto using handleToolCallStart_plain, handleToolCallResult_plain,
      handleInvestigationComplete_plain, handleInvestigationConcluded_plain,
      handleWebSocketError_plain, handleInvestigationError_plain, hands_nothing.
Qed.

(** A table that the parser returns has members. *)
Lemma parsed_table_has_members (content : string) (parsedTable : ParsedTable) :
  parseCongressTable content = Some parsedTable ->
  (0 <? List.length (members parsedTable)) = true.
Proof.
  unfold parseCongressTable, parseOrchestratorTable.
  destruct (detectDualTables content).
  - unfold parseDualTables.
    destruct (List.length _ =? 0) eqn:E; [discriminate|].
    intro H. inversion H; subst; clear H. simpl.
    apply Nat.ltb_lt. apply Nat.eqb_neq in E. lia.
  - unfold parseSingleTable.
    destruct (negb (detectTableInMessage content)); [discriminate|].
    destruct (extractTableSection content) as [sec|]; [|discriminate].
    destruct (is_empty sec); [discriminate|].
    destruct (List.length _ =? 0) eqn:E; [discriminate|].
    intro H. inversion H; subst; clear H. simpl.
    apply Nat.ltb_lt. apply Nat.eqb_neq in E. lia.
Qed.

End RealTimeFacts.

(* ================================================================== *)
(** ** The orchestrator: specification *)
(* ================================================================== *)

Module OrchestratorSpec.
Import JS TableParser RealTimeService OrchestratorInvariants RealTimeFacts.

(** C1, as stated, fails: a tool result whose summary holds a table is
    handed to the callback as a tool call, without table data, although
    the table parser finds a table with members in its content and the
    enrichment pass would have changed it. *)
Lemma tool_result_is_not_enriched :
  exists c t,
    delivered (handleWebSocketMessage SessionSamples.toolResultTable 0 SessionSamples.listening)
      = [(1, c)] /\
    AgentCommunication.type c = "tool_call" /\
    AgentCommunication.tableData c = None /\
    parseCongressTable (contentToCheck c) = Some t /\
    List.length (members t) = 3 /\
    checkForTableContent c <> c.
Proof.
  eexists. eexists. split; [vm_compute; reflexivity|].
  split; [reflexivity|]. split; [reflexivity|].
  split; [vm_compute; reflexivity|]. split; [reflexivity|].
  vm_compute. discriminate.
Qed.

(** C1, amended.  A communication made from an agent_communication
    message is passed through [checkForTableContent] before it is
    handed to the callback.  When the table parser finds a table in its
    [fullContent] (or [simplified]), the communication is changed: the
    parsed table, its members sorted by rank by the digest, becomes
    [tableData]; the type becomes table_results; [fullContent] becomes
    the digest of the first ten members in ascending rank order;
    [simplified] becomes the one-line member count; the status becomes
    completed; the other fields stay.  Without a table the communication
    is handed over as it is.  The communications made from the other
    message types are not passed through the table parser, and carry no
    table data. *)
Theorem enrichment_of_agent_communications :
  (forall m now rt cb c,
      WebSocketMessage.type m = "agent_communication" ->
      communicationCallback rt = Some cb ->
      transformWebSocketToAgentCommunication m now = Some c ->
      handleWebSocketMessage m now rt = callCallback cb (checkForTableContent c) rt) /\
  (forall c,
      match parseCongressTable (contentToCheck c) with
      | Some parsedTable =>
          let c' := checkForTableContent c in
          AgentCommunication.tableData c' = Some (sortedInPlace parsedTable) /\
          Permutation (members (sortedInPlace parsedTable)) (members parsedTable) /\
          Sorted rankLe (members (sortedInPlace parsedTable)) /\
          AgentCommunication.type c' = "table_results" /\
          AgentCommunication.fullContent c' =
            Some (formatHeading parsedTable +++
                  String.concat "" (map formatMember (topMembers parsedTable)) +++
                  formatFooter) /\
          Sorted rankLe (topMembers parsedTable) /\
          List.length (topMembers parsedTable) =
            Nat.min 10 (List.length (members parsedTable)) /\
          incl (topMembers parsedTable) (members parsedTable) /\
          AgentCommunication.simplified c' =
            "Congress Investigation Results - " +++
            string_of_nat (List.length (members parsedTable)) +++ " members analyzed" /\
          AgentCommunication.status c' = "completed" /\
          AgentCommunication.id c' = AgentCommunication.id c /\
          AgentCommunication.timestamp c' = AgentCommunication.timestamp c /\
          AgentCommunication.agent c' = AgentCommunication.agent c /\
          AgentCommunication.toolCalls c' = AgentCommunication.toolCalls c /\
          AgentCommunication.results c' = AgentCommunication.results c
      | None => checkForTableContent c = c
      end) /\
  (forall m now rt,
      WebSocketMessage.type m <> "agent_communication" ->
      hands plain rt (handleWebSocketMessage m now rt)).
Proof.
  split; [|split].
  - intros m now rt cb c Htype Hcb Hc.
    unfold handleWebSocketMessage. rewrite Htype. simpl.
    unfold handleAgentCommunication. now rewrite Hc, Hcb.
  - intro c. unfold checkForTableContent.
    destruct (parseCongressTable (contentToCheck c)) as [parsedTable|] eqn:E;
      [|reflexivity].
    rewrite (parsed_table_has_members _ _ E). simpl.
    destruct (topMembers_spec parsedTable) as (Hs & Hl & Hi).
    repeat split; auto.
    + apply sortByRank_perm.
    + apply sortByRank_sorted.
  - exact other_types_plain.
Qed.

(** The sample agent communication with a table of three members is
    handed over as table results, its members in rank order. *)
Lemma enrichment_of_agent_communications_witness :
  exists c,
    transformWebSocketToAgentCommunication SessionSamples.agentTable 0 = Some c /\
    handleWebSocketMessage SessionSamples.agentTable 0 SessionSamples.listening =
      callCallback 1 (checkForTableContent c) SessionSamples.listening /\
    AgentCommunication.type (checkForTableContent c) = "table_results" /\
    option_map (fun parsedTable => map rank (members parsedTable))
               (AgentCommunication.tableData (checkForTableContent c))
      = Some [1; 2; 3]%N.
Proof.
  eexists. split; [vm_compute; reflexivity|]. split.
  - apply (proj1 enrichment_of_agent_communications
             SessionSamples.agentTable 0%N SessionSamples.listening 1);
      reflexivity.
  - split; vm_compute; reflexivity.
Defined.

(** C9.  A call of [startSession] during an active session throws at
    once and leaves the service as it was: the active flag, the session
    id, the callback, the transport and with it the requests sent. *)
Theorem startSession_while_active (company bill stamp : string)
  (callback : Callback) (rt : t) :
  sessionActive rt = true ->
  startSession company bill callback stamp rt =
    (rt, thrown "Investigation session is already active") /\
  let rt' := fst (startSession company bill callback stamp rt) in
  sessionActive rt' = true /\
  currentSessionId rt' = currentSessionId rt /\
  communicationCallback rt' = communicationCallback rt /\
  WebSocketService.sent (websocketService rt') =
    WebSocketService.sent (websocketService rt).
Proof.
  intro Hactive. unfold startSession. rewrite Hactive. simpl. auto.
Qed.

Lemma startSession_while_active_witness :
  startSession "Acme" "S. 383-116" 2 "18_p0q1" SessionSamples.activeSession =
    (SessionSamples.activeSession, thrown "Investigation session is already active").
Proof.
  apply (startSession_while_active "Acme" "S. 383-116" "18_p0q1" 2
           SessionSamples.activeSession).
  reflexivity.
Defined.

End OrchestratorSpec.

(* ================================================================== *)
(** ** Properties of the safe operations *)
(* ================================================================== *)

Module SafeOperationsFacts.
Import JS JSFacts SafeOperations.

Lemma startsWith_toLowerCase (p s : string) :
  startsWith p s = true -> startsWith (toLowerCase p) (toLowerCase s) = true.
Proof.
revert s; induction p as [|a p IH]; intros [|b s] H; simpl in *; try easy.
apply andb_true_iff in H as [Hab H].
apply char_eqb_true in Hab; subst b.
unfold char_eqb; rewrite Ascii.eqb_refl; simpl.
now apply IH.
Qed.

Lemma includes_toLowerCase (p s : string) :
  includes p s = true -> includes (toLowerCase p) (toLowerCase s) = true.
Proof.
induction s as [|b s IH]; simpl; intros H.
- apply orb_true_iff in H as [H|H]; [|discriminate H].
  destruct p; [reflexivity|discriminate H].
- apply orb_true_iff in H as [H|H].
  + apply (startsWith_toLowerCase p (String b s)) in H.
    simpl in H. now rewrite H.
  + rewrite (IH H). apply orb_true_r.
Qed.

Lemma sliceLast_suffix {A : Type} (n : nat) (l : list A) :
  exists dropped, l = dropped ++ sliceLast n l.
Proof.
destruct n as [|n]; simpl.
- now exists [].
- exists (firstn (List.length l - S n) l). symmetry. apply firstn_skipn.
Qed.

Lemma sliceLast_length {A : Type} (n : nat) (l : list A) :
  0 < n -> List.length (sliceLast n l) = Nat.min (List.length l) n.
Proof.
destruct n as [|n]; [lia|]. intros _. simpl. rewrite length_skipn. lia.
Qed.

Lemma limitArraySize_length {A : Type} (l : list A) (n : nat) :
  0 < n -> List.length (limitArraySize l n) = Nat.min (List.length l) n.
Proof.
intros Hn. unfold limitArraySize.
destruct (List.length l <=? n) eqn:E.
- apply Nat.leb_le in E. lia.
- now apply sliceLast_length.
Qed.

Lemma limitArraySize_suffix {A : Type} (l : list A) (n : nat) :
  exists dropped, l = dropped ++ limitArraySize l n.
Proof.
unfold limitArraySize. destruct (List.length l <=? n).
- now exists [].
- apply sliceLast_suffix.
Qed.

Lemma limitArraySize_within {A : Type} (l : list A) (n : nat) :
  List.length l <= n -> limitArraySize l n = l.
Proof.
intros H. unfold limitArraySize. apply Nat.leb_le in H. now rewrite H.
Qed.

(** Adding at the end and dropping the oldest entry when the bound is
    passed keeps the last [n] of everything added. *)
Lemma limitArraySize_push {A : Type} (l : list A) (x : A) (n : nat) :
  0 < n ->
  limitArraySize (l ++ [x]) n =
  (let pushed := limitArraySize l n ++ [x] in
   if n <? List.length pushed then tl pushed else pushed).
Proof.
intros Hn. unfold limitArraySize at 2.
destruct (List.length l <=? n) eqn:E.
- cbv zeta. unfold limitArraySize. rewrite length_app. simpl.
  apply Nat.leb_le in E.
  destruct (List.length l + 1 <=? n) eqn:E1.
  + apply Nat.leb_le in E1.
    destruct (n <? List.length l + 1) eqn:E2; [apply Nat.ltb_lt in E2; lia|reflexivity].
  + apply Nat.leb_gt in E1.
    destruct (n <? List.length l + 1) eqn:E2; [|apply Nat.ltb_ge in E2; lia].
    destruct n as [|n]; [lia|]. simpl.
    rewrite length_app; simpl.
    replace (List.length l + 1 - S n) with 1 by lia.
    destruct l; reflexivity.
- apply Nat.leb_gt in E. cbv zeta.
  destruct n as [|n]; [lia|].
  assert (Hs : List.length (sliceLast (S n) l) = S n).
  { rewrite sliceLast_length by lia. lia. }
  rewrite length_app, Hs. simpl List.length.
  replace (S n <? S n + 1) with true by (symmetry; apply Nat.ltb_lt; lia).
  unfold limitArraySize. rewrite length_app. simpl List.length.
  replace (List.length l + 1 <=? S n) with false by (symmetry; apply Nat.leb_gt; lia).
  unfold sliceLast. rewrite length_app. simpl List.length.
  replace (List.length l + 1 - S n) with (S (List.length l - S n)) by lia.
  rewrite !skipn_app.
  replace (S (List.length l - S n) - List.length l) with 0 by lia.
  replace (List.length l - S n - List.length l) with 0 by lia.
  simpl (skipn 0 _).
  remember (List.length l - S n) as k eqn:Hk.
  assert (Hlt : k < List.length l) by lia.
  clear - Hlt. revert k Hlt.
  induction l as [|a l IH]; intros k Hlt; simpl in Hlt; [lia|].
  destruct k as [|k]; [reflexivity|].
  change (skipn (S (S k)) (a :: l)) with (skipn (S k) l).
  change (skipn (S k) (a :: l)) with (skipn k l).
  destruct l as [|b l]; [simpl in Hlt; lia|].
  specialize (IH k ltac:(simpl in *; lia)).
  exact IH.
Qed.

(** X1. [limitArraySize(array, maxSize)] returns the end of the array:
    what it returns is the array without some of its first elements,
    and it has maxSize elements when the array is longer, all of them
    otherwise; with a maxSize of 0 the whole array comes back, since
    [slice(-0)] cuts nothing. *)
Theorem limitArraySize_keeps_newest {A : Type} (array : list A) (maxSize : nat) :
  (exists dropped, array = dropped ++ limitArraySize array maxSize) /\
  List.length (limitArraySize array maxSize) =
    (if maxSize =? 0 then List.length array
     else Nat.min (List.length array) maxSize).
Proof.
split; [apply limitArraySize_suffix|].
destruct maxSize as [|n]; simpl.
- unfold limitArraySize. now destruct (List.length array <=? 0).
- apply limitArraySize_length. lia.
Qed.

Lemma attempt_limited (max gap : Z) (s : RateLimiter * list Z) (now : Z) :
  limited max gap s -> limited max gap (attempt s now).
Proof.
destruct s as [rl made]. intros (Hm & Hg & Hc & Hs & Hl).
unfold attempt, canMakeCall.
set (rl1 := if (windowMs rl <? now - resetTime rl)%Z then _ else rl).
assert (H1 : maxCalls rl1 = max /\ cooldownMs rl1 = gap /\ lastCall rl1 = lastCall rl /\
             (0 <= callCount rl1 <= Z.max 0 max)%Z).
{ unfold rl1. destruct (windowMs rl <? now - resetTime rl)%Z; simpl; repeat split; try easy; lia. }
destruct H1 as (Hm1 & Hg1 & Hl1 & Hc1).
assert (Hkeep : limited max gap (rl1, made)).
{ unfold limited. rewrite Hl1. repeat split; try assumption; lia. }
clearbody rl1.
destruct (maxCalls rl1 <=? callCount rl1)%Z eqn:E1; [exact Hkeep|].
apply Z.leb_gt in E1.
destruct (now - lastCall rl1 <? cooldownMs rl1)%Z eqn:E2; [exact Hkeep|].
apply Z.ltb_ge in E2.
unfold limited, recordCall; simpl.
repeat split; try assumption; try lia.
destruct made as [|newest made]; [exact I|].
split; [|exact Hs]. rewrite <- Hl, <- Hl1, <- Hg1. exact E2.
Qed.

Lemma attempts_limited (max gap : Z) (times : list Z) (s : RateLimiter * list Z) :
  limited max gap s -> limited max gap (fold_left attempt times s).
Proof.
revert s; induction times as [|now times IH]; intros s H; simpl; [exact H|].
apply IH. now apply attempt_limited.
Qed.

(** X2. A caller that asks the rate limiter before every call and
    records the calls it may make never has more than maxCalls calls
    counted, whatever the times of its attempts, and the calls it makes
    are at least cooldownMs apart; the remaining calls that the limiter
    reports are then maxCalls less the calls counted. *)
Theorem guarded_calls_are_limited (max window gap : Z) (times : list Z) :
  let (rl, made) := attempts times (newRateLimiter max window gap) in
  (0 <= callCount rl <= Z.max 0 max)%Z /\
  spaced gap made /\
  getRemainingCalls rl = (Z.max 0 max - callCount rl)%Z.
Proof.
pose proof (attempts_limited max gap times (newRateLimiter max window gap, [])) as H.
unfold attempts.
destruct (fold_left attempt times (newRateLimiter max window gap, [])) as [rl made].
destruct H as (Hm & _ & Hc & Hs & _).
{ simpl. repeat split; try easy; lia. }
repeat split; try easy. unfold getRemainingCalls. rewrite Hm. lia.
Qed.

Lemma lower_char_idempotent (c : ascii) : lower_char (lower_char c) = lower_char c.
Proof.
destruct (is_upper c) eqn:E.
- assert (H : is_upper (ascii_of_nat (code c + 32)) = false).
  { unfold is_upper, code in *.
    apply andb_true_iff in E as [E1 E2].
    apply Nat.leb_le in E1, E2.
    rewrite nat_ascii_embedding by lia.
    replace (nat_of_ascii c + 32 <=? 90) with false by (symmetry; apply Nat.leb_gt; lia).
    apply andb_false_r. }
  unfold lower_char. now rewrite E, H.
- unfold lower_char. now rewrite !E.
Qed.

Lemma toLowerCase_idempotent (s : string) : toLowerCase (toLowerCase s) = toLowerCase s.
Proof.
induction s as [|c s IH]; simpl; [reflexivity|].
now rewrite lower_char_idempotent, IH.
Qed.

(** X3. [classifyError] does not see the case of the letters of the
    error text, and the errors it calls retryable are those of the
    types rate_limit, network and server. *)
Theorem classifyError_case_and_retry (text : string) :
  classifyError (toLowerCase text) = classifyError text /\
  isRetryable (classifyError text) =
    match kind (classifyError text) with
    | rate_limit | network | server => true
    | authentication | validation | unknown => false
    end.
Proof.
split.
- unfold classifyError. now rewrite toLowerCase_idempotent.
- unfold classifyError.
  repeat match goal with
  | |- context [if ?b then _ else _] => destruct b; try reflexivity
  end.
Qed.

End SafeOperationsFacts.

(* ================================================================== *)
(** ** Properties of the error handler and of the logger *)
(* ================================================================== *)

Module ErrorHandlerFacts.
Import JS JSFacts SafeOperations SafeOperationsFacts GlobalErrorHandler.

Lemma showUserNotification_queue (error : ErrorReport) (st : t) :
  errorQueue (showUserNotification error st) = errorQueue st.
Proof. unfold showUserNotification. now destruct (notifies error). Qed.

Lemma handleError_queue (all : list ErrorReport) (error : ErrorReport) (st : t) :
  errorQueue st = limitArraySize all maxErrors ->
  errorQueue (handleError error st) = limitArraySize (all ++ [error]) maxErrors.
Proof.
intros H. unfold handleError. rewrite showUserNotification_queue. simpl.
rewrite limitArraySize_push by (unfold maxErrors; lia).
now rewrite H.
Qed.

Lemma handleErrors_queue (errors all : list ErrorReport) (st : t) :
  errorQueue st = limitArraySize all maxErrors ->
  errorQueue (handleErrors errors st) = limitArraySize (all ++ errors) maxErrors.
Proof.
revert all st; induction errors as [|e errors IH]; intros all st H; simpl.
- now rewrite app_nil_r.
- change (all ++ e :: errors) with (all ++ [e] ++ errors). rewrite app_assoc.
  apply IH. now apply handleError_queue.
Qed.

(** X4. After [clearErrors()] the error queue holds the reports that
    were handled since, all of them up to 100 and the newest 100 beyond
    that, in the order of their arrival. *)
Theorem error_queue_keeps_newest (errors : list ErrorReport) (st : t) :
  errorQueue (handleErrors errors (clearErrors st)) = limitArraySize errors maxErrors.
Proof.
apply (handleErrors_queue errors [] (clearErrors st)). reflexivity.
Qed.



Lemma notified_names_cause (error : ErrorReport) :
  notifies error = true -> namesCause (getUserFriendlyMessage error).
Proof.
unfold notifies, getUserFriendlyMessage, namesCause.
destruct (type error); try discriminate.
intros H.
destruct (includes "429" (toLowerCase (message error))) eqn:E1; [now left|].
destruct (includes "rate limit" (toLowerCase (message error))) eqn:E2; [now left|].
destruct (includes "websocket" (toLowerCase (message error))) eqn:E3; [now right; left|].
destruct (includes "investigation" (toLowerCase (message error))) eqn:E4;
  [simpl; destruct (includes "connection" _); auto|].
exfalso.
repeat (apply orb_true_iff in H as [H|H]); apply includes_toLowerCase in H.
- change (toLowerCase "429") with "429" in H. congruence.
- change (toLowerCase "rate limit") with "rate limit" in H. congruence.
- change (toLowerCase "WebSocket") with "websocket" in H. congruence.
- change (toLowerCase "investigation") with "investigation" in H. congruence.
Qed.

Lemma handleError_toasts (error : ErrorReport) (st : t) :
  Forall namesCause (toasts st) -> Forall namesCause (toasts (handleError error st)).
Proof.
intros H. unfold handleError, showUserNotification.
destruct (notifies error) eqn:E; simpl; [|exact H].
apply Forall_app. split; [exact H|].
constructor; [now apply notified_names_cause|constructor].
Qed.

(** X6. Every toast that the error handler shows names a cause (the
    overloaded service, the lost connection or the investigation): the
    text for an unexpected error is never shown, since a report is
    only shown when its message has one of the words that
    [getUserFriendlyMessage] looks for. *)
Theorem toasts_name_a_cause (errors : list ErrorReport) :
  Forall namesCause (toasts (handleErrors errors initial)).
Proof.
assert (H : forall st, Forall namesCause (toasts st) ->
                       Forall namesCause (toasts (handleErrors errors st))).
{ induction errors as [|e errors IH]; intros st H; simpl; [exact H|].
  apply IH. now apply handleError_toasts. }
apply H. constructor.
Qed.

End ErrorHandlerFacts.

Module MessageLoggerFacts.
Import SafeOperations SafeOperationsFacts MessageLogger.

Lemma addLog_limit (all : list Entry) (e : Entry) (logs : list Entry) :
  logs = limitArraySize all maxLogs ->
  addLog (timestamp e) (direction e) (data e) logs = limitArraySize (all ++ [e]) maxLogs.
Proof.
intros H. unfold addLog.
replace {| timestamp := timestamp e; direction := direction e; data := data e |}
  with e by now destruct e.
rewrite limitArraySize_push by (unfold maxLogs; lia).
cbv zeta. rewrite <- H.
destruct (maxLogs <? List.length (logs ++ [e])) eqn:E; [|reflexivity].
apply Nat.ltb_lt in E.
assert (Hl : List.length logs <= maxLogs).
{ rewrite H, limitArraySize_length by (unfold maxLogs; lia). lia. }
rewrite length_app in E. simpl in E.
unfold sliceLast, maxLogs in *.
rewrite length_app. simpl List.length.
replace (List.length logs + 1 - 1000) with 1 by lia.
now destruct (logs ++ [e]).
Qed.

(** X7. After [clearLogs()] the logger holds the entries logged since,
    all of them up to 1000 and the newest 1000 beyond that, in the
    order in which they were logged. *)
Theorem logger_keeps_newest (entries logs : list Entry) :
  addLogs entries (clearLogs logs) = limitArraySize entries maxLogs.
Proof.
unfold clearLogs.
assert (H : forall all current, current = limitArraySize all maxLogs ->
            addLogs entries current = limitArraySize (all ++ entries) maxLogs).
{ induction entries as [|e entries IH]; intros all current H; simpl.
  - now rewrite app_nil_r.
  - change (all ++ e :: entries) with (all ++ [e] ++ entries). rewrite app_assoc.
    apply IH. now apply addLog_limit. }
apply (H [] []). reflexivity.
Qed.

End MessageLoggerFacts.

(* ================================================================== *)
(** ** Properties of the timeline of the dashboard *)
(* ================================================================== *)

Module DashboardFacts.
Import JS JSFacts SafeOperations SafeOperationsFacts Dashboard.

Lemma findIndex_some (id : string) (l : list AgentCommunication.t) (i : nat) :
  findIndex id l = Some i ->
  exists before old after,
    l = before ++ old :: after /\ List.length before = i /\ idOf old = id.
Proof.
revert i; induction l as [|c l IH]; intros i H; simpl in H; [discriminate H|].
destruct (String.eqb (idOf c) id) eqn:E.
- injection H as <-. apply String.eqb_eq in E.
  now exists [], c, l.
- destruct (findIndex id l) as [k|]; [|discriminate H].
  injection H as <-.
  destruct (IH k eq_refl) as (before & old & after & -> & <- & Hid).
  now exists (c :: before), old, after.
Qed.

Lemma findIndex_none (id : string) (l : list AgentCommunication.t) :
  findIndex id l = None -> ~ In id (ids l).
Proof.
induction l as [|c l IH]; simpl; intros H; [tauto|].
destruct (String.eqb (idOf c) id) eqn:E; [discriminate H|].
apply String.eqb_neq in E.
destruct (findIndex id l); [discriminate H|].
intros [Hc|Hl]; [contradiction|now apply IH].
Qed.

Lemma replaceAt_middle (c old : AgentCommunication.t) (before after : list AgentCommunication.t) :
  replaceAt (List.length before) c (before ++ old :: after) = before ++ c :: after.
Proof. induction before as [|b before IH]; simpl; [reflexivity|now rewrite IH]. Qed.

Lemma ids_middle (c old : AgentCommunication.t) (before after : list AgentCommunication.t) :
  idOf old = idOf c -> ids (before ++ c :: after) = ids (before ++ old :: after).
Proof. intros H. unfold ids. rewrite !map_app. simpl. now rewrite H. Qed.

Lemma NoDup_ids_filter (p : AgentCommunication.t -> bool) (l : list AgentCommunication.t) :
  NoDup (ids l) -> NoDup (ids (filter p l)).
Proof.
induction l as [|c l IH]; simpl; intros H; [constructor|].
inversion H as [|x r Hin Hr]; subst.
destruct (p c); simpl; [|now apply IH].
constructor; [|now apply IH].
intros Hc. apply Hin. unfold ids in *.
apply in_map_iff in Hc as (d & Hd & Hf). apply filter_In in Hf as [Hf _].
apply in_map_iff. now exists d.
Qed.

Lemma NoDup_ids_limit (l : list AgentCommunication.t) (n : nat) :
  NoDup (ids l) -> NoDup (ids (limitArraySize l n)).
Proof.
destruct (limitArraySize_suffix l n) as [dropped H].
intros Hn. rewrite H in Hn. unfold ids in *. rewrite map_app in Hn.
now apply NoDup_app_remove_l in Hn.
Qed.

Lemma In_limit (d : AgentCommunication.t) (l : list AgentCommunication.t) (n : nat) :
  In d (limitArraySize l n) -> In d l.
Proof.
destruct (limitArraySize_suffix l n) as [dropped H].
intros Hd. rewrite H. apply in_or_app. now right.
Qed.

Lemma In_limit_last (c : AgentCommunication.t) (l : list AgentCommunication.t) (n : nat) :
  0 < n -> In c (limitArraySize (l ++ [c]) n).
Proof.
intros Hn. rewrite limitArraySize_push by exact Hn. cbv zeta.
set (kept := limitArraySize l n).
destruct (n <? List.length (kept ++ [c])) eqn:E.
- apply Nat.ltb_lt in E. rewrite length_app in E. simpl in E.
  destruct kept as [|k kept]; [simpl in E; lia|].
  simpl. apply in_or_app. right. now left.
- apply in_or_app. right. now left.
Qed.

Lemma same_id_same_entry (l : list AgentCommunication.t) (a b : AgentCommunication.t) :
  NoDup (ids l) -> In a l -> In b l -> idOf a = idOf b -> a = b.
Proof.
induction l as [|c l IH]; simpl; intros Hn Ha Hb Hid; [contradiction|].
inversion Hn as [|x r Hin Hr]; subst.
destruct Ha as [Ha|Ha], Hb as [Hb|Hb]; subst.
- reflexivity.
- exfalso. apply Hin. rewrite Hid. unfold ids. now apply in_map.
- exfalso. apply Hin. rewrite <- Hid. unfold ids. now apply in_map.
- now apply IH.
Qed.

Lemma filter_length_le (p : AgentCommunication.t -> bool) (l : list AgentCommunication.t) :
  List.length (filter p l) <= List.length l.
Proof. induction l as [|c l IH]; simpl; [lia|]. destruct (p c); simpl; lia. Qed.

Lemma updateCommunications_invariant
  (prev : list AgentCommunication.t) (communication : AgentCommunication.t) :
  NoDup (ids prev) -> List.length prev <= 500 ->
  NoDup (ids (updateCommunications prev communication)) /\
  List.length (updateCommunications prev communication) <= 500.
Proof.
intros Hn Hl. unfold updateCommunications.
destruct (is_empty (idOf communication)); [now split|].
set (filteredPrev := filter _ prev).
assert (Hf : NoDup (ids filteredPrev)) by now apply NoDup_ids_filter.
destruct (findIndex (idOf communication) filteredPrev) as [i|] eqn:E.
- apply findIndex_some in E as (before & old & after & Hp & <- & Hid).
  rewrite Hp, replaceAt_middle. split.
  + apply NoDup_ids_limit. rewrite (ids_middle communication old) by exact Hid.
    now rewrite <- Hp.
  + rewrite limitArraySize_length by lia. lia.
- apply findIndex_none in E. split.
  + apply NoDup_ids_limit. unfold ids in *. rewrite map_app. simpl.
    apply NoDup_app. repeat split.
    * exact Hf.
    * constructor; [simpl; tauto|constructor].
    * intros x Hx [Hc|[]]. subst x. now apply E.
  + rewrite limitArraySize_length by lia. lia.
Qed.

(** X8. The update that the dashboard makes of its timeline for a
    communication keeps the ids of the timeline distinct and its length
    at 500 or less. *)
Theorem timeline_stays_distinct_and_bounded
  (prev : list AgentCommunication.t) (communication : AgentCommunication.t) :
  NoDup (ids prev) -> List.length prev <= 500 ->
  NoDup (ids (updateCommunications prev communication)) /\
  List.length (updateCommunications prev communication) <= 500.
Proof. apply updateCommunications_invariant. Qed.

Lemma timeline_stays_distinct_and_bounded_witness :
  NoDup (ids TimelineSamples.underWay) /\
  List.length (updateCommunications TimelineSamples.underWay TimelineSamples.firstStepDone) <= 500.
Proof.
assert (Hn : NoDup (ids TimelineSamples.underWay)).
{ repeat constructor; simpl; intuition discriminate. }
split; [exact Hn|].
apply (timeline_stays_distinct_and_bounded TimelineSamples.underWay TimelineSamples.firstStepDone).
- exact Hn.
- simpl; lia.
Defined.

(** X9. After the update for a communication with an id, the timeline
    has this communication and no other entry of its id, no starting
    notice is left beside it, and every other entry was in the timeline
    before. *)
Theorem latest_communication_wins
  (prev : list AgentCommunication.t) (communication : AgentCommunication.t) :
  is_empty (idOf communication) = false ->
  NoDup (ids prev) -> List.length prev <= 500 ->
  In communication (updateCommunications prev communication) /\
  (forall d, In d (updateCommunications prev communication) ->
     idOf d = idOf communication -> d = communication) /\
  (forall d, In d (updateCommunications prev communication) ->
     d <> communication ->
     In d prev /\ startsWith "starting_" (idOf d) = false).
Proof.
intros Hid Hn Hl.
pose proof (updateCommunications_invariant prev communication Hn Hl) as [Hn' _].
assert (Hin : In communication (updateCommunications prev communication)).
{ unfold updateCommunications. rewrite Hid.
  set (filteredPrev := filter _ prev).
  destruct (findIndex (idOf communication) filteredPrev) as [i|] eqn:E.
  - apply findIndex_some in E as (before & old & after & Hp & <- & Ho).
    rewrite Hp, replaceAt_middle.
    rewrite limitArraySize_within.
    + apply in_or_app. right. now left.
    + pose proof (filter_length_le
        (fun c => negb (startsWith "starting_" (idOf c))) prev) as Hle.
      fold filteredPrev in Hle. rewrite Hp in Hle.
      rewrite length_app in *. simpl in *. lia.
  - apply In_limit_last. lia. }
split; [exact Hin|]. split.
- intros d Hd Hsame. now apply (same_id_same_entry _ d communication Hn' Hd Hin).
- intros d Hd Hne. revert Hd. unfold updateCommunications. rewrite Hid.
  set (filteredPrev := filter _ prev).
  assert (Hfrom : In d filteredPrev ->
                  In d prev /\ startsWith "starting_" (idOf d) = false).
  { intros Hd. apply filter_In in Hd as [Hd Hs]. split; [exact Hd|].
    now apply negb_true_iff in Hs. }
  destruct (findIndex (idOf communication) filteredPrev) as [i|] eqn:E.
  + apply findIndex_some in E as (before & old & after & Hp & <- & Ho).
    rewrite Hp in *. rewrite replaceAt_middle. intros Hd.
    apply In_limit in Hd. apply Hfrom.
    apply in_app_or in Hd as [Hd|[Hd|Hd]].
    * apply in_or_app. now left.
    * now contradiction Hne.
    * apply in_or_app. right. now right.
  + intros Hd. apply In_limit in Hd.
    apply in_app_or in Hd as [Hd|[Hd|[]]]; [now apply Hfrom|].
    now contradiction Hne.
Qed.

Lemma latest_communication_wins_witness :
  In TimelineSamples.firstStep
     (updateCommunications TimelineSamples.atStart TimelineSamples.firstStep) /\
  (forall d, In d (updateCommunications TimelineSamples.underWay TimelineSamples.firstStepDone) ->
     idOf d = idOf TimelineSamples.firstStepDone -> d = TimelineSamples.firstStepDone).
Proof.
split.
- apply (latest_communication_wins TimelineSamples.atStart TimelineSamples.firstStep).
  + reflexivity.
  + repeat constructor; simpl; intuition discriminate.
  + simpl; lia.
- apply (latest_communication_wins TimelineSamples.underWay TimelineSamples.firstStepDone).
  + reflexivity.
  + repeat constructor; simpl; intuition discriminate.
  + simpl; lia.
Defined.

End DashboardFacts.

(* ================================================================== *)
(** ** The transport: stop of an investigation, order of the dispatch *)
(* ================================================================== *)

Module SessionFacts.
Import JS WebSocketService TransportInvariants SessionInvariants WebSocketFacts.

Lemma runHandleStart_sessionId (q : nat) (m : WebSocketMessage.t) (st : t) :
  sessionId (runHandleStart q m st) = sessionId st.
Proof. unfold runHandleStart. split_conditions; reflexivity. Qed.

Lemma awaitingStop_in_range (p : nat) (sid : string) (st : t) :
  awaitingStop p sid st -> p < List.length (promises st).
Proof.
intros (Hinv & Hreg & _). apply lookup_In in Hreg. apply Hinv in Hreg.
now destruct Hreg.
Qed.

Lemma awaitingStop_set_calls (p : nat) (sid : string)
  (c : list (string * WebSocketMessage.t)) (st : t) :
  awaitingStop p sid st -> awaitingStop p sid (set_calls c st).
Proof. intros (Hinv & H). split; [exact Hinv | exact H]. Qed.

(** A handler other than the stop closure leaves the service waiting. *)
Lemma awaitingStop_bystander (p : nat) (sid : string) (m : WebSocketMessage.t)
  (id0 : string) (h0 : Handler) (st : t) :
  awaitingStop p sid st ->
  lookup id0 (messageHandlers st) = Some h0 ->
  id0 <> "stop_handler" ->
  awaitingStop p sid (fst (guardedCall m id0 h0 st)).
Proof.
intros (Hinv & Hreg & Hsid & Hpend & Hstart) H0 Hne.
pose proof (Hinv _ (lookup_In _ _ _ H0)) as Hplace.
repeat split.
- apply (closuresInPlace_shrinks st); [apply shrinks_guardedCall | exact Hinv].
- rewrite guardedCall_lookup_other; auto.
- unfold guardedCall. destruct h0 as [q|q|throws]; simpl.
  + now rewrite runHandleStart_sessionId.
  + unfold closureInPlace in Hplace. simpl in Hplace. destruct Hplace as [E _].
    contradiction.
  + destruct (throws m); exact Hsid.
- unfold guardedCall. destruct h0 as [q|q|throws]; simpl.
  + rewrite promiseState_runHandleStart_frame; [exact Hpend|].
    left. intro E. subst q. apply (Hstart p); [|reflexivity].
    unfold closureInPlace in Hplace. simpl in Hplace.
    destruct Hplace as [E _]. now subst id0.
  + unfold closureInPlace in Hplace. simpl in Hplace. destruct Hplace as [E _].
    contradiction.
  + destruct (throws m); exact Hpend.
- intros q Hq. apply Hstart. now apply guardedCall_lookup_some in Hq.
Qed.

(** What holds after the stop closure and is kept by every handler
    holds after the dispatch. *)
Lemma forEach_stop_handler (P : t -> Prop) (p : nat) (sid : string)
  (m : WebSocketMessage.t) :
  (forall st, awaitingStop p sid st -> P (runHandleStop p m st)) ->
  (forall id h st, P st -> P (fst (guardedCall m id h st))) ->
  forall ids st,
    awaitingStop p sid st -> In "stop_handler" ids ->
    P (fst (forEach (guardedCall m) ids st)).
Proof.
intros Hrun Hkeep. induction ids as [|id0 rest IH]; intros st Hwait Hin; [contradiction|].
rewrite forEach_guarded_step.
pose proof Hwait as (_ & Hreg & _).
destruct (String.eqb id0 "stop_handler") eqn:E.
- apply String.eqb_eq in E. subst id0. rewrite Hreg.
  assert (HP : P (fst (guardedCall m "stop_handler" (handleStop p) st))).
  { unfold guardedCall. simpl. apply Hrun. now apply awaitingStop_set_calls. }
  revert HP. generalize (fst (guardedCall m "stop_handler" (handleStop p) st)).
  clear - Hkeep. induction rest as [|id rest IH]; intros st HP; [exact HP|].
  rewrite forEach_guarded_step.
  destruct (lookup id (messageHandlers st)); [apply IH, Hkeep, HP | apply IH, HP].
- apply String.eqb_neq in E.
  assert (Hin' : In "stop_handler" rest)
    by (destruct Hin; [congruence | assumption]).
  destruct (lookup id0 (messageHandlers st)) as [h0|] eqn:E0.
  + apply IH; [|exact Hin']. now apply awaitingStop_bystander.
  + now apply IH.
Qed.

Lemma guardedCall_sessionId_none (m : WebSocketMessage.t) (id : string) (h : Handler)
  (st : t) :
  sessionId st = None -> sessionId (fst (guardedCall m id h st)) = None.
Proof.
intro H. unfold guardedCall. destruct h as [q|q|throws]; simpl.
- now rewrite runHandleStart_sessionId.
- unfold runHandleStop. split_conditions; simpl; auto.
- destruct (throws m); exact H.
Qed.

Lemma stopInvestigation_awaiting (sid : string) (st : t) :
  closuresInPlace st -> isConnected st = true ->
  sessionId st = Some sid -> is_empty sid = false ->
  let st1 := fst (stopInvestigation st) in
  let p := snd (stopInvestigation st) in
  awaitingStop p sid st1 /\
  sent st1 = sent st ++ [stop_investigation sid] /\
  timers st1 = timers st ++ [{| delay := 5000%N; action := stopTimeout p |}].
Proof.
intros Hinv Hopen Hsid Hne.
pose proof (closuresInPlace_stopInvestigation st Hinv) as Hinv1.
unfold stopInvestigation in *. simpl in *.
replace (isConnected (set_promises (promises st ++ [Pending]) st)) with true in *
  by (symmetry; exact Hopen).
rewrite Hsid in *. rewrite Hne in *.
simpl in *. repeat split.
- exact Hinv1.
- apply lookup_mapSet_same.
- exact Hsid.
- unfold promiseState. simpl. rewrite app_nth2 by lia.
  now rewrite Nat.sub_diag.
- intros q Hq Eq. subst q. simpl in Hq.
  rewrite lookup_mapSet_other in Hq by discriminate.
  apply lookup_In in Hq. apply Hinv in Hq. destruct Hq as [_ Hq]. lia.
Qed.

Lemma runHandleStop_confirmed (p : nat) (sid : string) (m : WebSocketMessage.t) (st : t) :
  WebSocketMessage.type m = "investigation_stopped" ->
  WebSocketMessage.sessionId m = Some sid ->
  awaitingStop p sid st ->
  promiseState p (runHandleStop p m st) = Resolved None /\
  sessionId (runHandleStop p m st) = None.
Proof.
intros Htype Hm Hwait. pose proof (awaitingStop_in_range _ _ _ Hwait) as Hlt.
destruct Hwait as (_ & _ & Hsid & Hpend & _).
unfold runHandleStop. rewrite Htype, Hm, Hsid. simpl.
rewrite String.eqb_refl. split; [|reflexivity].
now apply promiseState_resolve_same.
Qed.

Lemma runHandleStop_error (p : nat) (sid : string) (m : WebSocketMessage.t) (st : t) :
  WebSocketMessage.type m = "error" ->
  awaitingStop p sid st ->
  promiseState p (runHandleStop p m st) =
  Rejected (or_default (WebSocketMessage.message m) "Unknown error").
Proof.
intros Htype Hwait. pose proof (awaitingStop_in_range _ _ _ Hwait) as Hlt.
destruct Hwait as (_ & _ & Hsid & Hpend & _).
unfold runHandleStop. rewrite Htype. simpl.
now apply promiseState_reject_same.
Qed.

Lemma runHandleStop_ignored (p : nat) (sid : string) (m : WebSocketMessage.t) (st : t) :
  ignoredByStop sid m = true -> sessionId st = Some sid ->
  runHandleStop p m st = st.
Proof.
unfold ignoredByStop, runHandleStop. intros H Hsid. rewrite Hsid.
apply andb_true_iff in H as [H1 H2].
apply negb_true_iff in H1, H2. now rewrite H1, H2.
Qed.

Lemma forEach_keeps_stop_waiting (p : nat) (sid : string) (m : WebSocketMessage.t) :
  ignoredByStop sid m = true ->
  forall ids st,
    awaitingStop p sid st ->
    awaitingStop p sid (fst (forEach (guardedCall m) ids st)).
Proof.
intros Hign. induction ids as [|id0 rest IH]; intros st Hwait; [exact Hwait|].
rewrite forEach_guarded_step.
destruct (lookup id0 (messageHandlers st)) as [h0|] eqn:E0; [|now apply IH].
apply IH. destruct (String.eqb id0 "stop_handler") eqn:E.
- apply String.eqb_eq in E. subst id0.
  pose proof Hwait as (_ & Hreg & Hsid & _).
  rewrite Hreg in E0. inversion E0; subst h0.
  unfold guardedCall. simpl.
  rewrite (runHandleStop_ignored p sid m _ Hign) by exact Hsid.
  now apply awaitingStop_set_calls.
- apply String.eqb_neq in E. now apply awaitingStop_bystander.
Qed.

Lemma awaitingStop_registered (p : nat) (sid : string) (st : t) :
  awaitingStop p sid st -> In "stop_handler" (map fst (messageHandlers st)).
Proof. intros (_ & Hreg & _). now apply lookup_some_In_ids in Hreg. Qed.

End SessionFacts.

Module StopSpec.
Import JS WebSocketService TransportInvariants SessionInvariants WebSocketFacts SessionFacts.

(** X10. A call of [stopInvestigation] on an open socket with a session
    id sends the stop request for that id and leaves the service
    waiting, with a timer of 5 s.  While it waits, a message other than
    the confirmation of the stop and an error leaves it waiting; a
    message of type investigation_stopped with the session id resolves
    the promise and clears the session id; a message of type error,
    whatever it is about, rejects the promise with the text of the
    message; and the timer, falling due with the promise pending,
    rejects it with the timeout error. *)
Theorem stop_investigation_outcomes :
  (forall st sid,
      closuresInPlace st -> isConnected st = true ->
      sessionId st = Some sid -> is_empty sid = false ->
      let st1 := fst (stopInvestigation st) in
      let p := snd (stopInvestigation st) in
      awaitingStop p sid st1 /\
      sent st1 = sent st ++ [stop_investigation sid] /\
      timers st1 = timers st ++ [{| delay := 5000%N; action := stopTimeout p |}]) /\
  (forall p sid st m,
      awaitingStop p sid st -> ignoredByStop sid m = true ->
      awaitingStop p sid (fst (handleMessage m st))) /\
  (forall p sid st m,
      awaitingStop p sid st ->
      WebSocketMessage.type m = "investigation_stopped" ->
      WebSocketMessage.sessionId m = Some sid ->
      promiseState p (fst (handleMessage m st)) = Resolved None /\
      sessionId (fst (handleMessage m st)) = None) /\
  (forall p sid st m,
      awaitingStop p sid st ->
      WebSocketMessage.type m = "error" ->
      promiseState p (fst (handleMessage m st)) =
      Rejected (or_default (WebSocketMessage.message m) "Unknown error")) /\
  (forall p st i d,
      nth_error (timers st) i = Some {| delay := d; action := stopTimeout p |} ->
      p < List.length (promises st) ->
      promiseState p st = Pending ->
      promiseState p (step st (timerFires i)) = Rejected "Investigation stop timeout").
Proof.
split; [intros st sid; apply stopInvestigation_awaiting|].
split; [intros p sid st m Hwait Hign; now apply forEach_keeps_stop_waiting|].
split; [|split].
- intros p sid st m Hwait Htype Hsid.
  apply (forEach_stop_handler
           (fun st => promiseState p st = Resolved None /\ sessionId st = None) p sid m).
  + intros st0. now apply runHandleStop_confirmed.
  + intros id h st0 [Hp Hs]. split.
    * rewrite promiseState_guardedCall_settled; [exact Hp|]. rewrite Hp. discriminate.
    * now apply guardedCall_sessionId_none.
  + exact Hwait.
  + now apply (awaitingStop_registered p sid).
- intros p sid st m Hwait Htype.
  apply (forEach_stop_handler
           (fun st => promiseState p st =
                      Rejected (or_default (WebSocketMessage.message m) "Unknown error"))
           p sid m).
  + intros st0. now apply runHandleStop_error.
  + intros id h st0 Hp.
    rewrite promiseState_guardedCall_settled; [exact Hp|]. rewrite Hp. discriminate.
  + exact Hwait.
  + now apply (awaitingStop_registered p sid).
- intros p st i d Hnth Hlt Hpend. simpl. unfold fireTimer. rewrite Hnth.
  cbn [action]. simpl.
  now apply promiseState_reject_same.
Qed.

(** After the sample call, the confirmation of the stop resolves the
    promise and clears the session id; without any message, the timer
    rejects the promise. *)
Lemma stop_investigation_outcomes_witness :
  (promiseState 2
     (fst (handleMessage
             (TransportSamples.sampleMessage "investigation_stopped"
                (Some TransportSamples.startedSession))
             TransportSamples.stopping))
   = Resolved None /\
   sessionId
     (fst (handleMessage
             (TransportSamples.sampleMessage "investigation_stopped"
                (Some TransportSamples.startedSession))
             TransportSamples.stopping))
   = None) /\
  promiseState 2 (step TransportSamples.stopping (timerFires 1))
  = Rejected "Investigation stop timeout".
Proof.
destruct (proj1 stop_investigation_outcomes TransportSamples.started
            TransportSamples.startedSession
            (closuresInPlace_run _ _ (closuresInPlace_run _ _ closuresInPlace_initial))
            eq_refl eq_refl eq_refl)
  as [Hwait _].
split.
- exact (proj1 (proj2 (proj2 stop_investigation_outcomes))
           2 TransportSamples.startedSession TransportSamples.stopping
           (TransportSamples.sampleMessage "investigation_stopped"
              (Some TransportSamples.startedSession))
           Hwait eq_refl eq_refl).
- apply (proj2 (proj2 (proj2 (proj2 stop_investigation_outcomes)))
           2 TransportSamples.stopping 1 5000%N).
  + reflexivity.
  + vm_compute. lia.
  + reflexivity.
Defined.

End StopSpec.

Module DispatchFacts.
Import JS WebSocketService TransportInvariants SessionInvariants WebSocketFacts SessionFacts.

(** The start closure keeps waiting on a message that it does not act
    on and that does not confirm a stop. *)
Lemma forEach_keeps_waiting_on (p : nat) (sid : string) (m : WebSocketMessage.t) :
  String.eqb (WebSocketMessage.type m) "investigation_stopped" = false ->
  (forall st, runHandleStart p m st = st) ->
  forall ids st,
    awaitingStart p sid st ->
    awaitingStart p sid (fst (forEach (guardedCall m) ids st)).
Proof.
intros Htype Hign. induction ids as [|id0 rest IH]; intros st Hwait; [exact Hwait|].
rewrite forEach_guarded_step.
destruct (lookup id0 (messageHandlers st)) as [h0|] eqn:E0; [|now apply IH].
apply IH. destruct (String.eqb id0 "start_handler") eqn:E.
- apply String.eqb_eq in E. subst id0.
  pose proof Hwait as (_ & Hreg & Hsid & _).
  rewrite Hreg in E0. inversion E0; subst h0.
  unfold guardedCall. simpl. rewrite Hign.
  now apply awaitingStart_set_calls.
- apply String.eqb_neq in E. now apply awaitingStart_bystander.
Qed.

Lemma promise_of_new_request (outcome : Promise) (st : t) :
  outcome <> Pending ->
  nth (List.length (promises st))
      (update_nth (List.length (promises st)) (settle outcome) (promises st ++ [Pending]))
      Pending = outcome.
Proof.
intros _. rewrite nth_update_nth_same by (rewrite length_app; simpl; lia).
rewrite app_nth2 by lia. now rewrite Nat.sub_diag.
Qed.

Lemma NoDup_keys_mapSet (id : string) (h : Handler) (hs : list (string * Handler)) :
  NoDup (map fst hs) -> NoDup (map fst (mapSet id h hs)).
Proof.
induction hs as [|[k h'] hs IH]; simpl; intros H.
- constructor; [simpl; tauto|constructor].
- inversion H as [|x r Hin Hr]; subst.
  destruct (String.eqb k id) eqn:E; simpl; [now constructor|].
  apply String.eqb_neq in E.
  constructor; [|now apply IH].
  intros Hk. apply in_map_iff in Hk as ([k' h''] & Hf & Hk). simpl in Hf. subst k'.
  apply In_mapSet in Hk as [Hk|Hk].
  + inversion Hk. congruence.
  + apply Hin. apply in_map_iff. now exists (k, h'').
Qed.

Lemma NoDup_keys_mapDelete (id : string) (hs : list (string * Handler)) :
  NoDup (map fst hs) -> NoDup (map fst (mapDelete id hs)).
Proof.
unfold mapDelete.
induction hs as [|e hs IH]; simpl; intros H; [constructor|].
inversion H as [|x r Hin Hr]; subst.
destruct (negb (String.eqb (fst e) id)); simpl; [|now apply IH].
constructor; [|now apply IH].
intros Hk. apply Hin.
apply in_map_iff in Hk as (e' & Hf & Hk). apply filter_In in Hk as [Hk _].
apply in_map_iff. now exists e'.
Qed.

Lemma registered_guardedCall (m : WebSocketMessage.t) (id : string) (h : Handler) (st : t) :
  NoDup (registered st) -> NoDup (registered (fst (guardedCall m id h st))).
Proof.
unfold registered.
destruct (guardedCall_registry m id h st) as [E|E]; rewrite E; auto.
apply NoDup_keys_mapDelete.
Qed.

Lemma registered_forEach (m : WebSocketMessage.t) (ids : list string) :
  forall st, NoDup (registered st) ->
             NoDup (registered (fst (forEach (guardedCall m) ids st))).
Proof.
induction ids as [|id rest IH]; intros st H; [exact H|].
rewrite forEach_guarded_step.
destruct (lookup id (messageHandlers st)) as [h|]; [|now apply IH].
apply IH. now apply registered_guardedCall.
Qed.

Lemma registered_connect (st : t) :
  messageHandlers (fst (connect st)) = messageHandlers st.
Proof. unfold connect. simpl. split_conditions; reflexivity. Qed.

Lemma registered_runTimer (a : TimerAction) (st : t) :
  NoDup (registered st) -> NoDup (registered (runTimer a st)).
Proof.
unfold registered. destruct a; simpl.
- now rewrite registered_connect.
- intros H. split_conditions; simpl; now apply NoDup_keys_mapDelete.
- intros H. now apply NoDup_keys_mapDelete.
Qed.

Lemma registered_step (st : t) (a : Action) :
  NoDup (registered st) -> NoDup (registered (step st a)).
Proof.
unfold registered. destruct a; simpl; intros H.
- now rewrite registered_connect.
- unfold disconnect. simpl. split_conditions; exact H.
- now apply NoDup_keys_mapSet.
- now apply NoDup_keys_mapDelete.
- unfold startInvestigation. simpl. split_conditions; simpl; [exact H|].
  now apply NoDup_keys_mapSet.
- unfold stopInvestigation. simpl. split_conditions; simpl; try exact H.
  now apply NoDup_keys_mapSet.
- unfold onopen. simpl. split_conditions; exact H.
- unfold onclose. simpl. split_conditions; exact H.
- unfold onerror. split_conditions; exact H.
- unfold onmessage. split_conditions; try exact H;
    destruct payload as [|errorText|[|type timestamp sid data message error]];
    try exact H; try (now apply registered_forEach).
  destruct type as [type|]; [|exact H].
  destruct timestamp as [timestamp|]; [|exact H].
  destruct (is_empty type || is_empty timestamp); [exact H|].
  now apply registered_forEach.
- unfold fireTimer. destruct (nth_error (timers st) i) as [tm|]; [|exact H].
  now apply registered_runTimer.
Qed.

Lemma registered_run (actions : list Action) :
  forall st, NoDup (registered st) -> NoDup (registered (run st actions)).
Proof.
induction actions as [|a actions IH]; intros st H; [exact H|].
apply IH. now apply registered_step.
Qed.

(** With distinct ids, of which none is deleted before its turn, the
    loop calls the handlers of all ids, in their order. *)
Lemma forEach_calls_in_order (m : WebSocketMessage.t) (ids : list string) :
  forall st,
    closuresInPlace st -> NoDup ids ->
    (forall id, In id ids -> lookup id (messageHandlers st) <> None) ->
    calls (fst (forEach (guardedCall m) ids st)) =
    calls st ++ map (fun id => (id, m)) ids.
Proof.
induction ids as [|id0 rest IH]; intros st Hinv Hn Hreg.
- simpl. now rewrite app_nil_r.
- rewrite forEach_guarded_step.
  destruct (lookup id0 (messageHandlers st)) as [h0|] eqn:E0.
  + inversion Hn as [|x r Hnin Hr]; subst.
    rewrite IH.
    * rewrite guardedCall_calls. simpl. now rewrite <- app_assoc.
    * apply (closuresInPlace_shrinks st); [apply shrinks_guardedCall | exact Hinv].
    * exact Hr.
    * intros id Hid. rewrite guardedCall_lookup_other.
      -- apply Hreg. now right.
      -- apply Hinv. now apply lookup_In in E0.
      -- intros ->. contradiction.
  + exfalso. apply (Hreg id0); [now left | exact E0].
Qed.

Lemma lookup_registered (id : string) (hs : list (string * Handler)) :
  In id (map fst hs) -> lookup id hs <> None.
Proof.
induction hs as [|[k h] hs IH]; simpl; intros H; [contradiction|].
destruct (String.eqb k id) eqn:E; [discriminate|].
apply String.eqb_neq in E. destruct H as [H|H]; [contradiction|now apply IH].
Qed.

End DispatchFacts.

Module DispatchOrderSpec.
Import JS WebSocketService TransportInvariants SessionInvariants WebSocketFacts.
Import SessionFacts DispatchFacts.

(** X11. A frame that cannot be parsed reaches the handlers as an
    error message: it rejects the promise of a stop that is waited for,
    with the text of the parse failure, and it leaves a start that is
    waited for waiting. *)
Theorem malformed_frame_ends_a_stop_only :
  (forall p sid st errorText nowISO,
      awaitingStop p sid st ->
      promiseState p (fst (onmessage (malformed errorText) nowISO st)) =
      Rejected "Failed to parse WebSocket message") /\
  (forall p sid st errorText nowISO,
      awaitingStart p sid st ->
      awaitingStart p sid (fst (onmessage (malformed errorText) nowISO st))).
Proof.
split.
- intros p sid st errorText nowISO Hwait. simpl.
  apply (forEach_stop_handler
           (fun st => promiseState p st = Rejected "Failed to parse WebSocket message")
           p sid (syntheticError nowISO errorText)).
  + intros st0 H0.
    now rewrite (runHandleStop_error p sid (syntheticError nowISO errorText) st0).
  + intros id h st0 Hp.
    rewrite promiseState_guardedCall_settled; [exact Hp|]. rewrite Hp. discriminate.
  + exact Hwait.
  + now apply (awaitingStop_registered p sid).
- intros p sid st errorText nowISO Hwait. simpl.
  apply forEach_keeps_waiting_on; [reflexivity| |exact Hwait].
  intros st0. reflexivity.
Qed.

(** The sample service that waits for a stop has its promise rejected
    by such a frame; the one that waits for a start keeps waiting. *)
Lemma malformed_frame_ends_a_stop_only_witness :
  promiseState 2
    (fst (onmessage (malformed "SyntaxError: Unexpected token") "2025-01-01T00:00:02.000Z"
            TransportSamples.stopping))
  = Rejected "Failed to parse WebSocket message" /\
  awaitingStart 1 TransportSamples.startedSession
    (fst (onmessage (malformed "SyntaxError: Unexpected token") "2025-01-01T00:00:02.000Z"
            TransportSamples.starting)).
Proof.
destruct (stopInvestigation_awaiting TransportSamples.startedSession TransportSamples.started
            (closuresInPlace_run _ _ (closuresInPlace_run _ _ closuresInPlace_initial))
            eq_refl eq_refl eq_refl)
  as [Hstop _].
pose (st0 := run initial [ callOnMessage "realtime_service" (fun _ => false);
                           callConnect; socketOpens 0 ]).
destruct (startInvestigation_awaiting "Acme" "S. 383-116" "Investigation" "17_k3x9" st0
            (closuresInPlace_run _ _ closuresInPlace_initial) eq_refl)
  as [Hstart _].
split.
- exact (proj1 malformed_frame_ends_a_stop_only 2 TransportSamples.startedSession
           TransportSamples.stopping "SyntaxError: Unexpected token"
           "2025-01-01T00:00:02.000Z" Hstop).
- exact (proj2 malformed_frame_ends_a_stop_only 1 TransportSamples.startedSession
           TransportSamples.starting "SyntaxError: Unexpected token"
           "2025-01-01T00:00:02.000Z" Hstart).
Defined.

(** X12. Without an open socket, [startInvestigation] and
    [stopInvestigation] reject their promise at once with
    'WebSocket not connected'; with an open socket and no session id,
    [stopInvestigation] rejects it with 'No active investigation'.  In
    the three cases nothing is sent, no handler is registered, no timer
    is set and the session id is as before. *)
Theorem requests_rejected_at_once :
  (forall st company bill description stamp,
      isConnected st = false ->
      let st1 := fst (startInvestigation company bill description stamp st) in
      let p := snd (startInvestigation company bill description stamp st) in
      promiseState p st1 = Rejected "WebSocket not connected" /\
      sent st1 = sent st /\ messageHandlers st1 = messageHandlers st /\
      timers st1 = timers st /\ sessionId st1 = sessionId st) /\
  (forall st,
      isConnected st = false ->
      let st1 := fst (stopInvestigation st) in
      let p := snd (stopInvestigation st) in
      promiseState p st1 = Rejected "WebSocket not connected" /\
      sent st1 = sent st /\ messageHandlers st1 = messageHandlers st /\
      timers st1 = timers st /\ sessionId st1 = sessionId st) /\
  (forall st,
      isConnected st = true -> truthy (sessionId st) = false ->
      let st1 := fst (stopInvestigation st) in
      let p := snd (stopInvestigation st) in
      promiseState p st1 = Rejected "No active investigation" /\
      sent st1 = sent st /\ messageHandlers st1 = messageHandlers st /\
      timers st1 = timers st /\ sessionId st1 = sessionId st).
Proof.
split; [|split].
- intros st company bill description stamp Hc. unfold startInvestigation. simpl.
  replace (isConnected (set_promises (promises st ++ [Pending]) st)) with false
    by (symmetry; exact Hc).
  simpl. repeat split. unfold promiseState. simpl.
  now apply promise_of_new_request.
- intros st Hc. unfold stopInvestigation. simpl.
  replace (isConnected (set_promises (promises st ++ [Pending]) st)) with false
    by (symmetry; exact Hc).
  simpl. repeat split. unfold promiseState. simpl.
  now apply promise_of_new_request.
- intros st Hc Hs. unfold stopInvestigation. simpl.
  replace (isConnected (set_promises (promises st ++ [Pending]) st)) with true
    by (symmetry; exact Hc).
  simpl. unfold truthy in Hs.
  destruct (sessionId st) as [sid|] eqn:E.
  + apply negb_false_iff in Hs. rewrite Hs. simpl. rewrite E.
    repeat split. unfold promiseState. simpl.
    now apply promise_of_new_request.
  + simpl. rewrite E. repeat split. unfold promiseState. simpl.
    now apply promise_of_new_request.
Qed.

Lemma requests_rejected_at_once_witness :
  promiseState 0 (fst (startInvestigation "Acme" "S. 383-116" "Investigation" "17_k3x9" initial))
  = Rejected "WebSocket not connected" /\
  promiseState 1 (fst (stopInvestigation TransportSamples.connected))
  = Rejected "No active investigation".
Proof.
split.
- apply (proj1 requests_rejected_at_once initial "Acme" "S. 383-116" "Investigation" "17_k3x9").
  reflexivity.
- apply (proj2 (proj2 requests_rejected_at_once) TransportSamples.connected); reflexivity.
Defined.

(** X13. In every state that the service reaches, the ids of the
    registry are distinct and the dispatch of a message calls every
    registered handler once, in the order of registration. *)
Theorem dispatch_once_in_order (actions : list Action) (m : WebSocketMessage.t) :
  let st := run initial actions in
  NoDup (registered st) /\
  calls (fst (handleMessage m st)) = calls st ++ map (fun id => (id, m)) (registered st).
Proof.
intros st.
assert (Hn : NoDup (registered st)).
{ apply registered_run. constructor. }
split; [exact Hn|].
apply forEach_calls_in_order.
- apply closuresInPlace_run, closuresInPlace_initial.
- exact Hn.
- intros id. apply lookup_registered.
Qed.

End DispatchOrderSpec.

(* ================================================================== *)
(** ** The orchestrator: sessions *)
(* ================================================================== *)

Module SessionFlowFacts.
Import JS RealTimeService SessionFlow.
Import TransportInvariants WebSocketFacts.
















End SessionFlowFacts.

Module SessionSpec.
Import JS RealTimeService SessionFlow SessionFlowFacts.
Import TransportInvariants WebSocketFacts.




End SessionSpec.

(* ================================================================== *)
(** ** The table parser: shapes of the result *)
(* ================================================================== *)

Module MemberFacts.
Import JS JSFacts TableParser TableShapes MemberShapes TableParserFacts.

Lemma lazyPrefix_tail {A : Type} (tail : string -> option A) (s g : string) (a : A) :
  lazyPrefix tail s = Some (g, a) -> exists r, tail r = Some a.
Proof.
revert g; induction s as [|c r IH]; intros g H; simpl in H; [discriminate H|].
destruct (is_line_terminator c); [discriminate H|].
destruct (tail r) as [a'|] eqn:E.
- injection H as _ <-. now exists r.
- destruct (lazyPrefix tail r) as [[g' a']|]; [|discriminate H].
  injection H as _ <-. now apply (IH g').
Qed.

Lemma partyLetter_expand (x : ascii) :
  partyLetter x = true ->
  partyName (Some (expandParty (String x EmptyString))).
Proof.
unfold partyLetter, partyName. intros H.
repeat (apply orb_true_iff in H as [H|H]); apply char_eqb_true in H; subst x;
  simpl; auto.
Qed.

Lemma simplePartyTail_letter (r p : string) :
  simplePartyTail r = Some p -> partyName (Some (expandParty p)).
Proof.
unfold simplePartyTail.
destruct (drop_while is_space r) as [|a [|x [|b [|c t]]]]; try discriminate;
  destruct a as [[] [] [] [] [] [] [] []]; try discriminate;
  destruct b as [[] [] [] [] [] [] [] []]; try discriminate.
destruct (partyLetter x) eqn:E; [|discriminate].
intros H. injection H as <-. now apply partyLetter_expand.
Qed.

Lemma partyStateTail_letter (r p : string) :
  partyStateTail r = Some p -> partyName (Some (expandParty p)).
Proof.
unfold partyStateTail.
destruct (drop_while is_space r) as [|a [|x [|b t]]]; try discriminate;
  destruct a as [[] [] [] [] [] [] [] []]; try discriminate;
  destruct b as [[] [] [] [] [] [] [] []]; try discriminate.
destruct (partyLetter x) eqn:E; [|discriminate].
intros H. injection H as <-. now apply partyLetter_expand.
Qed.

Lemma parseNameForParty_party (nameCell : string) :
  let info := parseNameForParty nameCell in
  partyName (if truthy (snd info) then option_map expandParty (snd info) else None).
Proof.
unfold parseNameForParty.
destruct (lazyPrefix simplePartyTail nameCell) as [[nm p]|] eqn:E1; simpl.
- apply lazyPrefix_tail in E1 as [r Hr].
  destruct (is_empty p); simpl; [now left|].
  now apply (simplePartyTail_letter r).
- destruct (lazyPrefix partyStateTail nameCell) as [[nm p]|] eqn:E2; simpl.
  + apply lazyPrefix_tail in E2 as [r Hr].
    destruct (is_empty p); simpl; [now left|].
    now apply (partyStateTail_letter r).
  + now left.
Qed.

Lemma parseStateDistrict_shape (cell : string) :
  match snd (parseStateDistrict cell) with
  | Some d =>
      is_empty d = false /\ all_chars is_digit d = true /\
      String.length (fst (parseStateDistrict cell)) = 2 /\
      all_chars is_upper (fst (parseStateDistrict cell)) = true
  | None => True
  end.
Proof.
unfold parseStateDistrict.
destruct (districtMatch cell) as [[st d]|] eqn:E; simpl.
- unfold districtMatch in E.
  destruct cell as [|a [|b [|c ds]]]; try discriminate.
  destruct c as [[] [] [] [] [] [] [] []]; try discriminate.
  destruct (is_upper a) eqn:Ea; [|discriminate].
  destruct (is_upper b) eqn:Eb; [|discriminate].
  destruct (is_empty ds) eqn:Ee; [discriminate|].
  destruct (all_chars is_digit ds) eqn:Ed; [|discriminate].
  simpl in E. injection E as <- <-. simpl. rewrite Ea, Eb. auto.
- now destruct (stateMatch cell).
Qed.

Lemma parseTableRow_shape (row : string) (m : CongressMember) :
  parseTableRow row = Some m -> partyName (party m) /\ stateAndDistrict m.
Proof.
unfold parseTableRow.
destruct (rowCells row) as [|c0 [|c1 [|c2 [|c3 [|c4 rest]]]]]; try discriminate.
destruct (parseRank c3); [|discriminate].
intros H. injection H as <-. unfold stateAndDistrict. simpl. split.
- apply parseNameForParty_party.
- apply parseStateDistrict_shape.
Qed.

Lemma take_drop_while (p : ascii -> bool) (s : string) :
  take_while p s +++ drop_while p s = s.
Proof.
induction s as [|c s IH]; simpl; [reflexivity|].
destruct (p c); simpl; [now rewrite IH | reflexivity].
Qed.

Lemma startsWith_append (a b : string) : startsWith a (a +++ b) = true.
Proof.
induction a as [|c a IH]; simpl; [reflexivity|].
unfold char_eqb. now rewrite Ascii.eqb_refl, IH.
Qed.

Lemma append_assoc (a b c : string) : (a +++ b) +++ c = a +++ b +++ c.
Proof. induction a as [|x a IH]; simpl; [reflexivity | now rewrite IH]. Qed.

Lemma includes_startsWith (p s : string) :
  startsWith p s = true -> includes p s = true.
Proof. intros H. destruct s; simpl; simpl in H; now rewrite H. Qed.

Lemma exists_char_append_l (p : ascii -> bool) (a b : string) :
  exists_char p a = true -> exists_char p (a +++ b) = true.
Proof.
induction a as [|c a IH]; simpl; [discriminate|].
intros H. apply orb_true_iff in H as [H|H]; [now rewrite H|].
rewrite (IH H). apply orb_true_r.
Qed.

Lemma exists_char_append_r (p : ascii -> bool) (a b : string) :
  exists_char p b = true -> exists_char p (a +++ b) = true.
Proof.
induction a as [|c a IH]; simpl; [auto|].
intros H. rewrite (IH H). apply orb_true_r.
Qed.

Lemma take_while_nonempty_exists (p : ascii -> bool) (s : string) :
  is_empty (take_while p s) = false -> exists_char p (take_while p s) = true.
Proof.
destruct s as [|c s]; simpl; [discriminate|].
destruct (p c) eqn:E; simpl; [now rewrite E | discriminate].
Qed.

Lemma billMatchAt_prefix (s b : string) :
  billMatchAt s = Some b ->
  startsWith b s = true /\
  (exists c r, b = String c r /\ billLetter c = true) /\
  exists_char is_digit b = true.
Proof.
unfold billMatchAt. destruct s as [|c r]; [discriminate|].
fold (billLetter c). destruct (billLetter c) eqn:El; [|discriminate].
set (dot := match r with String "."%char _ => "." | _ => "" end).
set (r1 := match r with String "."%char r' => r' | _ => r end).
assert (Hr : r = dot +++ r1).
{ unfold dot, r1. destruct r as [|x r']; [reflexivity|].
  destruct x as [[] [] [] [] [] [] [] []]; reflexivity. }
destruct (take_while is_digit (drop_while is_space r1)) as [|d ds] eqn:Ed1;
  [discriminate|].
destruct (drop_while is_digit (drop_while is_space r1)) as [|x r4] eqn:Er4;
  [discriminate|].
destruct ((char_eqb x "-"%char || is_space x) &&
          negb (is_empty (take_while is_digit r4))) eqn:Ec; [|discriminate].
intros H. injection H as <-.
assert (Hs : String c r =
             String c (dot +++ take_while is_space r1 +++ String d ds +++
                       String x (take_while is_digit r4)) +++
             drop_while is_digit r4).
{ simpl. f_equal. rewrite Hr at 1. rewrite !append_assoc. f_equal.
  rewrite <- (take_drop_while is_space r1) at 1. f_equal.
  rewrite <- (take_drop_while is_digit (drop_while is_space r1)).
  rewrite Ed1, Er4. simpl. f_equal.
  rewrite append_assoc. simpl. now rewrite take_drop_while. }
split; [|split].
- rewrite Hs. apply startsWith_append.
- now exists c, (dot +++ take_while is_space r1 +++ String d ds +++
                 String x (take_while is_digit r4)).
- simpl. apply orb_true_iff. right.
  apply exists_char_append_r, exists_char_append_r.
  assert (Hd : exists_char is_digit (take_while is_digit (drop_while is_space r1)) = true).
  { apply take_while_nonempty_exists. now rewrite Ed1. }
  rewrite Ed1 in Hd.
  exact (exists_char_append_l is_digit (String d ds)
           (String x (take_while is_digit r4)) Hd).
Qed.

Lemma stateDistrictText_parse (cell : string) :
  stateDistrictText (parseStateDistrict cell) = cell.
Proof.
unfold parseStateDistrict, stateDistrictText.
destruct (districtMatch cell) as [[st d]|] eqn:E; simpl.
- unfold districtMatch in E.
  destruct cell as [|a [|b [|c ds]]]; try discriminate.
  destruct c as [[] [] [] [] [] [] [] []]; try discriminate.
  destruct (is_upper a && is_upper b && negb (is_empty ds) && all_chars is_digit ds) eqn:Ec;
    [|discriminate].
  injection E as <- <-.
  apply andb_true_iff in Ec as [Ec _]. apply andb_true_iff in Ec as [_ Ec].
  now rewrite Ec.
- destruct (stateMatch cell) as [st|] eqn:Es; simpl; [|reflexivity].
  unfold stateMatch in Es.
  destruct cell as [|a [|b [|c r]]]; try discriminate.
  destruct (is_upper a && is_upper b); [|discriminate]. now injection Es as <-.
Qed.

End MemberFacts.

Module ParserShapeSpec.
Import JS JSFacts TableParser TableShapes MemberShapes TableParserFacts MemberFacts.

(** X16. In every table that the parser returns, the count of members
    is the length of the list of members, the two groups of a table in
    dual mode make up that list and a table in single mode has no
    groups; and every member has as party Republican, Democrat,
    Independent or none, and, when it has a district, a district of
    digits and a state of two capital letters. *)
Theorem parsed_table_is_well_formed (content : string) (t : ParsedTable) :
  parseCongressTable content = Some t ->
  totalMembers t = List.length (members t) /\
  groupsMakeUp t /\
  forall m, In m (members t) -> partyName (party m) /\ stateAndDistrict m.
Proof.
intros H.
assert (Hshape : totalMembers t = List.length (members t) /\ groupsMakeUp t).
{ pose proof H as H0. unfold parseCongressTable, parseOrchestratorTable in H0.
  destruct (detectDualTables content).
  - unfold parseDualTables in H0.
    destruct (List.length _ =? 0) in H0; [discriminate H0|].
    injection H0 as <-. unfold groupsMakeUp. simpl.
    split; [reflexivity|]. eexists _, _. repeat split.
  - unfold parseSingleTable in H0.
    destruct (negb (detectTableInMessage content)); [discriminate H0|].
    destruct (extractTableSection content) as [section|]; [|discriminate H0].
    destruct (is_empty section); [discriminate H0|].
    destruct (List.length _ =? 0) in H0; [discriminate H0|].
    injection H0 as <-. unfold groupsMakeUp. simpl.
    split; [reflexivity|]. split; reflexivity. }
destruct Hshape as [Htotal Hgroups].
split; [exact Htotal|]. split; [exact Hgroups|].
intros m Hm.
destruct (parse_members_from_lines content t m H Hm) as [line Hl].
apply parseTableLine_row in Hl. now apply (parseTableRow_shape (trim line)).
Qed.

(** The sample with two tables of one row each. *)
Lemma parsed_table_is_well_formed_witness :
  exists t,
    parseCongressTable Samples.dualTable = Some t /\
    totalMembers t = List.length (members t) /\ groupsMakeUp t.
Proof.
destruct (parseCongressTable Samples.dualTable) as [t|] eqn:E;
  [|vm_compute in E; discriminate E].
exists t. split; [reflexivity|].
destruct (parsed_table_is_well_formed Samples.dualTable t E) as (H1 & H2 & _).
now split.
Defined.

(** X17. The state and the district into which [parseStateDistrict]
    splits a cell print, in the digest of the orchestrator, as the cell
    itself: the entry of the digest for a member with that state and
    that district shows the cell as it was written. *)
Theorem state_district_round_trip (cell : string) :
  stateDistrictText (parseStateDistrict cell) = cell /\
  forall m,
    state m = fst (parseStateDistrict cell) ->
    district m = snd (parseStateDistrict cell) ->
    RealTimeService.formatMember m =
    "**" +++ string_of_N (rank m) +++ ". " +++ name m +++ "** (" +++
    (if truthy (party m) then RealTimeService.template (party m) +++ ", " else "") +++
    cell +++ ") - " +++ chamber m +++ nl +++
    take 200 (reason m) +++
    (if 200 <? String.length (reason m) then "..." else "") +++ nl +++ nl.
Proof.
split; [apply stateDistrictText_parse|].
intros m Hs Hd. unfold RealTimeService.formatMember. cbv zeta.
rewrite Hs, Hd.
change (if truthy (snd (parseStateDistrict cell))
        then fst (parseStateDistrict cell) +++ "-" +++
             RealTimeService.template (snd (parseStateDistrict cell))
        else fst (parseStateDistrict cell))
  with (stateDistrictText (parseStateDistrict cell)).
now rewrite stateDistrictText_parse.
Qed.

(** The entry of the digest for a member of the House from the eighth
    district of Maryland. *)
Lemma state_district_round_trip_witness :
  RealTimeService.formatMember MemberShapes.representative =
  "**3. Jamie Raskin** (Democrat, MD-08) - House" +++ nl +++
  "Sponsored the related amendment" +++ nl +++ nl.
Proof.
apply (proj2 (state_district_round_trip "MD-08") MemberShapes.representative); reflexivity.
Defined.

(** X18. The bill id that the parser finds is a part of the text as it
    is written there, begins with the letter S or H in either case and
    has a digit. *)
Theorem bill_id_is_quoted (content b : string) :
  extractBillId content = Some b ->
  includes b content = true /\
  (exists c r, b = String c r /\ billLetter c = true) /\
  exists_char is_digit b = true.
Proof.
induction content as [|c r IH]; intros H.
- simpl in H. discriminate H.
- unfold extractBillId in H. fold extractBillId in H.
  destruct (billMatchAt (String c r)) as [m|] eqn:E.
  + injection H as <-. apply billMatchAt_prefix in E as (Hp & Hl & Hd).
    split; [now apply includes_startsWith|]. split; assumption.
  + destruct (IH H) as (Hi & Hl & Hd).
    split; [|split; assumption].
    simpl. rewrite Hi. apply orb_true_r.
Qed.

Lemma bill_id_is_quoted_witness :
  includes "S. 383-116" "Findings for bill S. 383-116 follow." = true.
Proof.
apply (bill_id_is_quoted "Findings for bill S. 383-116 follow." "S. 383-116").
vm_compute. reflexivity.
Defined.

End ParserShapeSpec.
